(** * excel-compare: a shallow embedding of the comparison engine

    The development follows the JavaScript sources module by module:
    - [JS]               the fragment of the host language the modules rely on
                         (UTF-16 strings, cell values, objects, [parseFloat]);
    - [ArabicNormalizer] js/arabicNormalizer.js;
    - [Matcher]          the matcher module (smartMatch and its algorithms);
    - [KeyDetector]      js/keyDetector.js;
    - [FileParser]       the file parser module;
    - [Reporter]         js/reporter.js;
    - [Exporter]         the exporter module (the CSV fields and the rows and
                         sheets of the Excel file).

    Numbers.  JavaScript numbers are IEEE-754 doubles.  They are idealised
    here: counts and lengths are [nat], the similarity scores of the fuzzy
    algorithms are exact rationals ([Q], so they can be evaluated), and a
    score that may come out of [Math.exp] is a real number ([R]).  Rounding
    is not modelled there.  The analysis of a record, whose status turns on
    an average that rounding can move across a threshold, is given over an
    arbitrary arithmetic ([Reporter.Arith]), of which the real numbers are
    one instance.

    Objects.  The rows and the other plain objects of the program inherit
    from [Object.prototype]: reading a name they have no entry for gives
    the member of that name, and an assignment under "__proto__" writes no
    entry ([JS.getProp], [JS.assign]). *)

From Stdlib Require Import List Bool Arith NArith ZArith Lia.
From Stdlib Require Import QArith Qabs Qreals Qminmax Reals Lra.
From Stdlib Require Import Ascii String DecimalString.
From Stdlib Require Lqa DecimalPos DecimalZ.
From Stdlib Require Import Sorted Permutation.
Import ListNotations.

(** Numerals are natural numbers unless a scope says otherwise. *)
Close Scope R_scope.
Close Scope Q_scope.

(* ================================================================== *)
(** * The host language *)
(* ================================================================== *)

Module JS.

(** A string is a sequence of UTF-16 code units. *)
Definition char := N.
Definition jsstring := list char.

(** ASCII literals. *)
Definition lit (s : string) : jsstring :=
  List.map N_of_ascii (list_ascii_of_string s).

Fixpoint str_eqb (a b : jsstring) : bool :=
  match a, b with
  | [], [] => true
  | x :: a', y :: b' => N.eqb x y && str_eqb a' b'
  | _, _ => false
  end.

(** The class [\s] of regular expressions, which is also what [trim]
    strips: WhiteSpace and LineTerminator code points. *)
Definition isSpace (c : char) : bool :=
  ((9 <=? c) && (c <=? 13) || (c =? 32) || (c =? 160) || (c =? 5760)
   || (8192 <=? c) && (c <=? 8202) || (c =? 8232) || (c =? 8233)
   || (c =? 8239) || (c =? 8287) || (c =? 12288) || (c =? 65279))%N.

Definition SP : char := 32%N.

Fixpoint trimStart (s : jsstring) : jsstring :=
  match s with
  | [] => []
  | c :: t => if isSpace c then trimStart t else s
  end.

Fixpoint trimEnd (s : jsstring) : jsstring :=
  match s with
  | [] => []
  | c :: t =>
      match trimEnd t with
      | [] => if isSpace c then [] else [c]
      | t' => c :: t'
      end
  end.

Definition trim (s : jsstring) : jsstring := trimEnd (trimStart s).

(** [s.replace(/\s+/g, ' ')]: every maximal run of white space becomes one
    space.  [inrun] tells that the previous code unit was white space. *)
Fixpoint collapseFrom (inrun : bool) (s : jsstring) : jsstring :=
  match s with
  | [] => []
  | c :: t =>
      if isSpace c
      then if inrun then collapseFrom true t else SP :: collapseFrom true t
      else c :: collapseFrom false t
  end.

Definition collapseSpaces : jsstring -> jsstring := collapseFrom false.

(** [s.replace(new RegExp(from, 'g'), to)] for a pattern that is one
    ordinary code unit, and the same with an empty replacement. *)
Definition replaceChar (from to : char) (s : jsstring) : jsstring :=
  List.map (fun c => if N.eqb c from then to else c) s.

Definition removeChar (from : char) (s : jsstring) : jsstring :=
  List.filter (fun c => negb (N.eqb c from)) s.

(** [toLowerCase] on the Basic Latin block; other code units are kept. *)
Definition lowerChar (c : char) : char :=
  if ((65 <=? c) && (c <=? 90))%N then (c + 32)%N else c.

Definition toLowerCase (s : jsstring) : jsstring := List.map lowerChar s.

(** [s.split(/\s+/)]: the pieces between maximal runs of white space; a
    leading or trailing run leaves an empty first or last piece.  [cur] is
    the piece being read, reversed. *)
Fixpoint splitFrom (inrun : bool) (cur : jsstring) (s : jsstring) : list jsstring :=
  match s with
  | [] => [rev cur]
  | c :: t =>
      if isSpace c
      then if inrun then splitFrom true cur t else rev cur :: splitFrom true [] t
      else splitFrom false (c :: cur) t
  end.

Definition splitSpaces (s : jsstring) : list jsstring := splitFrom false [] s.

(** [s.split(' ')] and [l.join(' ')]. *)
Fixpoint splitOn (sep : char) (cur : jsstring) (s : jsstring) : list jsstring :=
  match s with
  | [] => [rev cur]
  | c :: t =>
      if N.eqb c sep then rev cur :: splitOn sep [] t
      else splitOn sep (c :: cur) t
  end.

Fixpoint join (sep : char) (l : list jsstring) : jsstring :=
  match l with
  | [] => []
  | [x] => x
  | x :: rest => x ++ sep :: join sep rest
  end.

(** [l.includes(x)] / [set.has(x)] on strings. *)
Definition includes (x : jsstring) (l : list jsstring) : bool :=
  existsb (str_eqb x) l.

(** A [Set] of strings keeps its members in insertion order. *)
Definition setAdd (s : list jsstring) (x : jsstring) : list jsstring :=
  if includes x s then s else s ++ [x].

Definition newSet (l : list jsstring) : list jsstring := fold_left setAdd l [].

(** [hay.includes(needle)] on strings: [needle] occurs as a substring. *)
Fixpoint startsWith (needle hay : jsstring) : bool :=
  match needle, hay with
  | [], _ => true
  | x :: n', y :: h' => N.eqb x y && startsWith n' h'
  | _ :: _, [] => false
  end.

Fixpoint strIncludes (hay needle : jsstring) : bool :=
  startsWith needle hay ||
  match hay with
  | [] => false
  | _ :: h' => strIncludes h' needle
  end.

(** ** Cell values

    What the modules observe of a value is whether it is [undefined] or
    [null], its truthiness and its image under [String].  Strings and
    integral numbers are spelled out; any other value (a fraction, a
    boolean, a date) is given by these two observations. *)
Inductive value : Type :=
  | VUndefined
  | VNull
  | VString (s : jsstring)
  | VInt (z : Z)
  | VOther (truthy : bool) (image : jsstring).

Definition isNullish (v : value) : bool :=
  match v with VUndefined | VNull => true | _ => false end.

Definition truthy (v : value) : bool :=
  match v with
  | VUndefined | VNull => false
  | VString s => negb (str_eqb s [])
  | VInt z => negb (Z.eqb z 0)
  | VOther t _ => t
  end.

Definition decimal (z : Z) : jsstring :=
  lit (NilZero.string_of_int (Z.to_int z)).

(** [String(v)] *)
Definition toString (v : value) : jsstring :=
  match v with
  | VUndefined => lit "undefined"
  | VNull => lit "null"
  | VString s => s
  | VInt z => decimal z
  | VOther _ image => image
  end.

(** ** Objects and Maps: entries in insertion order

    An [object] lists the own entries of a plain object, one made by [{}]:
    its prototype is [Object.prototype], so a name it has no entry for
    reads as the member of that name [Object.prototype] has, if any.  A
    [Map] is a list of entries too, read with [getKey] and written with
    [setProp]; it inherits nothing under its keys. *)
Definition object := list (jsstring * value).

Fixpoint setProp {V} (o : list (jsstring * V)) (k : jsstring) (v : V)
  : list (jsstring * V) :=
  match o with
  | [] => [(k, v)]
  | (k', v') :: o' =>
      if str_eqb k' k then (k', v) :: o' else (k', v') :: setProp o' k v
  end.

Definition getKey {V} (o : list (jsstring * V)) (k : jsstring) : option V :=
  option_map snd (List.find (fun kv => str_eqb (fst kv) k) o).

Definition hasKey {V} (o : list (jsstring * V)) (k : jsstring) : bool :=
  existsb (fun kv => str_eqb (fst kv) k) o.

(** The accessor of [Object.prototype]. *)
Definition PROTO : jsstring := lit "__proto__".

(** The functions [Object.prototype] holds, each with the name the
    function itself carries. *)
Definition prototypeFunctions : list (jsstring * jsstring) :=
  [ (lit "constructor", lit "Object");
    (lit "__defineGetter__", lit "__defineGetter__");
    (lit "__defineSetter__", lit "__defineSetter__");
    (lit "hasOwnProperty", lit "hasOwnProperty");
    (lit "__lookupGetter__", lit "__lookupGetter__");
    (lit "__lookupSetter__", lit "__lookupSetter__");
    (lit "isPrototypeOf", lit "isPrototypeOf");
    (lit "propertyIsEnumerable", lit "propertyIsEnumerable");
    (lit "toString", lit "toString");
    (lit "valueOf", lit "valueOf");
    (lit "toLocaleString", lit "toLocaleString") ].

(** [String(f)] of a built-in function [f], in the form V8 gives it (other
    engines set the white space differently). *)
Definition nativeText (fname : jsstring) : jsstring :=
  lit "function " ++ fname ++ lit "() { [native code] }".

(** What a plain object reads under a name it has no entry for: a
    function of [Object.prototype], [Object.prototype] itself under
    "__proto__", and [undefined] under any other name. *)
Definition inherited (k : jsstring) : value :=
  if str_eqb k PROTO then VOther true (lit "[object Object]")
  else match getKey prototypeFunctions k with
       | Some fname => VOther true (nativeText fname)
       | None => VUndefined
       end.

(** [o[k]] on a plain object. *)
Fixpoint getProp (o : object) (k : jsstring) : value :=
  match o with
  | [] => inherited k
  | (k', v) :: o' => if str_eqb k' k then v else getProp o' k
  end.

(** [o[k] = v] on a plain object.  Under "__proto__" the assignment goes
    to the setter [Object.prototype] has for that name: the object gets no
    entry.  (The setter ignores a primitive; given an object or [null] it
    replaces the prototype.  The cells of this program are strings,
    numbers and booleans, with dates and [null] as the exceptions; a row
    whose prototype a header named "__proto__" has replaced that way is
    read here as if it had kept [Object.prototype].) *)
Definition assign {V} (o : list (jsstring * V)) (k : jsstring) (v : V)
  : list (jsstring * V) :=
  if str_eqb k PROTO then o else setProp o k v.

(** [l.forEach((x, i) => ...)] / [l.map((x, i) => ...)] *)
Fixpoint foldi_from {A B} (i : nat) (f : B -> A -> nat -> B) (l : list A) (s : B)
  : B :=
  match l with
  | [] => s
  | x :: t => foldi_from (S i) f t (f s x i)
  end.

Definition foldi {A B} (f : B -> A -> nat -> B) (l : list A) (s : B) : B :=
  foldi_from 0 f l s.

Fixpoint mapi_from {A B} (i : nat) (f : A -> nat -> B) (l : list A) : list B :=
  match l with
  | [] => []
  | x :: t => f x i :: mapi_from (S i) f t
  end.

Definition mapi {A B} (f : A -> nat -> B) (l : list A) : list B := mapi_from 0 f l.

(** [l[i] = x] for an index inside the array. *)
Fixpoint setAt {A} (i : nat) (x : A) (l : list A) : list A :=
  match l, i with
  | [], _ => []
  | _ :: t, O => x :: t
  | y :: t, S i' => y :: setAt i' x t
  end.

(** ** [parseFloat]

    The decimal literal at the start of the text: an optional sign, digits,
    an optional fraction.  The exponent and [Infinity] forms need letters;
    the one caller strips every letter first, so they are left out.  [None]
    is [NaN]. *)
Definition isDigit (c : char) : bool := ((48 <=? c) && (c <=? 57))%N.

Fixpoint takeDigits (s : jsstring) : jsstring * jsstring :=
  match s with
  | c :: t =>
      if isDigit c then let (d, r) := takeDigits t in (c :: d, r) else ([], s)
  | [] => ([], [])
  end.

Definition digitsValue (ds : jsstring) : Z :=
  fold_left (fun acc c => (acc * 10 + (Z.of_N c - 48))%Z) ds 0%Z.

Definition parseUnsigned (s : jsstring) : option Q :=
  let (ip, r) := takeDigits s in
  let fp := match r with
            | 46%N :: r' => fst (takeDigits r')
            | _ => []
            end in
  match ip, fp with
  | [], [] => None
  | _, _ =>
      Some (inject_Z (digitsValue ip)
            + inject_Z (digitsValue fp) / inject_Z (10 ^ Z.of_nat (List.length fp)))%Q
  end.

Definition parseFloat (s : jsstring) : option Q :=
  match trimStart s with
  | 45%N :: r => option_map Qopp (parseUnsigned r)
  | 43%N :: r => parseUnsigned r
  | r => parseUnsigned r
  end.

End JS.

(* ================================================================== *)
(** * js/arabicNormalizer.js *)
(* ================================================================== *)

Module ArabicNormalizer.
Import JS.

(** [mappings]: each table is the list of its entries, in source order. *)
Definition ALEF : char := 1575%N.  (* U+0627 *)
Definition YAA  : char := 1610%N.  (* U+064A *)
Definition HAA  : char := 1607%N.  (* U+0647 *)
Definition WAW  : char := 1608%N.  (* U+0648 *)

Definition mappings_alef : list (char * char) :=
  [ (1571, ALEF); (1573, ALEF); (1570, ALEF);
    (1649, ALEF); (1650, ALEF); (1651, ALEF) ]%N.
Definition mappings_yaa : list (char * char) := [ (1609, YAA); (1574, YAA) ]%N.
Definition mappings_taa : list (char * char) := [ (1577, HAA) ]%N.
Definition mappings_waw : list (char * char) := [ (1572, WAW) ]%N.
Definition mappings_remove : list char :=
  [ 1569; 1611; 1612; 1613; 1614; 1615; 1616; 1617; 1618; 1600 ]%N.

(** One [for (const [from, to] of Object.entries(table))] loop. *)
Definition applyMapping (table : list (char * char)) (s : jsstring) : jsstring :=
  fold_left (fun acc ft => replaceChar (fst ft) (snd ft) acc) table s.

Definition applyRemove (table : list char) (s : jsstring) : jsstring :=
  fold_left (fun acc c => removeChar c acc) table s.

(** The letter passes of [normalize], before white space is handled. *)
Definition normalizeLetters (text : jsstring) : jsstring :=
  applyRemove mappings_remove
    (applyMapping mappings_waw
      (applyMapping mappings_taa
        (applyMapping mappings_yaa
          (applyMapping mappings_alef text)))).

(** [normalize(text)] on a string; the empty string is falsy and is
    answered at the guard. *)
Definition normalize (text : jsstring) : jsstring :=
  match text with
  | [] => []
  | _ => trim (collapseSpaces (normalizeLetters text))
  end.

(** The punctuation class of [clean]: . , : ; ! ? ( ) [ ] { } ' and the
    double quote, the Arabic comma U+060C and semicolon U+061B, and the
    guillemets U+00AB, U+00BB. *)
Definition isPunctuation (c : char) : bool :=
  existsb (N.eqb c)
    [46; 44; 1548; 1563; 58; 59; 33; 63; 40; 41; 91; 93; 123; 125; 39; 34;
     171; 187]%N.

(** [clean(text)] *)
Definition clean (text : jsstring) : jsstring :=
  match text with
  | [] => []
  | _ =>
      let lowered := toLowerCase (trim (collapseSpaces text)) in
      let stripped := List.filter (fun c => negb (isPunctuation c)) lowered in
      join SP (List.map normalize (splitOn SP [] stripped))
  end.

(** [isArabic(text)]: some code unit lies in U+0600-06FF, U+0750-077F or
    U+08A0-08FF. *)
Definition isArabicChar (c : char) : bool :=
  ((1536 <=? c) && (c <=? 1791) || (1872 <=? c) && (c <=? 1919)
   || (2208 <=? c) && (c <=? 2303))%N.

Definition isArabic (text : jsstring) : bool := existsb isArabicChar text.

(** [removeCommonPrefixes(text)]: the prefixes are tried in order, and the
    first one the text starts with and outgrows by more than two code units
    is cut off. *)
Definition prefixes : list jsstring :=
  [ [1575; 1604]; [1608; 1575; 1604]; [1576; 1575; 1604]; [1604; 1604];
    [1601; 1575; 1604]; [1603; 1575; 1604] ]%N.

Fixpoint stripFirst (ps : list jsstring) (text : jsstring) : jsstring :=
  match ps with
  | [] => text
  | prefix :: rest =>
      if startsWith prefix text
         && Nat.ltb (List.length prefix + 2) (List.length text)
      then skipn (List.length prefix) text
      else stripFirst rest text
  end.

Definition removeCommonPrefixes (text : jsstring) : jsstring :=
  stripFirst prefixes text.

(** [extractWords(text)] *)
Definition extractWords (text : jsstring) : list jsstring :=
  match text with
  | [] => []
  | _ => List.filter (fun word => negb (str_eqb word []))
                     (splitOn SP [] (clean text))
  end.

(** [getPhonetic(text)]: the entries of [phoneticGroups], in source order. *)
Definition phoneticGroups : list (char * char) :=
  [ (1578, 1591); (1579, 1587); (1584, 1586); (1592, 1590); (1589, 1587);
    (1602, 1603) ]%N.

Definition getPhonetic (text : jsstring) : jsstring :=
  applyMapping phoneticGroups (normalize text).

End ArabicNormalizer.

(* ================================================================== *)
(** * The matcher module *)
(* ================================================================== *)

Module Matcher.
Import JS.
Local Open Scope Q_scope.

Record Config : Type := mkConfig {
  exactThreshold : Q;
  highSimilarityThreshold : Q;
  similarThreshold : Q;
  weakMatchThreshold : Q;
  numericTolerance : Q;
  useArabicNormalization : bool
}.

Definition config : Config :=
  {| exactThreshold := 1;
     highSimilarityThreshold := 9 # 10;
     similarThreshold := 75 # 100;
     weakMatchThreshold := 6 # 10;
     numericTolerance := 1 # 100;
     useArabicNormalization := true |}.

(** [setConfig({ similarThreshold: t })], the one update the program makes. *)
Definition setSimilarThreshold (cfg : Config) (t : Q) : Config :=
  {| exactThreshold := exactThreshold cfg;
     highSimilarityThreshold := highSimilarityThreshold cfg;
     similarThreshold := t;
     weakMatchThreshold := weakMatchThreshold cfg;
     numericTolerance := numericTolerance cfg;
     useArabicNormalization := useArabicNormalization cfg |}.

(** The strings of [type] and [algorithm]. *)
Inductive MatchType : Type :=
  | Exact | Normalized | FuzzyHigh | Fuzzy | FuzzyWeak
  | Numeric | NumericTolerance | Missing | NoMatch.

Inductive Algorithm : Type := Levenshtein | JaroWinkler | TokenSet.

Record MatchResult : Type := mkResult {
  score : R;
  type : MatchType;
  matched : bool;
  algorithm : option Algorithm;
  details : list (Algorithm * Q);
  difference : option Q
}.

Definition result (s : R) (t : MatchType) (m : bool) : MatchResult :=
  mkResult s t m None [] None.

Definition ofNat (n : nat) : Q := inject_Z (Z.of_nat n).

(** ** Levenshtein

    The matrix is built row by row; row [i] belongs to [b.charAt(i - 1)].
    [fillRow] receives the previous row from column [j - 1] on and the cell
    to the left, and returns the cells of the current row from column [j]
    on. *)
Fixpoint fillRow (bc : char) (a : jsstring) (prev : list nat) (left : nat)
  : list nat :=
  match a, prev with
  | ac :: a', diag :: ((up :: _) as prev') =>
      let cell :=
        if N.eqb bc ac then diag
        else Nat.min (diag + 1) (Nat.min (left + 1) (up + 1)) in
      cell :: fillRow bc a' prev' cell
  | _, _ => []
  end.

Fixpoint fillMatrix (b a : jsstring) (prev : list nat) (i : nat) : list nat :=
  match b with
  | [] => prev
  | bc :: b' => fillMatrix b' a (i :: fillRow bc a prev i) (S i)
  end.

(** [matrix[lenB][lenA]] *)
Definition levenshteinDistance (a b : jsstring) : nat :=
  last (fillMatrix b a (seq 0 (S (List.length a))) 1) 0%nat.

Definition levenshteinSimilarity (a b : jsstring) : Q :=
  if str_eqb a b then 1
  else if str_eqb a [] || str_eqb b [] then 0
  else
    let distance := levenshteinDistance a b in
    let maxLen := Nat.max (List.length a) (List.length b) in
    if Nat.eqb maxLen 0%nat then 1 else 1 - ofNat distance / ofNat maxLen.

(** ** Jaro and Jaro-Winkler *)

(** The inner loop of the matching pass: the first [j] in [start, end) with
    [b[j]] free and equal to [c] is taken; [Some] carries the updated
    [bMatches]. *)
Fixpoint takeMatch (c : char) (b : jsstring) (bMatches : list bool)
    (j start end_ : Z) : option (list bool) :=
  match b, bMatches with
  | bc :: b', m :: bm' =>
      if ((start <=? j) && (j <? end_))%Z && negb m && N.eqb c bc
      then Some (true :: bm')
      else option_map (cons m) (takeMatch c b' bm' (j + 1) start end_)
  | _, _ => None
  end.

(** The matching pass over [a] from index [i]; returns [aMatches] for the
    rest of [a] and the final [bMatches]. *)
Fixpoint findMatches (a : jsstring) (i : Z) (b : jsstring) (bMatches : list bool)
    (matchWindow lenB : Z) : list bool * list bool :=
  match a with
  | [] => ([], bMatches)
  | c :: a' =>
      let start := Z.max 0 (i - matchWindow) in
      let end_ := Z.min (i + matchWindow + 1) lenB in
      match takeMatch c b bMatches 0 start end_ with
      | Some bm' =>
          let (am, bmf) := findMatches a' (i + 1) b bm' matchWindow lenB in
          (true :: am, bmf)
      | None =>
          let (am, bmf) := findMatches a' (i + 1) b bMatches matchWindow lenB in
          (false :: am, bmf)
      end
  end.

(** [while (!bMatches[k]) k++] on the rest of [b] paired with its flags. *)
Fixpoint skipFree (bz : list (char * bool)) : list (char * bool) :=
  match bz with
  | (_, false) :: t => skipFree t
  | _ => bz
  end.

(** The transposition pass.  Both strings carry as many matched positions,
    so [b] cannot run out before [a] does. *)
Fixpoint countTranspositions (az bz : list (char * bool)) : nat :=
  match az with
  | [] => 0
  | (_, false) :: az' => countTranspositions az' bz
  | (ac, true) :: az' =>
      match skipFree bz with
      | (bc, _) :: bz' =>
          (if N.eqb ac bc then 0 else 1) + countTranspositions az' bz'
      | [] => 0
      end
  end.

Definition jaro (a b : jsstring) : Q :=
  if str_eqb a b then 1
  else
    let lenA := List.length a in
    let lenB := List.length b in
    let matchWindow := (Z.of_nat (Nat.max lenA lenB) / 2 - 1)%Z in
    let (aMatches, bMatches) :=
      findMatches a 0 b (repeat false lenB) matchWindow (Z.of_nat lenB) in
    let matches := count_occ bool_dec aMatches true in
    if Nat.eqb matches 0%nat then 0
    else
      let transpositions :=
        countTranspositions (combine a aMatches) (combine b bMatches) in
      (ofNat matches / ofNat lenA + ofNat matches / ofNat lenB
       + (ofNat matches - ofNat transpositions / 2) / ofNat matches) / 3.

(** The common prefix, at most [n] code units long. *)
Fixpoint commonPrefix (n : nat) (a b : jsstring) : nat :=
  match n, a, b with
  | S n', x :: a', y :: b' =>
      if N.eqb x y then S (commonPrefix n' a' b') else 0
  | _, _, _ => 0
  end.

Definition jaroWinkler (a b : jsstring) : Q :=
  if str_eqb a b then 1
  else if str_eqb a [] || str_eqb b [] then 0
  else
    let jaroScore := jaro a b in
    let prefix := commonPrefix 4 a b in
    jaroScore + ofNat prefix * (1 # 10) * (1 - jaroScore).

(** ** Token set ratio *)

Definition tokens (s : jsstring) : list jsstring :=
  newSet (List.filter (fun t => negb (str_eqb t [])) (splitSpaces (toLowerCase s))).

(** The best Levenshtein similarity of [tokenA] among [unmatchedB]. *)
Definition bestMatch (tokenA : jsstring) (unmatchedB : list jsstring) : Q :=
  fold_left (fun best tokenB => Qmax best (levenshteinSimilarity tokenA tokenB))
            unmatchedB 0.

Definition tokenSetRatio (a b : jsstring) : Q :=
  if str_eqb a b then 1
  else if str_eqb a [] || str_eqb b [] then 0
  else
    let tokensA := tokens a in
    let tokensB := tokens b in
    let sizeA := List.length tokensA in
    let sizeB := List.length tokensB in
    if Nat.eqb sizeA 0%nat && Nat.eqb sizeB 0%nat then 1
    else if Nat.eqb sizeA 0%nat || Nat.eqb sizeB 0%nat then 0
    else
      let intersection := List.filter (fun t => includes t tokensB) tokensA in
      let union := newSet (tokensA ++ tokensB) in
      let isize := ofNat (List.length intersection) in
      let jaccardScore := isize / ofNat (List.length union) in
      let subsetScore := isize / ofNat (Nat.min sizeA sizeB) in
      let unmatchedA := List.filter (fun t => negb (includes t tokensB)) tokensA in
      let unmatchedB := List.filter (fun t => negb (includes t tokensA)) tokensB in
      let total :=
        fold_left (fun acc tokenA => acc + bestMatch tokenA unmatchedB)
                  unmatchedA 0 in
      let partialMatchScore :=
        if Nat.ltb 0%nat (List.length unmatchedA)
        then total / ofNat (List.length unmatchedA) * (1 # 2)
        else 0 in
      Qmax (Qmax jaccardScore (subsetScore * (95 # 100)))
           ((isize / ofNat sizeA + isize / ofNat sizeB) / 2
            + partialMatchScore * (3 # 10)).

(** ** Numeric match *)

(** [x >= t] for a score and a threshold of the configuration. *)
Definition atLeast (x : R) (t : Q) : bool :=
  if Rle_dec (Q2R t) x then true else false.

Definition numericMatch (cfg : Config) (a b : Q) : MatchResult :=
  if Qeq_bool a b then result 1%R Exact true
  else
    let diff := Qabs (a - b) in
    let avg := (Qabs a + Qabs b) / 2 in
    if Qeq_bool avg 0
    then result (if Qeq_bool diff 0 then 1%R else 0%R) Numeric (Qeq_bool diff 0)
    else
      let percentDiff := diff / avg in
      if Qle_bool percentDiff (numericTolerance cfg)
      then mkResult (Q2R (1 - percentDiff)) NumericTolerance true
                    None [] (Some diff)
      else
        let score := exp (- Q2R percentDiff * 5) in
        mkResult score Numeric (atLeast score (weakMatchThreshold cfg))
                 None [] (Some diff).

(** ** smartMatch *)

(** [s.replace(/[^\d.-]/g, '')] *)
Definition keepNumeric (s : jsstring) : jsstring :=
  List.filter (fun c => isDigit c || N.eqb c 46 || N.eqb c 45) s.

Definition fuzzyScores (cleanA cleanB : jsstring) : list (Algorithm * Q) :=
  [ (Levenshtein, levenshteinSimilarity cleanA cleanB);
    (JaroWinkler, jaroWinkler cleanA cleanB);
    (TokenSet, tokenSetRatio cleanA cleanB) ].

(** [scores.reduce((best, current) => current.score > best.score ? current
    : best)]: without an initial value the first entry starts as [best]. *)
Definition bestOf (scores : list (Algorithm * Q)) : Algorithm * Q :=
  match scores with
  | [] => (Levenshtein, 0)
  | first :: rest =>
      fold_left (fun best current =>
                   if Qle_bool (snd current) (snd best) then best else current)
                rest first
  end.

Definition fuzzyBest (cleanA cleanB : jsstring) : Algorithm * Q :=
  bestOf (fuzzyScores cleanA cleanB).

(** The part of [smartMatch] from "Fuzzy matching" on. *)
Definition fuzzyMatch (cfg : Config) (cleanA cleanB : jsstring) : MatchResult :=
  let best := fuzzyBest cleanA cleanB in
  let s := snd best in
  let ty :=
    if Qle_bool (highSimilarityThreshold cfg) s then FuzzyHigh
    else if Qle_bool (similarThreshold cfg) s then Fuzzy
    else if Qle_bool (weakMatchThreshold cfg) s then FuzzyWeak
    else NoMatch in
  mkResult (Q2R s) ty (Qle_bool (weakMatchThreshold cfg) s
                       || Qle_bool (similarThreshold cfg) s
                       || Qle_bool (highSimilarityThreshold cfg) s)
           (Some (fst best)) (fuzzyScores cleanA cleanB) None.

(** The part of [smartMatch] from "Normalize for comparison" on. *)
Definition textMatch (cfg : Config) (strA strB : jsstring) : MatchResult :=
  if useArabicNormalization cfg
     && (ArabicNormalizer.isArabic strA || ArabicNormalizer.isArabic strB)
  then
    let cleanA := ArabicNormalizer.clean strA in
    let cleanB := ArabicNormalizer.clean strB in
    if str_eqb cleanA cleanB then result (Q2R (98 # 100)) Normalized true
    else fuzzyMatch cfg cleanA cleanB
  else fuzzyMatch cfg (toLowerCase strA) (toLowerCase strB).

Definition smartMatch (cfg : Config) (valueA valueB : value) : MatchResult :=
  if isNullish valueA && isNullish valueB then result 1%R Exact true
  else if isNullish valueA || isNullish valueB then result 0%R Missing false
  else
    let strA := trim (toString valueA) in
    let strB := trim (toString valueB) in
    if str_eqb strA [] && str_eqb strB [] then result 1%R Exact true
    else if str_eqb strA [] || str_eqb strB [] then result 0%R Missing false
    else if str_eqb strA strB then result 1%R Exact true
    else if str_eqb (toLowerCase strA) (toLowerCase strB)
    then result (Q2R (99 # 100)) Exact true
    else
      match parseFloat (keepNumeric strA), parseFloat (keepNumeric strB) with
      | Some numA, Some numB =>
          let numResult := numericMatch cfg numA numB in
          if atLeast (score numResult) (similarThreshold cfg) then numResult
          else textMatch cfg strA strB
      | _, _ => textMatch cfg strA strB
      end.

(** ** getMatchType and multiColumnMatch *)

Definition getMatchType (cfg : Config) (s : R) : MatchType :=
  if atLeast s (exactThreshold cfg) then Exact
  else if atLeast s (highSimilarityThreshold cfg) then FuzzyHigh
  else if atLeast s (similarThreshold cfg) then Fuzzy
  else if atLeast s (weakMatchThreshold cfg) then FuzzyWeak
  else NoMatch.

Record MultiResult : Type := mkMulti {
  mscore : R;                     (* [score] *)
  mmatched : bool;                (* [matched] *)
  mtype : MatchType;              (* [type] *)
  columnResults : list (jsstring * MatchResult)
}.

(** [weights[column] || 1] on the plain object [weights]: a weight of 0
    counts as 1, and so does a missing one, unless the column is named like
    a member of [Object.prototype]; the weight is then that member, which
    is not a number: [None]. *)
Definition weightOf (weights : list (jsstring * Q)) (column : jsstring)
  : option Q :=
  match getKey weights column with
  | Some w => Some (if Qeq_bool w 0 then 1 else w)
  | None =>
      match inherited column with
      | VUndefined => Some 1
      | _ => None
      end
  end.

(** What the loop of [multiColumnMatch] carries.  Once a weight that is
    not a number has been added, [totalWeight] is a text that reads as no
    number ([None]) and [weightedScore] is NaN. *)
Record Weighted : Type := mkWeighted {
  totalWeight : option Q;
  weightedScore : R;
  perColumn : list (jsstring * MatchResult)
}.

Definition weighColumn (cfg : Config) (rowA rowB : object)
    (weights : list (jsstring * Q)) (w : Weighted) (column : jsstring)
  : Weighted :=
  let weight := weightOf weights column in
  let r := smartMatch cfg (getProp rowA column) (getProp rowB column) in
  mkWeighted (match totalWeight w, weight with
              | Some t, Some x => Some (t + x)
              | _, _ => None
              end)
             (match weight with
              | Some x => (weightedScore w + score r * Q2R x)%R
              | None => weightedScore w
              end)
             (assign (perColumn w) column r).

(** [totalWeight > 0] is false of a text that reads as no number. *)
Definition multiColumnMatch (cfg : Config) (rowA rowB : object)
    (columns : list jsstring) (weights : list (jsstring * Q)) : MultiResult :=
  let w := fold_left (weighColumn cfg rowA rowB weights) columns
                     (mkWeighted (Some 0) 0%R []) in
  let finalScore :=
    match totalWeight w with
    | Some t => if Qle_bool t 0 then 0%R else (weightedScore w / Q2R t)%R
    | None => 0%R
    end in
  mkMulti finalScore (atLeast finalScore (similarThreshold cfg))
          (getMatchType cfg finalScore) (perColumn w).

End Matcher.

(* ================================================================== *)
(** * Data shared by the modules *)
(* ================================================================== *)

Module Model.
Import JS.

(** A header object [{ index, name, originalName }]. *)
Record Header : Type := mkHeader {
  index : nat;
  name : jsstring;
  originalName : value
}.

End Model.

(* ================================================================== *)
(** * js/keyDetector.js *)
(* ================================================================== *)

Module KeyDetector.
Import JS.
Export Model.

(** The keys of [patterns]. *)
Inductive ColumnType : Type := TId | TName | TPhone | TEmail | TNationalId.

(** Keywords that are not ASCII are given by their code units. *)
Definition keywords_id : list jsstring :=
  [ lit "id"; lit "ID"; [1585; 1602; 1605]%N; [1603; 1608; 1583]%N;
    [1578; 1593; 1585; 1610; 1601; 1610]%N; [1605; 1593; 1585; 1601]%N;
    lit "code"; lit "Code"; lit "employeeid"; lit "employee_id";
    [1585; 1602; 1605; 95; 1575; 1604; 1605; 1608; 1592; 1601]%N;
    [1585; 1602; 1605; 32; 1575; 1604; 1605; 1608; 1592; 1601]%N;
    lit "userid"; lit "user_id";
    [1585; 1602; 1605; 32; 1575; 1604; 1605; 1587; 1578; 1582; 1583; 1605]%N;
    lit "serial"; [1587; 1610; 1585; 1610; 1575; 1604]%N;
    [1585; 1602; 1605; 95; 1578; 1593; 1585; 1610; 1601; 1610]%N;
    [1575; 1604; 1585; 1602; 1605]%N; lit "index"; lit "no"; lit "num";
    lit "number"; lit "#"; [1605; 1587; 1604; 1587; 1604]%N;
    [1585; 1602; 1605; 95; 1605; 1587; 1604; 1587; 1604]%N;
    [1575; 1604; 1603; 1608; 1583]%N; lit "ref"; lit "reference";
    [1605; 1585; 1580; 1593]%N ].

Definition keywords_name : list jsstring :=
  [ lit "name"; lit "Name"; [1575; 1587; 1605]%N;
    [1575; 1604; 1575; 1587; 1605]%N; lit "employee";
    [1605; 1608; 1592; 1601]%N;
    [1575; 1587; 1605; 95; 1575; 1604; 1605; 1608; 1592; 1601]%N;
    lit "fullname"; lit "full_name";
    [1575; 1604; 1575; 1587; 1605; 95; 1575; 1604; 1603; 1575; 1605; 1604]%N;
    lit "first_name"; lit "last_name";
    [1575; 1604; 1575; 1587; 1605; 32; 1575; 1604; 1575; 1608; 1604]%N;
    [1575; 1604; 1575; 1587; 1605; 32; 1575; 1604; 1571; 1608; 1604]%N;
    [1575; 1587; 1605; 32; 1575; 1604; 1593; 1575; 1574; 1604; 1577]%N;
    lit "username";
    [1575; 1587; 1605; 32; 1575; 1604; 1605; 1587; 1578; 1582; 1583; 1605]%N;
    lit "person"; [1588; 1582; 1589]%N; [1593; 1575; 1605; 1604]%N;
    [1605; 1587; 1578; 1582; 1583; 1605]%N;
    [1575; 1604; 1605; 1608; 1592; 1601]%N ].

Definition keywords_phone : list jsstring :=
  [ lit "phone"; lit "Phone"; [1607; 1575; 1578; 1601]%N;
    [1580; 1608; 1575; 1604]%N; [1578; 1604; 1610; 1601; 1608; 1606]%N;
    [1605; 1608; 1576; 1575; 1610; 1604]%N; lit "mobile"; lit "Mobile";
    lit "telephone"; lit "tel";
    [1585; 1602; 1605; 95; 1575; 1604; 1607; 1575; 1578; 1601]%N;
    [1585; 1602; 1605; 32; 1575; 1604; 1607; 1575; 1578; 1601]%N;
    [1585; 1602; 1605; 32; 1575; 1604; 1580; 1608; 1575; 1604]%N;
    [1575; 1604; 1605; 1608; 1576; 1575; 1610; 1604]%N; lit "cell";
    lit "contact"; [1575; 1578; 1589; 1575; 1604]%N ].

Definition keywords_email : list jsstring :=
  [ lit "email"; lit "Email"; [1576; 1585; 1610; 1583]%N;
    [1573; 1610; 1605; 1610; 1604]%N; [1575; 1610; 1605; 1610; 1604]%N;
    lit "mail"; lit "Mail"; [1575; 1604; 1576; 1585; 1610; 1583]%N;
    [1575; 1604; 1576; 1585; 1610; 1583; 32; 1575; 1604; 1573; 1604; 1603; 1578; 1585; 1608; 1606; 1610]%N;
    [1575; 1604; 1576; 1585; 1610; 1583; 95; 1575; 1604; 1575; 1604; 1603; 1578; 1585; 1608; 1606; 1610]%N;
    lit "e-mail"; lit "contact_email";
    [1576; 1585; 1610; 1583; 95; 1575; 1604; 1603; 1578; 1585; 1608; 1606; 1610]%N ].

Definition keywords_nationalId : list jsstring :=
  [ lit "national";
    [1585; 1602; 1605; 95; 1575; 1604; 1607; 1608; 1610; 1577]%N;
    [1607; 1608; 1610; 1577]%N; [1575; 1604; 1607; 1608; 1610; 1577]%N;
    [1585; 1602; 1605; 32; 1575; 1604; 1607; 1608; 1610; 1577]%N; lit "ssn";
    lit "national_id"; [1585; 1602; 1605; 95; 1602; 1608; 1605; 1610]%N;
    [1575; 1604; 1585; 1602; 1605; 32; 1575; 1604; 1602; 1608; 1605; 1610]%N;
    lit "identity"; lit "passport"; [1580; 1608; 1575; 1586]%N;
    [1580; 1608; 1575; 1586; 95; 1575; 1604; 1587; 1601; 1585]%N;
    [1573; 1602; 1575; 1605; 1577]%N; [1575; 1602; 1575; 1605; 1577]%N ].

Record Pattern : Type := mkPattern {
  keywords : list jsstring;
  priority : nat
}.

(** [patterns], in the order of [Object.entries]. *)
Definition patterns : list (ColumnType * Pattern) :=
  [ (TId, mkPattern keywords_id 1);
    (TName, mkPattern keywords_name 2);
    (TPhone, mkPattern keywords_phone 3);
    (TEmail, mkPattern keywords_email 4);
    (TNationalId, mkPattern keywords_nationalId 2) ].

(** The reason texts, by what they report. *)
Inductive Reason : Type :=
  | ContainsKeyword (keyword : jsstring)
  | HighlyUnique
  | NumericIds
  | EmailAddresses
  | PhoneNumbers
  | PersonNames.

Record DataAnalysis : Type := mkData {
  dscore : nat;
  dreasons : list Reason;
  detectedType : option ColumnType
}.

Record ScoreItem : Type := mkItem {
  header : Header;
  score : nat;
  type : option ColumnType;
  confidence : Q;
  reasons : list Reason
}.

(** ** The tests of [analyzeColumnData] *)

(** [/^\d+$/] *)
Definition allDigits (s : jsstring) : bool :=
  negb (str_eqb s []) && forallb isDigit s.

Definition AT : char := 64%N.
Definition DOT : char := 46%N.

Definition plainChar (c : char) : bool := negb (isSpace c) && negb (N.eqb c AT).

(** [[^\s@]+\.[^\s@]+$]: a dot with a non-empty plain text on either
    side. *)
Fixpoint dotInside (seen : bool) (s : jsstring) : bool :=
  match s with
  | [] => false
  | c :: t =>
      (seen && N.eqb c DOT && negb (str_eqb t []) && forallb plainChar t)
      || (plainChar c && dotInside true t)
  end.

(** [/^[^\s@]+@[^\s@]+\.[^\s@]+$/] *)
Fixpoint emailFrom (seen : bool) (s : jsstring) : bool :=
  match s with
  | [] => false
  | c :: t =>
      if N.eqb c AT then seen && dotInside false t
      else plainChar c && emailFrom true t
  end.

Definition emailPattern (s : jsstring) : bool := emailFrom false s.

(** [[-\s\./0-9]] *)
Definition phoneTail (c : char) : bool :=
  N.eqb c 45 || isSpace c || N.eqb c DOT || N.eqb c 47 || isDigit c.

Definition optional (c : char) (s : jsstring) : jsstring :=
  match s with
  | x :: t => if N.eqb x c then t else s
  | [] => s
  end.

(** [/^[\+]?[(]?[0-9]{1,4}[)]?[-\s\./0-9]*$/]: after the optional plus
    and parenthesis, some [k] of one to four digits, an optional closing
    parenthesis and a tail of separators and digits. *)
Definition phonePattern (s : jsstring) : bool :=
  let s := optional 40%N (optional 43%N s) in
  existsb (fun k =>
             Nat.leb k (List.length s)
             && forallb isDigit (firstn k s)
             && forallb phoneTail (optional 41%N (skipn k s)))
          [1; 2; 3; 4]%nat.

Definition looksLikePhone (v : value) : bool :=
  let str := List.filter (fun c => negb (isSpace c)) (toString v) in
  phonePattern str
  && Nat.leb 8 (List.length str) && Nat.leb (List.length str) 15.

(** [/^[\u0600-\u06FFa-zA-Z\s]+$/] *)
Definition nameChar (c : char) : bool :=
  ((1536 <=? c) && (c <=? 1791) || (97 <=? c) && (c <=? 122)
   || (65 <=? c) && (c <=? 90))%N || isSpace c.

Definition looksLikeName (v : value) : bool :=
  let str := trim (toString v) in
  let words := splitSpaces str in
  Nat.leb 2 (List.length words) && Nat.leb (List.length words) 5
  && negb (str_eqb str []) && forallb nameChar str.

Definition ratio (k n : nat) : Q :=
  (inject_Z (Z.of_nat k) / inject_Z (Z.of_nat n))%Q.

(** [x > y] *)
Definition Qgtb (x y : Q) : bool := negb (Qle_bool x y).

Definition countIf {A} (f : A -> bool) (l : list A) : nat :=
  List.length (List.filter f l).

(** ** analyzeColumnData *)
Definition analyzeColumnData (values : list value) : DataAnalysis :=
  let result := mkData 0 [] None in
  if Nat.eqb (List.length values) 0 then result
  else
    let nonEmpty :=
      List.filter (fun v => negb (isNullish v)
                            && negb (str_eqb (trim (toString v)) [])) values in
    let n := List.length nonEmpty in
    if Nat.eqb n 0 then result
    else
      let uniqueCount :=
        List.length (newSet (List.map (fun v => toLowerCase (toString v)) nonEmpty)) in
      let result :=
        if Qgtb (ratio uniqueCount n) (95 # 100)%Q
        then mkData (dscore result + 5) (dreasons result ++ [HighlyUnique])
                    (detectedType result)
        else result in
      let numericCount := countIf (fun v => allDigits (trim (toString v))) nonEmpty in
      let result :=
        if Qgtb (ratio numericCount n) (9 # 10)%Q
        then mkData (dscore result + 3) (dreasons result ++ [NumericIds]) (Some TId)
        else result in
      let emailCount := countIf (fun v => emailPattern (toString v)) nonEmpty in
      let result :=
        if Qgtb (ratio emailCount n) (1 # 2)%Q
        then mkData (dscore result + 4) (dreasons result ++ [EmailAddresses])
                    (Some TEmail)
        else result in
      let phoneCount := countIf looksLikePhone nonEmpty in
      let result :=
        if Qgtb (ratio phoneCount n) (1 # 2)%Q
        then mkData (dscore result + 3) (dreasons result ++ [PhoneNumbers])
                    (Some TPhone)
        else result in
      let nameCount := countIf looksLikeName nonEmpty in
      if Qgtb (ratio nameCount n) (1 # 2)%Q
      then mkData (dscore result + 2) (dreasons result ++ [PersonNames])
                  (match detectedType result with
                   | Some t => Some t
                   | None => Some TName
                   end)
      else result.

(** ** detectKeyColumn *)

(** The inner [for (const keyword of pattern.keywords)] with its [break]. *)
Definition firstKeyword (headerName : jsstring) (kws : list jsstring)
  : option jsstring :=
  List.find (fun keyword => strIncludes headerName (toLowerCase keyword)) kws.

(** One turn of the loop over [patterns]. *)
Definition checkPattern (headerName : jsstring) (item : ScoreItem)
    (entry : ColumnType * Pattern) : ScoreItem :=
  let (ty, pattern) := entry in
  match firstKeyword headerName (keywords pattern) with
  | Some keyword =>
      mkItem (header item) (score item + (10 - priority pattern) * 2) (Some ty)
             (confidence item) (reasons item ++ [ContainsKeyword keyword])
  | None => item
  end.

(** The body of [scores.forEach]. *)
Definition analyzeHeader (rows : list object) (h : Header) : ScoreItem :=
  let item := mkItem h 0 None 0%Q [] in
  let headerName := toLowerCase (name h) in
  let item := fold_left (checkPattern headerName) patterns item in
  if Nat.ltb 0 (List.length rows)
  then
    let columnValues := List.map (fun row => getProp row (name h)) rows in
    let dataAnalysis := analyzeColumnData columnValues in
    mkItem (header item) (score item + dscore dataAnalysis)
           (match type item with
            | Some t => Some t
            | None => detectedType dataAnalysis
            end)
           (confidence item) (reasons item ++ dreasons dataAnalysis)
  else item.

(** [scores.sort((a, b) => b.score - a.score)]: a stable sort, highest
    score first. *)
Fixpoint insertByScore (x : ScoreItem) (l : list ScoreItem) : list ScoreItem :=
  match l with
  | [] => [x]
  | y :: t => if Nat.ltb (score x) (score y) then y :: insertByScore x t
              else x :: l
  end.

Definition sortByScore (l : list ScoreItem) : list ScoreItem :=
  fold_right insertByScore [] l.

Record Detection : Type := mkDetection {
  suggested : option ScoreItem;
  allScores : list ScoreItem;
  hasConfidentMatch : bool
}.

Definition detectKeyColumn (headers : list Header) (rows : list object)
  : Detection :=
  let scores := sortByScore (List.map (analyzeHeader rows) headers) in
  let scores :=
    match scores with
    | top :: rest =>
        if Nat.ltb 0 (score top)
        then mkItem (header top) (score top) (type top)
                    (Qmin (ratio (score top) 20) 1%Q) (reasons top) :: rest
        else scores
    | [] => scores
    end in
  mkDetection
    (match scores with
     | top :: _ => if Nat.ltb 0 (score top) then Some top else None
     | [] => None
     end)
    scores
    (match scores with
     | top :: _ => Nat.leb 10 (score top)
     | [] => false
     end).

(** [getAllPotentialKeys(headers, rows)] *)
Definition getAllPotentialKeys (headers : list Header) (rows : list object)
  : list ScoreItem :=
  List.filter (fun s => Nat.ltb 0 (score s))
              (allScores (detectKeyColumn headers rows)).

End KeyDetector.

(* ================================================================== *)
(** * The file parser module *)
(* ================================================================== *)

Module FileParser.
Import JS.
Export Model.

Record Sheet : Type := mkSheet {
  sheetName : jsstring;           (* [name] *)
  headers : list Header;
  rows : list object;
  rowCount : nat;
  columnCount : nat
}.

Record ParsedFile : Type := mkFile {
  fileName : jsstring;
  sheets : list Sheet;
  sheetCount : nat;
  totalRows : nat
}.

(** A workbook as the extraction reads it: the sheet names in order, each
    with what [XLSX.utils.sheet_to_json(worksheet, { header: 1, defval: '',
    blankrows: false })] gives for it, a list of rows of cells. *)
Definition Workbook := list (jsstring * list (list value)).

Definition makeHeader (h : value) (i : nat) : Header :=
  let shown :=
    if truthy h then toString h
    else lit "Column " ++ decimal (Z.of_nat (i + 1)) in
  mkHeader i (trim shown) h.

Definition ROW_INDEX : jsstring := lit "_rowIndex".

Definition makeRow (hs : list Header) (row : list value) (rowIndex : nat)
  : object :=
  let rowData :=
    fold_left
      (fun rowData header =>
         assign rowData (name header)
           (match nth_error row (index header) with
            | Some VUndefined | None => VString []
            | Some cell => cell
            end))
      hs [] in
  assign rowData ROW_INDEX (VInt (Z.of_nat rowIndex)).

(** One turn of [for (const sheetName of workbook.SheetNames)]. *)
Definition extractSheet (acc : list Sheet) (entry : jsstring * list (list value))
  : list Sheet :=
  let (sheetName, jsonData) := entry in
  match jsonData with
  | [] => acc                                   (* [continue] *)
  | first :: rest =>
      let hs := mapi makeHeader first in
      let rs := mapi (makeRow hs) rest in
      acc ++ [mkSheet sheetName hs rs (List.length rs) (List.length hs)]
  end.

Definition extractWorkbookData (workbook : Workbook) (fileName : jsstring)
  : ParsedFile :=
  let sheets := fold_left extractSheet workbook [] in
  mkFile fileName sheets (List.length sheets)
         (fold_left (fun sum s => sum + rowCount s) sheets 0).

(** ** prepareForComparison *)

Record ComparisonSheet : Type := mkComparisonSheet {
  cid : jsstring;                 (* [id] *)
  label : jsstring;
  cfileName : jsstring;           (* [fileName] *)
  csheetName : jsstring;          (* [sheetName] *)
  cheaders : list Header;         (* [headers] *)
  crows : list object;            (* [rows] *)
  crowCount : nat                 (* [rowCount] *)
}.

Record Prepared : Type := mkPrepared {
  psheets : list ComparisonSheet; (* [sheets] *)
  psheetCount : nat;              (* [sheetCount] *)
  commonColumns : list jsstring
}.

Definition prepareSheet (file : ParsedFile) (fileIndex : nat)
    (sheet : Sheet) (sheetIndex : nat) : ComparisonSheet :=
  mkComparisonSheet
    (lit "file" ++ decimal (Z.of_nat fileIndex)
       ++ lit "_sheet" ++ decimal (Z.of_nat sheetIndex))
    (if Nat.ltb 1 (List.length (sheets file))
     then fileName file ++ lit " - " ++ sheetName sheet
     else fileName file)
    (fileName file) (sheetName sheet) (headers sheet) (rows sheet)
    (rowCount sheet).

Definition findCommonColumns (l : list ComparisonSheet) : list jsstring :=
  match l with
  | [] => []
  | _ =>
      let columnSets :=
        List.map (fun sheet =>
                    newSet (List.map (fun h => toLowerCase (name h))
                                     (cheaders sheet))) l in
      List.filter (fun col => forallb (includes col) columnSets)
                  (hd [] columnSets)
  end.

Definition prepareForComparison (parsedFiles : list ParsedFile) : Prepared :=
  let allSheets :=
    List.concat
      (mapi (fun file fileIndex => mapi (prepareSheet file fileIndex) (sheets file))
            parsedFiles) in
  mkPrepared allSheets (List.length allSheets) (findCommonColumns allSheets).

(** ** Extensions and validation *)

Definition supportedExtensions : list jsstring :=
  [lit ".xlsx"; lit ".xls"; lit ".csv"].

(** [s.lastIndexOf(c)], -1 when [c] does not occur. *)
Fixpoint lastIndexFrom (c : char) (s : jsstring) (i found : Z) : Z :=
  match s with
  | [] => found
  | x :: t => lastIndexFrom c t (i + 1)%Z (if N.eqb x c then i else found)
  end.

Definition lastIndexOf (c : char) (s : jsstring) : Z :=
  lastIndexFrom c s 0%Z (-1)%Z.

(** [s.substring(i)]: a negative start counts as 0. *)
Definition substring (i : Z) (s : jsstring) : jsstring :=
  skipn (Z.to_nat (Z.max 0 i)) s.

Definition getExtension (fileName : jsstring) : jsstring :=
  toLowerCase (substring (lastIndexOf 46%N fileName) fileName).

Definition isSupported (fileName : jsstring) : bool :=
  includes (getExtension fileName) supportedExtensions.

(** What validation reads of a [File]. *)
Record File : Type := mkUpload {
  fname : jsstring;               (* [name] *)
  size : N
}.

(** The messages of [validateFiles], by what they report. *)
Inductive ValidationError : Type :=
  | TooManyFiles
  | UnsupportedFile (n : jsstring)
  | FileTooLarge (n : jsstring).

Record Validation : Type := mkValidation {
  valid : bool;
  errors : list ValidationError;
  validFiles : list File
}.

Definition maxFiles : nat := 10.
Definition maxFileSize : N := (50 * 1024 * 1024)%N.

(** One turn of [for (const file of files)]. *)
Definition validateFile (acc : list ValidationError * list File) (file : File)
  : list ValidationError * list File :=
  if negb (isSupported (fname file))
  then (fst acc ++ [UnsupportedFile (fname file)], snd acc)
  else if N.ltb maxFileSize (size file)
  then (fst acc ++ [FileTooLarge (fname file)], snd acc)
  else (fst acc, snd acc ++ [file]).

Definition validateFiles (files : list File) : Validation :=
  let start :=
    if Nat.ltb maxFiles (List.length files) then [TooManyFiles] else [] in
  let (errs, ok) := fold_left validateFile files (start, []) in
  mkValidation (Nat.eqb (List.length errs) 0) errs (firstn maxFiles ok).

End FileParser.

(* ================================================================== *)
(** * js/reporter.js *)
(* ================================================================== *)

Module Reporter.
Import JS.
Export Model.

(** The strings of [status]; ['unknown'] is what a fresh record carries. *)
Inductive Status : Type := unknown | matched | similar | missing | conflict.

Record Occurrence : Type := mkOccurrence {
  sheetIndex : nat;
  sheetName : jsstring;
  row : object;
  rowIndex : nat
}.

Record ColumnComparison : Type := mkComparison {
  score : R;
  isExact : bool;
  isConflict : bool;
  isFuzzy : bool;
  values : option (list value);
  variance : option R
}.

(** The two shapes of an analysis share their fields; [missingInSheets]
    belongs to the first, [columnComparisons] to the second.  The [details]
    text is left out. *)
Record Analysis : Type := mkAnalysis {
  astatus : Status;               (* [status] *)
  presentIn : nat;
  totalSheets : nat;
  missingInSheets : option (list nat);
  matchScore : R;
  columnComparisons : option (list (jsstring * ColumnComparison))
}.

Record RecordEntry : Type := mkRecord {
  key : jsstring;
  occurrences : list Occurrence;
  sheetPresence : list (option object);
  status : Status;
  analysis : option Analysis
}.

Record Results : Type := mkResults {
  exactMatches : list RecordEntry;
  fuzzyMatches : list RecordEntry;
  differences : list RecordEntry;
  conflicts : list RecordEntry;
  all : list RecordEntry
}.

Record Summary : Type := mkSummary {
  totalRecords : nat;
  nExactMatches : nat;            (* [exactMatches] *)
  nFuzzyMatches : nat;            (* [fuzzyMatches] *)
  nDifferences : nat;             (* [differences] *)
  nConflicts : nat;               (* [conflicts] *)
  sheetsCompared : nat;
  skeyColumn : jsstring;          (* [keyColumn] *)
  columnsCompared : nat
}.

Record ComparisonReport : Type := mkReport {
  results : Results;
  summary : Summary;
  rsheets : list (jsstring * nat);  (* [sheets]: name and rowCount *)
  keyColumn : jsstring;
  columns : list jsstring
}.

Record Options : Type := mkOptions {
  compareColumns : option (list jsstring);
  threshold : option Q
}.

(** A sheet as [prepareForComparison] hands it over. *)
Definition Sheet := FileParser.ComparisonSheet.

(** ** compareColumnValues *)

(** The pairs [(nonNull[i], nonNull[j])], [i < j], in loop order. *)
Fixpoint pairs {A} (l : list A) : list (A * A) :=
  match l with
  | [] => []
  | x :: t => List.map (pair x) t ++ pairs t
  end.

Definition below (x : R) (t : Q) : bool := negb (Matcher.atLeast x t).

Definition compareColumnValues (cfg : Matcher.Config) (vals : list value)
  : ColumnComparison :=
  let nonNull := List.filter (fun v => negb (isNullish v)) vals in
  match nonNull with
  | [] | [_] => mkComparison 1%R true false false None None
  | _ =>
      let (minScore, maxScore) :=
        fold_left
          (fun mm p =>
             let s := Matcher.score (Matcher.smartMatch cfg (fst p) (snd p)) in
             (Rmin (fst mm) s, Rmax (snd mm) s))
          (pairs nonNull) (1%R, 0%R) in
      mkComparison ((minScore + maxScore) / 2)%R
                   (Matcher.atLeast minScore (99 # 100))
                   (below minScore (6 # 10))
                   (below minScore (99 # 100) && Matcher.atLeast minScore (6 # 10))
                   (Some nonNull) (Some (maxScore - minScore)%R)
  end.

(** ** analyzeRecord *)

Definition isPresent (p : option object) : bool :=
  match p with Some _ => true | None => false end.

(** [record.sheetPresence.map(row => row ? row[column] : null)] *)
Definition columnValues (record : RecordEntry) (column : jsstring) : list value :=
  List.map (fun p => match p with
                     | Some row => getProp row column
                     | None => VNull
                     end)
           (sheetPresence record).

(** What the loop over [columnsToCompare] carries. *)
Record Tally : Type := mkTally {
  comparisons : list (jsstring * ColumnComparison);
  totalScore : R;
  hasConflict : bool;
  hasFuzzyMatch : bool
}.

(** The arithmetic of the scores.  A number of JavaScript is a double: a
    real number, compared exactly, but a sum, a quotient and a decimal
    literal are each rounded to a double.  The record holds these three
    operations.  Nothing is assumed of them, so what holds for every
    [Arith] holds for the arithmetic of doubles.  Counts are whole numbers,
    which doubles hold exactly. *)
Record Arith : Type := mkArith {
  fadd : R -> R -> R;             (* [x + y] *)
  fdiv : R -> R -> R;             (* [x / y] *)
  fconst : Q -> R                 (* a decimal literal *)
}.

(** The arithmetic that rounds nothing. *)
Definition exact : Arith := mkArith Rplus Rdiv Q2R.

(** [x >= t]; on numbers [x < t] is its negation. *)
Definition reaches (x t : R) : bool :=
  if Rle_dec t x then true else false.

(** The body of the loop over [columnsToCompare]; [compare] is
    [this.compareColumnValues]. *)
Definition tallyColumnOn (ar : Arith) (compare : list value -> ColumnComparison)
    (record : RecordEntry) (t : Tally) (column : jsstring) : Tally :=
  let comparison := compare (columnValues record column) in
  mkTally (assign (comparisons t) column comparison)
          (fadd ar (totalScore t) (score comparison))
          (if isConflict comparison then true else hasConflict t)
          (if isFuzzy comparison then true else hasFuzzyMatch t).

(** [analyzeRecord] in the arithmetic [ar], with [compare] for
    [this.compareColumnValues] and the configuration of the matcher. *)
Definition analyzeRecordOn (ar : Arith)
    (compare : list value -> ColumnComparison) (cfg : Matcher.Config)
    (record : RecordEntry) (sheetCount : nat)
    (columnsToCompare : list jsstring) : Analysis :=
  let presentInSheets := List.length (List.filter isPresent (sheetPresence record)) in
  if Nat.ltb presentInSheets sheetCount
  then
    let missingIn :=
      foldi (fun acc presence idx =>
               if isPresent presence then acc else acc ++ [idx])
            (sheetPresence record) [] in
    mkAnalysis missing presentInSheets sheetCount (Some missingIn)
               (fdiv ar (INR presentInSheets) (INR sheetCount)) None
  else
    let t := fold_left (tallyColumnOn ar compare record) columnsToCompare
                       (mkTally [] 0%R false false) in
    let avgScore :=
      if Nat.ltb 0 (List.length columnsToCompare)
      then fdiv ar (totalScore t) (INR (List.length columnsToCompare))
      else 1%R in
    let st :=
      if hasConflict t && negb (reaches avgScore (fconst ar (1 # 2)))
      then conflict
      else if reaches avgScore (fconst ar (95 # 100)) then matched
      else if reaches avgScore (fconst ar (Matcher.similarThreshold cfg))
      then similar
      else conflict in
    mkAnalysis st presentInSheets sheetCount None avgScore
               (Some (comparisons t)).

(** The same over the real numbers, where no operation rounds, and with the
    column comparison of this development. *)
Definition tallyColumn (cfg : Matcher.Config) (record : RecordEntry)
    (t : Tally) (column : jsstring) : Tally :=
  tallyColumnOn exact (compareColumnValues cfg) record t column.

Definition analyzeRecord (cfg : Matcher.Config) (record : RecordEntry)
    (sheetCount : nat) (columnsToCompare : list jsstring) : Analysis :=
  analyzeRecordOn exact (compareColumnValues cfg) cfg record sheetCount
                  columnsToCompare.

(** ** compareSheets *)

(** The body of [sheet.rows.forEach]. *)
Definition addRow (sheetCount sheetIndex : nat) (sheetLabel keyColumn : jsstring)
    (recordMap : list (jsstring * RecordEntry)) (r : object) (rowIdx : nat)
  : list (jsstring * RecordEntry) :=
  let keyValue := getProp r keyColumn in
  if isNullish keyValue || str_eqb (trim (toString keyValue)) []
  then recordMap                           (* skip rows without key *)
  else
    let keyStr := trim (toString keyValue) in
    let recordMap :=
      if hasKey recordMap keyStr then recordMap
      else setProp recordMap keyStr
             (mkRecord keyStr [] (repeat None sheetCount) unknown None) in
    match getKey recordMap keyStr with
    | Some record =>
        setProp recordMap keyStr
          (mkRecord (key record)
             (occurrences record
                ++ [mkOccurrence sheetIndex sheetLabel r rowIdx])
             (setAt sheetIndex (Some r) (sheetPresence record))
             (status record) (analysis record))
    | None => recordMap
    end.

(** The record map after [sheets.forEach]. *)
Definition buildRecordMap (sheets : list Sheet) (keyColumn : jsstring)
  : list (jsstring * RecordEntry) :=
  foldi (fun recordMap sheet sheetIndex =>
           foldi (addRow (List.length sheets) sheetIndex
                         (FileParser.label sheet) keyColumn)
                 (FileParser.crows sheet) recordMap)
        sheets [].

(** [allColumns] after [sheets.forEach]. *)
Definition collectColumns (sheets : list Sheet) : list jsstring :=
  fold_left (fun allColumns sheet =>
               fold_left (fun acc h => setAdd acc (name h))
                         (FileParser.cheaders sheet) allColumns)
            sheets [].

(** The body of [recordMap.forEach]. *)
Definition classify (cfg : Matcher.Config) (sheetCount : nat)
    (columnsToCompare : list jsstring) (res : Results)
    (entry : jsstring * RecordEntry) : Results :=
  let record := snd entry in
  let a := analyzeRecord cfg record sheetCount columnsToCompare in
  let record :=
    mkRecord (key record) (occurrences record) (sheetPresence record)
             (astatus a) (Some a) in
  let res :=
    match astatus a with
    | matched =>
        mkResults (exactMatches res ++ [record]) (fuzzyMatches res)
                  (differences res) (conflicts res) (all res)
    | similar =>
        mkResults (exactMatches res) (fuzzyMatches res ++ [record])
                  (differences res) (conflicts res) (all res)
    | missing =>
        mkResults (exactMatches res) (fuzzyMatches res)
                  (differences res ++ [record]) (conflicts res) (all res)
    | conflict =>
        mkResults (exactMatches res) (fuzzyMatches res)
                  (differences res) (conflicts res ++ [record]) (all res)
    | unknown => res
    end in
  mkResults (exactMatches res) (fuzzyMatches res) (differences res)
            (conflicts res) (all res ++ [record]).

(** [compareSheets] past its guard, under the configuration it has set. *)
Definition buildReport (cfg : Matcher.Config) (sheets : list Sheet)
    (keyCol : jsstring) (options : Options) : ComparisonReport :=
  let recordMap := buildRecordMap sheets keyCol in
  let allColumns := collectColumns sheets in
  let columnsToCompare :=
    match compareColumns options with
    | Some cols => cols
    | None => List.filter (fun c => negb (str_eqb c keyCol)) allColumns
    end in
  let res :=
    fold_left (classify cfg (List.length sheets) columnsToCompare) recordMap
              (mkResults [] [] [] [] []) in
  mkReport res
    (mkSummary (List.length recordMap)
               (List.length (exactMatches res)) (List.length (fuzzyMatches res))
               (List.length (differences res)) (List.length (conflicts res))
               (List.length sheets) keyCol (List.length columnsToCompare))
    (List.map (fun s => (FileParser.label s, FileParser.crowCount s)) sheets)
    keyCol allColumns.

(** [compareSheets]: the matcher configuration is shared state, so it is
    passed in and returned; [None] is the thrown error. *)
Definition compareSheets (cfg : Matcher.Config) (sheets : list Sheet)
    (keyCol : jsstring) (options : Options)
  : Matcher.Config * option ComparisonReport :=
  if Nat.ltb (List.length sheets) 2 then (cfg, None)
  else
    let t := match threshold options with
             | Some t => t
             | None => (75 # 100)%Q
             end in
    let cfg' := Matcher.setSimilarThreshold cfg t in
    (cfg', Some (buildReport cfg' sheets keyCol options)).

(** ** findDuplicates *)

Record DuplicateGroup : Type := mkGroup {
  gkey : value;                   (* [key] *)
  records : list (nat * object * option R);  (* index, row and score *)
  count : nat
}.

(** The loop over [i], on the rows paired with their indices; [checked] is
    the set of the same name.  The rows after row [i] that are not checked
    and match its key are its group. *)
Fixpoint findGroups (cfg : Matcher.Config) (keyCol : jsstring) (threshold : Q)
    (rows : list (nat * object)) (checked : list nat) : list DuplicateGroup :=
  match rows with
  | [] => []
  | (i, r) :: rest =>
      if existsb (Nat.eqb i) checked
      then findGroups cfg keyCol threshold rest checked
      else
        let keyA := getProp r keyCol in
        let hits :=
          List.filter
            (fun jr =>
               negb (existsb (Nat.eqb (fst jr)) checked)
               && Matcher.atLeast
                    (Matcher.score
                       (Matcher.smartMatch cfg keyA (getProp (snd jr) keyCol)))
                    threshold)
            rest in
        let checked := checked ++ List.map fst hits in
        match hits with
        | [] => findGroups cfg keyCol threshold rest checked
        | _ =>
            mkGroup keyA
              ((i, r, None)
               :: List.map
                    (fun jr =>
                       (fst jr, snd jr,
                        Some (Matcher.score
                                (Matcher.smartMatch cfg keyA
                                   (getProp (snd jr) keyCol)))))
                    hits)
              (S (List.length hits))
            :: findGroups cfg keyCol threshold rest (checked ++ [i])
        end
  end.

(** [findDuplicates(sheet, keyColumn, threshold)]; the threshold defaults to
    0.85. *)
Definition findDuplicates (cfg : Matcher.Config) (sheet : Sheet)
    (keyCol : jsstring) (threshold : option Q) : list DuplicateGroup :=
  findGroups cfg keyCol
    (match threshold with Some t => t | None => (85 # 100)%Q end)
    (mapi (fun r i => (i, r)) (FileParser.crows sheet)) [].

End Reporter.

(* ================================================================== *)
(** * The exporter module *)
(* ================================================================== *)

Module Exporter.
Import JS.

Definition QUOTE : char := 34%N.
Definition COMMA : char := 44%N.
Definition NEWLINE : char := 10%N.

(** The [replace] of [toCSV]: every double quote is written twice. *)
Definition doubleQuotes (s : jsstring) : jsstring :=
  flat_map (fun c => if N.eqb c QUOTE then [QUOTE; QUOTE] else [c]) s.

(** The field [toCSV] writes for a cell: [null] and [undefined] are empty,
    quotes are doubled, and a field holding a comma, a quote or a line feed
    is put between quotes. *)
Definition csvField (v : value) : jsstring :=
  let text := if isNullish v then [] else toString v in
  let text := doubleQuotes text in
  if existsb (N.eqb COMMA) text || existsb (N.eqb QUOTE) text
     || existsb (N.eqb NEWLINE) text
  then QUOTE :: text ++ [QUOTE]
  else text.

(** One line of the file: the fields of a row under the given headers. *)
Definition csvLine (headers : list jsstring) (r : object) : jsstring :=
  join COMMA (List.map (fun header => csvField (getProp r header)) headers)
  ++ [NEWLINE].

(** ** The sheets of the Excel file *)

(** [getStatusLabel(status)]: [labels[status] || status]. *)
Definition getStatusLabel (status : Reporter.Status) : jsstring :=
  match status with
  | Reporter.matched => [1605; 1578; 1591; 1575; 1576; 1602; 32; 10003]%N
  | Reporter.similar => [1605; 1578; 1588; 1575; 1576; 1607; 32; 8776]%N
  | Reporter.missing => [1605; 1601; 1602; 1608; 1583; 32; 63]%N
  | Reporter.conflict => [1578; 1606; 1575; 1602; 1590; 32; 33]%N
  | Reporter.unknown => lit "unknown"
  end.

(** The name of the status column. *)
Definition STATUS : jsstring := [1575; 1604; 1581; 1575; 1604; 1577]%N.

Definition UNDERSCORE : char := 95%N.

(** The prefix of the columns of sheet [idx]: the word for sheet, the
    number [idx + 1] and an underscore. *)
Definition sheetPrefix (idx : nat) : jsstring :=
  [1588; 1610; 1578]%N ++ decimal (Z.of_nat (idx + 1)) ++ [UNDERSCORE].

(** The body of [records.map] in [prepareSheetData].  The names of a row
    are taken in the order of its entries. *)
Definition prepareRow (keyColumn : jsstring) (record : Reporter.RecordEntry)
  : object :=
  let row := assign [] keyColumn (VString (Reporter.key record)) in
  let row :=
    assign row STATUS (VString (getStatusLabel (Reporter.status record))) in
  foldi (fun row presence idx =>
           match presence with
           | Some p =>
               fold_left
                 (fun row key =>
                    if startsWith [UNDERSCORE] key then row
                    else assign row (sheetPrefix idx ++ key) (getProp p key))
                 (List.map fst p) row
           | None => row
           end)
        (Reporter.sheetPresence record) row.

Definition prepareSheetData (records : list Reporter.RecordEntry)
    (report : Reporter.ComparisonReport) : list object :=
  List.map (prepareRow (Reporter.keyColumn report)) records.

Record ExportSheet : Type := mkExportSheet {
  ename : jsstring;               (* [name] *)
  data : list object
}.

(** [getSheetsToExport(report, reportType)] *)
Definition getSheetsToExport (report : Reporter.ComparisonReport)
    (reportType : jsstring) : list ExportSheet :=
  let sheets := [] in
  let sheets :=
    if str_eqb reportType (lit "all") || str_eqb reportType (lit "matched")
    then sheets ++ [mkExportSheet [1605; 1578; 1591; 1575; 1576; 1602]%N
                      (prepareSheetData
                         (Reporter.exactMatches (Reporter.results report))
                         report)]
    else sheets in
  let sheets :=
    if str_eqb reportType (lit "all") || str_eqb reportType (lit "similar")
    then sheets ++ [mkExportSheet [1605; 1578; 1588; 1575; 1576; 1607]%N
                      (prepareSheetData
                         (Reporter.fuzzyMatches (Reporter.results report))
                         report)]
    else sheets in
  let sheets :=
    if str_eqb reportType (lit "all") || str_eqb reportType (lit "missing")
    then sheets ++ [mkExportSheet [1605; 1601; 1602; 1608; 1583]%N
                      (prepareSheetData
                         (Reporter.differences (Reporter.results report))
                         report)]
    else sheets in
  let sheets :=
    if str_eqb reportType (lit "all") || str_eqb reportType (lit "conflicts")
    then sheets ++ [mkExportSheet [1578; 1606; 1575; 1602; 1590; 1575; 1578]%N
                      (prepareSheetData
                         (Reporter.conflicts (Reporter.results report))
                         report)]
    else sheets in
  sheets.

(** The result sheets [toExcel] appends after the summary sheet: those of
    [getSheetsToExport] that hold a row. *)
Definition resultSheets (report : Reporter.ComparisonReport)
    (reportType : jsstring) : list ExportSheet :=
  List.filter (fun s => Nat.ltb 0 (List.length (data s)))
              (getSheetsToExport report reportType).

End Exporter.

(* ================================================================== *)
(** * Notions used by the statements

    Nothing below is taken from the sources: these are the predicates,
    measures and sample inputs the properties are stated with. *)
(* ================================================================== *)

Module NormalizerNotions.
Import JS ArabicNormalizer.

(** What the letter passes of [normalize] do to one code unit. *)
Definition canon (c : char) : char :=
  fold_left (fun x ft => if N.eqb x (fst ft) then snd ft else x)
            (mappings_alef ++ mappings_yaa ++ mappings_taa ++ mappings_waw) c.

Definition kept (c : char) : bool :=
  forallb (fun r => negb (N.eqb c r)) mappings_remove.

(** A code unit the letter passes leave alone. *)
Definition stable (c : char) : bool := N.eqb (canon c) c && kept c.

(** Single spaces between code units that are not white space. *)
Inductive tight : jsstring -> Prop :=
  | tight_nil : tight []
  | tight_char c t : isSpace c = false -> tight t -> tight (c :: t)
  | tight_space d u : isSpace d = false -> tight u -> tight (SP :: d :: u).

(** The same, where a space may also come last. *)
Inductive loose : jsstring -> Prop :=
  | loose_nil : loose []
  | loose_char c t : isSpace c = false -> loose t -> loose (c :: t)
  | loose_last : loose [SP]
  | loose_space d u : isSpace d = false -> loose u -> loose (SP :: d :: u).

(** Empty, or starting with a code unit that is not white space. *)
Definition headed (Q : jsstring -> Prop) (s : jsstring) : Prop :=
  match s with
  | [] => True
  | c :: t => isSpace c = false /\ Q t
  end.

(** A name written with Alef-hamza (U+0623) and a fatha (U+064E). *)
Definition ahmad : jsstring := [1571; 1581; 1614; 1605; 1583]%N.

End NormalizerNotions.

Module MatcherNotions.
Import JS Matcher.

(** Ten words each, nine of them shared. *)
Definition wide_a : jsstring := lit "a b c d e f g h i wxya".
Definition wide_b : jsstring := lit "a b c d e f g h i wxyb".

Definition names_a : jsstring := lit "john smith".
Definition names_b : jsstring := lit "smith jon x".

(** [diff / avg] of [numericMatch]. *)
Definition percentDiff (a b : Q) : Q :=
  (Qabs (a - b) / ((Qabs a + Qabs b) / 2))%Q.

(** The types a result has when the fuzzy algorithms did not decide. *)
Definition beforeFuzzy (t : MatchType) : bool :=
  match t with
  | Exact | Missing | Normalized | Numeric | NumericTolerance => true
  | FuzzyHigh | Fuzzy | FuzzyWeak | NoMatch => false
  end.

(** The cells of row [i] of the Levenshtein matrix, from column [j] on,
    are at most the larger of their two indices. *)
Fixpoint bounded (i j : nat) (cells : list nat) : Prop :=
  match cells with
  | [] => True
  | v :: t => v <= Nat.max i j /\ bounded i (S j) t
  end.

(** The number of flags that are set. *)
Definition marked (flags : list bool) : nat := count_occ bool_dec flags true.

(** The column has a weight that is a positive number. *)
Definition weighed (weights : list (jsstring * Q)) (c : jsstring) : Prop :=
  exists w, weightOf weights c = Some w /\ (0 < w)%Q.

End MatcherNotions.

Module KeyDetectorNotions.
Import JS KeyDetector.


(** The column of a header in the sampled rows. *)
Definition column (h : Header) (rows : list object) : list value :=
  List.map (fun row => getProp row (name h)) rows.







(** Listed from the highest score down. *)
Definition descending (l : list ScoreItem) : Prop :=
  StronglySorted (fun x y => score y <= score x) l.

(** A sampled value that is absent or blank. *)
Definition blankValue (v : value) : Prop :=
  isNullish v = true \/ trim (toString v) = [].

End KeyDetectorNotions.

Module FileParserNotions.
Import JS FileParser.

(** The sheets of a parsed file: name and row count of each. *)
Definition outline (f : ParsedFile) : list (jsstring * nat) :=
  List.map (fun s => (sheetName s, rowCount s)) (sheets f).

(** The library gave at least one row, the header row. *)
Definition hasHeaderRow (entry : jsstring * list (list value)) : bool :=
  negb (Nat.eqb (List.length (snd entry)) 0).

Definition header_only_book : Workbook :=
  [ (lit "Sheet1", [[VString (lit "ID"); VString (lit "Name")]]) ].

Definition staff_sheet : Sheet :=
  mkSheet (lit "Sheet1") [mkHeader 0 (lit "ID") (VString (lit "ID"))]
          [[(lit "ID", VInt 7); (lit "_rowIndex", VInt 0)]] 1 1.

Definition single_sheet_file : ParsedFile :=
  mkFile (lit "staff.xlsx") [staff_sheet] 1 1.

Definition staff_entry : ComparisonSheet :=
  prepareSheet single_sheet_file 0 staff_sheet 0.

(** A file passes the two checks of [validateFiles]. *)
Definition acceptable (file : File) : bool :=
  isSupported (fname file) && negb (N.ltb maxFileSize (size file)).

(** The cell [makeRow] stores for a header. *)
Definition cellFor (row : list value) (h : Header) : value :=
  match nth_error row (index h) with
  | Some VUndefined | None => VString []
  | Some cell => cell
  end.

(** The last header of the list that carries the name. *)
Definition lastNamed (nm : jsstring) (hs : list Header) : option Header :=
  List.find (fun h => str_eqb (name h) nm) (rev hs).

(** The lower-cased header names of a sheet. *)
Definition lowerNames (sheet : ComparisonSheet) : list jsstring :=
  List.map (fun h => toLowerCase (name h)) (cheaders sheet).

(** Three headers, two of them with one name, and a row under them. *)
Definition twin_headers : list Header :=
  mapi makeHeader [VString (lit "ID"); VString (lit "City"); VString (lit "ID")].

Definition twin_row : list value := [VInt 1; VString (lit "north"); VInt 2].

End FileParserNotions.

Module ReporterNotions.
Import JS Reporter.

(** The rows a record holds: those of its occurrences and those in its
    presence slots. *)
Definition present (l : list (option object)) : list object :=
  flat_map (fun p => match p with Some r => [r] | None => [] end) l.

Definition rowsOf (r : RecordEntry) : list object :=
  List.map row (occurrences r) ++ present (sheetPresence r).

(** The key test of [compareSheets] fires: the row reads [undefined],
    [null] or a blank text under the key column. *)
Definition blankKey (keyCol : jsstring) (r : object) : bool :=
  isNullish (getProp r keyCol)
  || str_eqb (trim (toString (getProp r keyCol))) [].

Definition keyed (keyCol : jsstring) (rec : RecordEntry) : Prop :=
  Forall (fun r => blankKey keyCol r = false) (rowsOf rec).

(** The record as [recordMap.forEach] leaves it. *)
Definition analysed (cfg : Matcher.Config) (n : nat) (cols : list jsstring)
    (entry : jsstring * RecordEntry) : RecordEntry :=
  let a := analyzeRecord cfg (snd entry) n cols in
  mkRecord (key (snd entry)) (occurrences (snd entry))
           (sheetPresence (snd entry)) (astatus a) (Some a).

Definition hasStatus (s : Status) (r : RecordEntry) : bool :=
  match s, status r with
  | unknown, unknown | matched, matched | similar, similar
  | missing, missing | conflict, conflict => true
  | _, _ => false
  end.

(** [columnsToCompare] of [compareSheets]. *)
Definition columnsToCompare (sheets : list Sheet) (keyCol : jsstring)
    (options : Options) : list jsstring :=
  match compareColumns options with
  | Some cols => cols
  | None => List.filter (fun c => negb (str_eqb c keyCol)) (collectColumns sheets)
  end.

(** Every list the report hands out. *)
Definition buckets (res : Results) : list RecordEntry :=
  exactMatches res ++ fuzzyMatches res ++ differences res ++ conflicts res
  ++ all res.

(** A record is in one of the four category lists and in no other. *)
Definition inExactlyOne (r : RecordEntry) (res : Results) : Prop :=
  (In r (exactMatches res) /\ ~ In r (fuzzyMatches res)
   /\ ~ In r (differences res) /\ ~ In r (conflicts res))
  \/ (~ In r (exactMatches res) /\ In r (fuzzyMatches res)
      /\ ~ In r (differences res) /\ ~ In r (conflicts res))
  \/ (~ In r (exactMatches res) /\ ~ In r (fuzzyMatches res)
      /\ In r (differences res) /\ ~ In r (conflicts res))
  \/ (~ In r (exactMatches res) /\ ~ In r (fuzzyMatches res)
      /\ ~ In r (differences res) /\ In r (conflicts res)).

(** The column comparisons of a record, in the order of the columns. *)
Definition comparisonsOf (cfg : Matcher.Config) (rec : RecordEntry)
    (cols : list jsstring) : list ColumnComparison :=
  List.map (fun c => compareColumnValues cfg (columnValues rec c)) cols.

Definition sumScores (comps : list ColumnComparison) : R :=
  fold_right (fun c acc => (score c + acc)%R) 0%R comps.

(** The column comparisons of a record under a comparison function, in the
    order of the columns. *)
Definition comparisonsWith (compare : list value -> ColumnComparison)
    (rec : RecordEntry) (cols : list jsstring) : list ColumnComparison :=
  List.map (fun c => compare (columnValues rec c)) cols.

(** The column scores added up from 0 in the order of the columns, and
    their average: that sum divided by their number, 1 when no column is
    compared.  Sum and quotient are those of the arithmetic. *)
Definition sumOn (ar : Arith) (comps : list ColumnComparison) : R :=
  fold_left (fun acc c => fadd ar acc (score c)) comps 0%R.

Definition averageOn (ar : Arith) (comps : list ColumnComparison) : R :=
  match comps with
  | [] => 1%R
  | _ => fdiv ar (sumOn ar comps) (INR (List.length comps))
  end.

(** The status decision in the words of the specification: [flagged] says
    that some column comparison is flagged as a conflict, [avg] is the
    average column score, [low] and [high] are the numbers the code writes
    0.5 and 0.95, and [similarAt] is the active similarity threshold. *)
Inductive ladder (flagged : Prop) (avg low high similarAt : R)
  : Status -> Prop :=
  | ladder_conflict :
      flagged -> (avg < low)%R ->
      ladder flagged avg low high similarAt conflict
  | ladder_matched :
      ~ (flagged /\ (avg < low)%R) -> (avg >= high)%R ->
      ladder flagged avg low high similarAt matched
  | ladder_similar :
      ~ (flagged /\ (avg < low)%R) -> ~ (avg >= high)%R ->
      (avg >= similarAt)%R ->
      ladder flagged avg low high similarAt similar
  | ladder_fallback :
      ~ (flagged /\ (avg < low)%R) -> ~ (avg >= high)%R ->
      ~ (avg >= similarAt)%R ->
      ladder flagged avg low high similarAt conflict.

(** ** Sample inputs *)

Definition north_row : object :=
  [(lit "ID", VInt 1); (lit "City", VString (lit "north"))].
Definition south_row : object :=
  [(lit "ID", VInt 1); (lit "City", VString (lit "south"))].

(** A record present in both of two sheets. *)
Definition north_south : RecordEntry :=
  mkRecord (lit "1") [] [Some north_row; Some south_row] unknown None.

(** Two one-sheet workbooks; the second data row of the first has a key of
    spaces only. *)
Definition book_a : FileParser.Workbook :=
  [ (lit "Sheet1",
     [ [VString (lit "ID"); VString (lit "City")];
       [VInt 1; VString (lit "north")];
       [VString (lit "  "); VString (lit "lost")] ]) ].

Definition book_b : FileParser.Workbook :=
  [ (lit "Sheet1",
     [ [VString (lit "ID"); VString (lit "City")];
       [VInt 1; VString (lit "south")];
       [VInt 2; VString (lit "east")] ]) ].

Definition two_sheets : list Sheet :=
  FileParser.psheets
    (FileParser.prepareForComparison
       [ FileParser.extractWorkbookData book_a (lit "a.xlsx");
         FileParser.extractWorkbookData book_b (lit "b.xlsx") ]).

Definition defaults : Options := mkOptions None None.

(** The report [compareSheets] returns for them under the default
    configuration. *)
Definition two_sheets_report : ComparisonReport :=
  buildReport (Matcher.setSimilarThreshold Matcher.config (75 # 100))
              two_sheets (lit "ID") defaults.

(** ** Grouping and duplicates *)

(** The key text of a row: [String(row[keyColumn]).trim()]. *)
Definition keyOf (keyCol : jsstring) (r : object) : jsstring :=
  trim (toString (getProp r keyCol)).

(** The row of the last occurrence that comes from the sheet. *)
Definition lastFrom (si : nat) (occs : list Occurrence) : option object :=
  option_map row (List.find (fun o => Nat.eqb (sheetIndex o) si) (rev occs)).

(** The positions of the empty slots, counted from [k]. *)
Fixpoint absentFrom (k : nat) (l : list (option object)) : list nat :=
  match l with
  | [] => []
  | Some _ :: t => absentFrom (S k) t
  | None :: t => k :: absentFrom (S k) t
  end.

(** A record as [compareSheets] creates it for a new key. *)
Definition fresh (n : nat) (k : jsstring) : RecordEntry :=
  mkRecord k [] (repeat None n) unknown None.

(** A record after one more occurrence is pushed and its slot is set. *)
Definition extended (rec : RecordEntry) (o : Occurrence) : RecordEntry :=
  mkRecord (key rec) (occurrences rec ++ [o])
           (setAt (sheetIndex o) (Some (row o)) (sheetPresence rec))
           (status rec) (analysis rec).

(** The occurrence names a row of one of the sheets: the row at its row
    index in the sheet at its sheet index, under the label of that sheet. *)
Definition sourced (sheets : list Sheet) (o : Occurrence) : Prop :=
  exists sheet,
    nth_error sheets (sheetIndex o) = Some sheet
    /\ sheetName o = FileParser.label sheet
    /\ nth_error (FileParser.crows sheet) (rowIndex o) = Some (row o).

(** The rows of a record all carry its key, and each slot holds the last
    of them that comes from its sheet. *)
Definition grouped (sheets : list Sheet) (keyCol : jsstring)
    (rec : RecordEntry) : Prop :=
  key rec <> []
  /\ List.length (sheetPresence rec) = List.length sheets
  /\ (forall o, In o (occurrences rec) ->
        keyOf keyCol (row o) = key rec /\ sourced sheets o)
  /\ (forall si, si < List.length sheets ->
        nth_error (sheetPresence rec) si
        = Some (lastFrom si (occurrences rec))).

(** The row indices of a group of duplicates. *)
Definition indices (g : DuplicateGroup) : list nat :=
  List.map (fun rec => fst (fst rec)) (records g).

(** The first row of [book_a] as the comparison sees it. *)
Definition first_row : object :=
  [(lit "ID", VInt 1); (lit "City", VString (lit "north"));
   (FileParser.ROW_INDEX, VInt 0)].

(** Two one-sheet workbooks, the first with a column "constructor", the
    second without one. *)
Definition book_c : FileParser.Workbook :=
  [ (lit "Sheet1",
     [ [VString (lit "constructor"); VString (lit "City")];
       [VString (lit "acme"); VString (lit "north")] ]) ].

Definition book_d : FileParser.Workbook :=
  [ (lit "Sheet1",
     [ [VString (lit "ID"); VString (lit "City")];
       [VInt 7; VString (lit "south")] ]) ].

Definition keyless_sheets : list Sheet :=
  FileParser.psheets
    (FileParser.prepareForComparison
       [ FileParser.extractWorkbookData book_c (lit "c.xlsx");
         FileParser.extractWorkbookData book_d (lit "d.xlsx") ]).

(** The one data row of [book_d] as the comparison sees it. *)
Definition keyless_row : object :=
  [(lit "ID", VInt 7); (lit "City", VString (lit "south"));
   (FileParser.ROW_INDEX, VInt 0)].

(** The report [compareSheets] returns for them on the key column
    "constructor", under the default configuration. *)
Definition keyless_report : ComparisonReport :=
  buildReport (Matcher.setSimilarThreshold Matcher.config (75 # 100))
              keyless_sheets (lit "constructor") defaults.

End ReporterNotions.

Module ExporterNotions.
Import JS Exporter.

(** The text [toCSV] starts from: empty for [null] and [undefined]. *)
Definition text (v : value) : jsstring :=
  if isNullish v then [] else toString v.

(** Reading a quoted field: a pair of quotes stands for one. *)
Fixpoint undouble (s : jsstring) : jsstring :=
  match s with
  | [] => []
  | c :: t =>
      match t with
      | c' :: t' =>
          if N.eqb c QUOTE && N.eqb c' QUOTE then QUOTE :: undouble t'
          else c :: undouble t
      | [] => [c]
      end
  end.

(** Reading a field back: a field that starts with a quote loses its outer
    quotes and its doubled quotes, any other field is taken as it is. *)
Definition readField (f : jsstring) : jsstring :=
  match f with
  | c :: t => if N.eqb c QUOTE then undouble (removelast t) else f
  | [] => []
  end.

(** The number of rows of a list of sheets. *)
Definition rowTotal (sheets : list ExportSheet) : nat :=
  fold_right (fun s acc => List.length (data s) + acc) 0 sheets.

(** A report type [getSheetsToExport] knows. *)
Definition knownType (reportType : jsstring) : bool :=
  existsb (str_eqb reportType)
          [lit "all"; lit "matched"; lit "similar"; lit "missing";
           lit "conflicts"].

(** What [prepareSheetData] writes into a row for the sheet at [idx]: one
    cell for every name of the row of that sheet that does not start with
    an underscore. *)
Definition slotWrites (idx : nat) (p : object) : list (jsstring * value) :=
  flat_map (fun key => if startsWith [UNDERSCORE] key then []
                       else [(sheetPrefix idx ++ key, getProp p key)])
           (List.map fst p).

Fixpoint writesFrom (k : nat) (presence : list (option object))
  : list (jsstring * value) :=
  match presence with
  | [] => []
  | Some p :: t => slotWrites k p ++ writesFrom (S k) t
  | None :: t => writesFrom (S k) t
  end.

End ExporterNotions.

(* ================================================================== *)
(** * Facts on the host-language fragment *)
(* ================================================================== *)

Module JSFacts.
Import JS.

Lemma str_eqb_eq a b : str_eqb a b = true <-> a = b.
Proof.
  revert b. induction a as [|x a IH]; destruct b as [|y b]; simpl;
    try (split; [discriminate | congruence]); [tauto|].
  rewrite andb_true_iff, N.eqb_eq, IH. split; [intros [-> ->]; reflexivity|].
  intros [= -> ->]. auto.
Qed.

Lemma str_eqb_sym a b : str_eqb a b = str_eqb b a.
Proof.
  revert b. induction a as [|x a IH]; destruct b as [|y b]; simpl; auto.
  now rewrite N.eqb_sym, IH.
Qed.

Lemma str_eqb_refl s : str_eqb s s = true.
Proof. now apply str_eqb_eq. Qed.

Lemma str_eqb_neq a b : a <> b -> str_eqb a b = false.
Proof.
  intros H. destruct (str_eqb a b) eqn:E; [|reflexivity].
  apply str_eqb_eq in E. contradiction.
Qed.


Lemma includes_In x l : includes x l = true <-> In x l.
Proof.
  unfold includes. rewrite existsb_exists. split.
  - intros [y [Hy E]]. apply str_eqb_eq in E. now subst.
  - intros H. exists x. split; [assumption | now apply str_eqb_eq].
Qed.


Lemma filter_all {A} (f : A -> bool) l :
  Forall (fun x => f x = true) l -> List.filter f l = l.
Proof.
  induction 1 as [|x l Hx Hl IH]; simpl; auto. now rewrite Hx, IH.
Qed.

(** An invariant of the state of a [forEach] loop. *)
Lemma foldi_from_invariant {A B} (P : B -> Prop) (f : B -> A -> nat -> B) l :
  (forall s x i, In x l -> P s -> P (f s x i)) ->
  forall i s, P s -> P (foldi_from i f l s).
Proof.
  induction l as [|x l IH]; intros Hf i s Hs; simpl; auto.
  apply IH.
  - intros s' y j Hy. apply Hf. now right.
  - apply Hf; [now left | assumption].
Qed.

Lemma length_mapi_from {A B} (f : A -> nat -> B) l i :
  List.length (mapi_from i f l) = List.length l.
Proof. revert i. induction l; intros i; simpl; auto. Qed.

Lemma in_mapi_from {A B} (f : A -> nat -> B) l i y :
  In y (mapi_from i f l) -> exists x j, In x l /\ y = f x j.
Proof.
  revert i. induction l as [|x l IH]; intros i; simpl; [tauto|].
  intros [<-|H].
  - exists x, i. auto.
  - destruct (IH _ H) as [x' [j [Hx ->]]]. exists x', j. auto.
Qed.

Lemma setProp_Forall {V} (P : V -> Prop) (m : list (jsstring * V)) k v :
  Forall (fun e => P (snd e)) m -> P v ->
  Forall (fun e => P (snd e)) (setProp m k v).
Proof.
  induction 1 as [|[k' v'] m Hh Ht IH]; intros Hv; simpl.
  - now repeat constructor.
  - destruct (str_eqb k' k); constructor; auto.
Qed.

Lemma getKey_Forall {V} (P : V -> Prop) (m : list (jsstring * V)) k v :
  Forall (fun e => P (snd e)) m -> getKey m k = Some v -> P v.
Proof.
  unfold getKey. induction 1 as [|[k' v'] m Hh Ht IH]; simpl; [discriminate|].
  destruct (str_eqb k' k); simpl; [intros [= <-]; exact Hh | exact IH].
Qed.

(** White space: what [collapseSpaces] and [trim] keep of a property of
    code units. *)
Section Preserved.
Variable P : char -> bool.
Hypothesis P_space : P SP = true.

Lemma collapseFrom_forallb b s :
  forallb P s = true -> forallb P (collapseFrom b s) = true.
Proof.
  revert b. induction s as [|c s IH]; intros b H; simpl in *; auto.
  apply andb_prop in H as [Hc Hs].
  destruct (isSpace c), b; cbn [forallb]; rewrite ?P_space, ?Hc; cbn [andb];
    auto.
Qed.

Lemma trimStart_forallb s :
  forallb P s = true -> forallb P (trimStart s) = true.
Proof.
  induction s as [|c s IH]; intros H; simpl in *; auto.
  destruct (isSpace c); auto.
  apply andb_prop in H as [_ Hs]. auto.
Qed.

Lemma trimEnd_forallb s :
  forallb P s = true -> forallb P (trimEnd s) = true.
Proof.
  induction s as [|c s IH]; intros H; simpl in *; auto.
  apply andb_prop in H as [Hc Hs]. specialize (IH Hs).
  destruct (trimEnd s) as [|d u].
  - destruct (isSpace c); simpl; auto. now rewrite Hc.
  - simpl in *. now rewrite Hc.
Qed.
End Preserved.

Lemma trimEnd_cons c t :
  isSpace c = false -> trimEnd (c :: t) = c :: trimEnd t.
Proof. intros H. simpl. rewrite H. now destruct (trimEnd t). Qed.

End JSFacts.

(* ================================================================== *)
(** * Facts on the normalizer *)
(* ================================================================== *)

Module NormalizerFacts.
Import JS ArabicNormalizer NormalizerNotions JSFacts.

(** The letter passes act on each code unit independently. *)
Lemma applyMapping_map table s :
  applyMapping table s =
  List.map (fun c => fold_left (fun x ft => if N.eqb x (fst ft) then snd ft else x)
                               table c) s.
Proof.
  unfold applyMapping. revert s.
  induction table as [|[f t] table IH]; intros s; simpl.
  - now rewrite map_id.
  - rewrite IH. unfold replaceChar. now rewrite map_map.
Qed.

Lemma applyRemove_filter table s :
  applyRemove table s =
  List.filter (fun c => forallb (fun r => negb (N.eqb c r)) table) s.
Proof.
  unfold applyRemove. revert s.
  induction table as [|r table IH]; intros s; simpl.
  - induction s as [|c s IHs]; simpl; [reflexivity | now rewrite <- IHs].
  - rewrite IH. unfold removeChar.
    induction s as [|c s IHs]; simpl; auto.
    destruct (N.eqb c r); simpl; auto.
    destruct (forallb (fun r0 => negb (N.eqb c r0)) table); simpl; congruence.
Qed.

Lemma normalizeLetters_eq s :
  normalizeLetters s = List.filter kept (List.map canon s).
Proof.
  unfold normalizeLetters.
  rewrite applyRemove_filter, !applyMapping_map, !map_map.
  reflexivity.
Qed.

Lemma rewrite_fixed (table : list (char * char)) c :
  ~ In c (List.map fst table) ->
  fold_left (fun x ft => if N.eqb x (fst ft) then snd ft else x) table c = c.
Proof.
  revert c. induction table as [|[f t] table IH]; intros c H; [reflexivity|].
  cbn [fold_left fst snd]. cbn [List.map fst In] in H.
  destruct (N.eqb_spec c f) as [->|_]; [exfalso; apply H; now left|].
  apply IH. intros G. apply H. now right.
Qed.

Lemma canon_stable c : kept (canon c) = true -> stable (canon c) = true.
Proof.
  unfold stable. intros K. rewrite K, andb_true_r. apply N.eqb_eq.
  destruct (in_dec N.eq_dec c
              (List.map fst (mappings_alef ++ mappings_yaa ++ mappings_taa
                             ++ mappings_waw))) as [Hin|Hout].
  - cbv [mappings_alef mappings_yaa mappings_taa mappings_waw app List.map fst]
      in Hin.
    cbn [In] in Hin.
    repeat (destruct Hin as [<-|Hin]; [vm_compute; reflexivity|]).
    contradiction.
  - unfold canon. now rewrite !(rewrite_fixed _ c Hout).
Qed.

Lemma normalizeLetters_stable s : forallb stable (normalizeLetters s) = true.
Proof.
  rewrite normalizeLetters_eq.
  induction s as [|c s IH]; [reflexivity|].
  cbn [List.map List.filter].
  destruct (kept (canon c)) eqn:K; [|exact IH].
  cbn [forallb]. now rewrite canon_stable.
Qed.

Lemma normalizeLetters_fixed s :
  forallb stable s = true -> normalizeLetters s = s.
Proof.
  rewrite normalizeLetters_eq.
  induction s as [|c s IH]; [reflexivity|].
  cbn [forallb List.map List.filter]. intros H.
  apply andb_prop in H as [H Hs]. unfold stable in H.
  apply andb_prop in H as [Hc Hk].
  apply N.eqb_eq in Hc. rewrite Hc, Hk. now rewrite IH.
Qed.

Lemma collapseFrom_loose s :
  loose (collapseFrom false s) /\ headed loose (collapseFrom true s).
Proof.
  induction s as [|c s [IHf IHt]]; cbn [collapseFrom].
  - split; [apply loose_nil | exact I].
  - destruct (isSpace c) eqn:E.
    + split; [|exact IHt].
      destruct (collapseFrom true s) as [|d u]; [apply loose_last|].
      destruct IHt as [Hd Hu]. now apply loose_space.
    + split; [now apply loose_char | now split].
Qed.

Lemma trimStart_loose s : loose s -> headed loose (trimStart s).
Proof.
  intros H. destruct H as [|c t Hc Ht| |d u Hd Hu]; cbn [trimStart].
  - exact I.
  - rewrite Hc. now split.
  - change (isSpace SP) with true. exact I.
  - change (isSpace SP) with true. cbn [trimStart]. rewrite Hd. now split.
Qed.

Lemma trimEnd_loose s : loose s -> tight (trimEnd s).
Proof.
  induction 1 as [|c t Hc Ht IH| |d u Hd Hu IH].
  - apply tight_nil.
  - rewrite trimEnd_cons by assumption. now apply tight_char.
  - apply tight_nil.
  - change (trimEnd (SP :: d :: u))
      with (match trimEnd (d :: u) with [] => [] | t' => SP :: t' end).
    rewrite trimEnd_cons by assumption. now apply tight_space.
Qed.

Lemma trim_collapse_headed s : headed tight (trim (collapseSpaces s)).
Proof.
  unfold trim, collapseSpaces.
  pose proof (trimStart_loose _ (proj1 (collapseFrom_loose s))) as H.
  destruct (trimStart (collapseFrom false s)) as [|c t]; [exact I|].
  destruct H as [Hc Ht].
  rewrite trimEnd_cons by assumption. split; [assumption|].
  now apply trimEnd_loose.
Qed.

Lemma tight_fixed t :
  tight t -> collapseFrom false t = t /\ trimEnd t = t.
Proof.
  induction 1 as [|c t Hc Ht [IH1 IH2]|d u Hd Hu [IH1 IH2]].
  - split; reflexivity.
  - split.
    + cbn [collapseFrom]. rewrite Hc. now rewrite IH1.
    + rewrite trimEnd_cons by assumption. now rewrite IH2.
  - split.
    + cbn [collapseFrom]. change (isSpace SP) with true. cbn [collapseFrom].
      rewrite Hd. now rewrite IH1.
    + change (trimEnd (SP :: d :: u))
        with (match trimEnd (d :: u) with [] => [] | t' => SP :: t' end).
      rewrite trimEnd_cons by assumption. now rewrite IH2.
Qed.

Lemma headed_tight_fixed s :
  headed tight s -> trim (collapseSpaces s) = s.
Proof.
  destruct s as [|c t]; [reflexivity|].
  intros [Hc Ht]. destruct (tight_fixed _ Ht) as [H1 H2].
  unfold trim, collapseSpaces. cbn [collapseFrom]. rewrite Hc, H1.
  cbn [trimStart]. rewrite Hc.
  rewrite trimEnd_cons by assumption. now rewrite H2.
Qed.

(** C9.  [normalize] is idempotent: for every text [x],
    [normalize (normalize x)] is [normalize x].  The letter passes leave
    none of the code units they rewrite or delete, and what the white-space
    pass returns has single spaces between words and none at either end,
    so a second run changes nothing. *)
Theorem normalize_idempotent (x : jsstring) :
  normalize (normalize x) = normalize x.
Proof.
  destruct x as [|c x]; [reflexivity|].
  change (normalize (c :: x))
    with (trim (collapseSpaces (normalizeLetters (c :: x)))).
  set (y := trim (collapseSpaces (normalizeLetters (c :: x)))).
  assert (Hs : forallb stable y = true).
  { unfold y, trim, collapseSpaces.
    apply trimEnd_forallb, trimStart_forallb, collapseFrom_forallb;
      [reflexivity | apply normalizeLetters_stable]. }
  assert (Hn : headed tight y) by apply trim_collapse_headed.
  clearbody y. destruct y as [|d y']; [reflexivity|].
  unfold normalize. rewrite normalizeLetters_fixed by assumption.
  now apply headed_tight_fixed.
Qed.

End NormalizerFacts.

(* ================================================================== *)
(** * Facts on the matcher *)
(* ================================================================== *)

Module MatcherFacts.
Import JS Matcher MatcherNotions JSFacts.

(** ** Thresholds *)

Lemma atLeast_spec x t : atLeast x t = true <-> (Q2R t <= x)%R.
Proof.
  unfold atLeast. destruct (Rle_dec _ _); split; auto; try discriminate; tauto.
Qed.

Lemma atLeast_no x t : (x < Q2R t)%R -> atLeast x t = false.
Proof.
  intros H. destruct (atLeast x t) eqn:E; auto.
  apply atLeast_spec in E. lra.
Qed.

Lemma atLeast_yes x t : (Q2R t <= x)%R -> atLeast x t = true.
Proof. apply atLeast_spec. Qed.

Lemma atLeast_true x t : atLeast x t = true -> (x >= Q2R t)%R.
Proof. intros H. apply atLeast_spec in H. lra. Qed.

Lemma atLeast_false x t : atLeast x t = false -> ~ (x >= Q2R t)%R.
Proof.
  intros H G. rewrite atLeast_yes in H by lra. discriminate.
Qed.

Lemma Q2R_value q n d :
  (q == n # d)%Q -> Q2R q = (IZR n / IZR (Zpos d))%R.
Proof. intros H. rewrite (Qeq_eqR _ _ H). reflexivity. Qed.

(** ** The fuzzy step on plain texts *)

(** When no early exit applies and neither text holds a number or Arabic
    script, [smartMatch] is the fuzzy comparison of the lower-cased texts. *)
Lemma smartMatch_fuzzy cfg a b :
  str_eqb (trim a) [] = false ->
  str_eqb (trim b) [] = false ->
  str_eqb (trim a) (trim b) = false ->
  str_eqb (toLowerCase (trim a)) (toLowerCase (trim b)) = false ->
  parseFloat (keepNumeric (trim a)) = None ->
  ArabicNormalizer.isArabic (trim a) || ArabicNormalizer.isArabic (trim b) = false ->
  smartMatch cfg (VString a) (VString b)
  = fuzzyMatch cfg (toLowerCase (trim a)) (toLowerCase (trim b)).
Proof.
  intros Ha Hb Hab Hl Hn Har.
  unfold smartMatch, textMatch.
  cbn [isNullish toString andb orb].
  rewrite Ha, Hb, Hab, Hl, Hn, Har. cbn [andb orb].
  now rewrite andb_false_r.
Qed.

(** C1.  The score of [smartMatch] is not always within [0, 1]: for the two
    ten-word texts "a b c d e f g h i wxya" and "a b c d e f g h i wxyb" the
    token set ratio is 9/10 + 0.3 * 0.5 * 0.75 = 81/80, it is the best of
    the three fuzzy scores, and [smartMatch] returns it as its score. *)
Theorem smartMatch_score_above_one :
  score (smartMatch config (VString wide_a) (VString wide_b)) = Q2R (81 # 80)
  /\ (1 < score (smartMatch config (VString wide_a) (VString wide_b)))%R.
Proof.
  assert (E : score (smartMatch config (VString wide_a) (VString wide_b))
              = Q2R (81 # 80)).
  { rewrite smartMatch_fuzzy by (vm_compute; reflexivity).
    unfold fuzzyMatch. cbn [score].
    apply Qeq_eqR. vm_compute. reflexivity. }
  split; [exact E|].
  rewrite E. unfold Q2R. cbn [Qnum Qden]. lra.
Qed.

Lemma smartMatch_names_ab :
  score (smartMatch config (VString names_a) (VString names_b)) = Q2R (127 # 240).
Proof.
  rewrite smartMatch_fuzzy by (vm_compute; reflexivity).
  unfold fuzzyMatch. cbn [score]. apply Qeq_eqR. vm_compute. reflexivity.
Qed.

Lemma smartMatch_names_ba :
  score (smartMatch config (VString names_b) (VString names_a)) = Q2R (19 # 40).
Proof.
  rewrite smartMatch_fuzzy by (vm_compute; reflexivity).
  unfold fuzzyMatch. cbn [score]. apply Qeq_eqR. vm_compute. reflexivity.
Qed.

(** C2, as stated, fails: [smartMatch] of "john smith" and "smith jon x"
    scores 127/240, and 19/40 with the arguments exchanged, because the
    partial-match bonus of the token set ratio averages over the unmatched
    words of the first text only. *)
Lemma smartMatch_not_symmetric :
  ~ (forall a b : value,
       score (smartMatch config a b) = score (smartMatch config b a)).
Proof.
  intros H. specialize (H (VString names_a) (VString names_b)).
  rewrite smartMatch_names_ab, smartMatch_names_ba in H.
  unfold Q2R in H. cbn [Qnum Qden] in H. lra.
Qed.

(** ** Symmetry of the steps before fuzzy scoring *)

Lemma Qeq_bool_proper x x' y y' :
  (x == x')%Q -> (y == y')%Q -> Qeq_bool x y = Qeq_bool x' y'.
Proof.
  intros Hx Hy.
  destruct (Qeq_bool x y) eqn:E, (Qeq_bool x' y') eqn:E'; auto.
  - apply Qeq_bool_iff in E. apply Qeq_bool_neq in E'.
    exfalso. apply E'. now rewrite <- Hx, <- Hy.
  - apply Qeq_bool_iff in E'. apply Qeq_bool_neq in E.
    exfalso. apply E. now rewrite Hx, Hy.
Qed.

Lemma Qle_bool_proper x x' y :
  (x == x')%Q -> Qle_bool x y = Qle_bool x' y.
Proof.
  intros Hx.
  destruct (Qle_bool x y) eqn:E, (Qle_bool x' y) eqn:E'; auto.
  - apply Qle_bool_iff in E. rewrite Hx in E. apply Qle_bool_iff in E.
    congruence.
  - apply Qle_bool_iff in E'. rewrite <- Hx in E'. apply Qle_bool_iff in E'.
    congruence.
Qed.

Lemma numericMatch_sym cfg a b :
  score (numericMatch cfg a b) = score (numericMatch cfg b a)
  /\ type (numericMatch cfg a b) = type (numericMatch cfg b a).
Proof.
  unfold numericMatch.
  rewrite (Qeq_bool_comm b a).
  destruct (Qeq_bool a b); [now split|].
  rewrite (Qabs_Qminus b a).
  assert (Havg : ((Qabs a + Qabs b) / 2 == (Qabs b + Qabs a) / 2)%Q)
    by now rewrite Qplus_comm.
  rewrite (@Qeq_bool_proper _ _ 0%Q 0%Q Havg (Qeq_refl _)).
  destruct (Qeq_bool ((Qabs b + Qabs a) / 2) 0); [now split|].
  assert (Hpd : (Qabs (a - b) / ((Qabs a + Qabs b) / 2)
                 == Qabs (a - b) / ((Qabs b + Qabs a) / 2))%Q)
    by now rewrite Havg.
  rewrite (@Qle_bool_proper _ _ (numericTolerance cfg) Hpd).
  destruct (Qle_bool _ (numericTolerance cfg)); cbn [score type]; split; auto.
  - apply Qeq_eqR. now rewrite Hpd.
  - now rewrite (Qeq_eqR _ _ Hpd).
Qed.

Lemma fuzzyMatch_type cfg a b : beforeFuzzy (type (fuzzyMatch cfg a b)) = false.
Proof.
  unfold fuzzyMatch. cbn [type].
  repeat match goal with |- context [if ?c then _ else _] => destruct c end;
    reflexivity.
Qed.

Lemma textMatch_sym cfg a b :
  beforeFuzzy (type (textMatch cfg a b)) = true ->
  score (textMatch cfg a b) = score (textMatch cfg b a).
Proof.
  unfold textMatch.
  rewrite (orb_comm (ArabicNormalizer.isArabic b)).
  rewrite (str_eqb_sym (ArabicNormalizer.clean b)).
  destruct (useArabicNormalization cfg && _).
  - destruct (str_eqb _ _); [reflexivity|].
    rewrite fuzzyMatch_type. discriminate.
  - rewrite fuzzyMatch_type. discriminate.
Qed.

(** C2, amended.  Whenever [smartMatch a b] is settled before the fuzzy
    algorithms are consulted (its type is exact, missing, normalized,
    numeric or numeric_tolerance), [smartMatch b a] has the same score, for
    every configuration and every pair of values. *)
Theorem smartMatch_symmetric_before_fuzzy cfg (a b : value) :
  beforeFuzzy (type (smartMatch cfg a b)) = true ->
  score (smartMatch cfg a b) = score (smartMatch cfg b a).
Proof.
  unfold smartMatch.
  rewrite (andb_comm (isNullish b)), (orb_comm (isNullish b)).
  destruct (isNullish a && isNullish b); [reflexivity|].
  destruct (isNullish a || isNullish b); [reflexivity|].
  set (strA := trim (toString a)). set (strB := trim (toString b)).
  rewrite (andb_comm (str_eqb strB [])), (orb_comm (str_eqb strB [])).
  destruct (str_eqb strA [] && str_eqb strB []); [reflexivity|].
  destruct (str_eqb strA [] || str_eqb strB []); [reflexivity|].
  rewrite (str_eqb_sym strB strA).
  destruct (str_eqb strA strB); [reflexivity|].
  rewrite (str_eqb_sym (toLowerCase strB)).
  destruct (str_eqb (toLowerCase strA) (toLowerCase strB)); [reflexivity|].
  destruct (parseFloat (keepNumeric strA)) as [numA|],
           (parseFloat (keepNumeric strB)) as [numB|];
    try apply textMatch_sym.
  destruct (numericMatch_sym cfg numA numB) as [Hs Ht].
  rewrite <- Hs.
  destruct (atLeast (score (numericMatch cfg numA numB)) (similarThreshold cfg));
    [intros _; exact Hs | apply textMatch_sym].
Qed.

Lemma smartMatch_symmetric_before_fuzzy_witness :
  beforeFuzzy (type (smartMatch config (VString (lit "Cairo"))
                                       (VString (lit "CAIRO")))) = true
  /\ score (smartMatch config (VString (lit "Cairo")) (VString (lit "CAIRO")))
     = score (smartMatch config (VString (lit "CAIRO")) (VString (lit "Cairo"))).
Proof.
  split.
  - reflexivity.
  - apply (smartMatch_symmetric_before_fuzzy config
             (VString (lit "Cairo")) (VString (lit "CAIRO"))).
    reflexivity.
Defined.

(** ** numericMatch at the three sample pairs *)

Lemma numericMatch_tolerance cfg a b :
  Qeq_bool a b = false ->
  Qeq_bool ((Qabs a + Qabs b) / 2) 0 = false ->
  Qle_bool (percentDiff a b) (numericTolerance cfg) = true ->
  numericMatch cfg a b
  = mkResult (Q2R (1 - percentDiff a b)) NumericTolerance true None []
             (Some (Qabs (a - b))).
Proof.
  intros H1 H2 H3. unfold numericMatch, percentDiff in *.
  now rewrite H1, H2, H3.
Qed.

Lemma numericMatch_decay cfg a b :
  Qeq_bool a b = false ->
  Qeq_bool ((Qabs a + Qabs b) / 2) 0 = false ->
  Qle_bool (percentDiff a b) (numericTolerance cfg) = false ->
  numericMatch cfg a b
  = mkResult (exp (- Q2R (percentDiff a b) * 5)) Numeric
             (atLeast (exp (- Q2R (percentDiff a b) * 5))
                      (weakMatchThreshold cfg))
             None [] (Some (Qabs (a - b))).
Proof.
  intros H1 H2 H3. unfold numericMatch, percentDiff in *.
  now rewrite H1, H2, H3.
Qed.

Local Open Scope R_scope.

(** [exp y >= 1 + y] at [y = -5/42], four times over. *)
Lemma exp_10_21_lower : 6 / 10 <= exp (- (10 / 105) * 5).
Proof.
  replace (- (10 / 105) * 5)
    with ((-5/42) + (-5/42) + ((-5/42) + (-5/42))) by lra.
  rewrite !exp_plus.
  pose proof (exp_ineq1_le (-5/42)) as H.
  set (e := exp (-5/42)) in *.
  assert (H2 : (37/42) * (37/42) <= e * e) by nra.
  nra.
Qed.

Lemma exp_10_3_upper : exp (- (100 / 150) * 5) < 6 / 10.
Proof.
  pose proof (exp_ineq1_le (10/3)) as H.
  pose proof (exp_pos (- (100 / 150) * 5)) as Hp.
  assert (E : exp (- (100 / 150) * 5) * exp (10/3) = 1).
  { rewrite <- exp_plus. replace (- (100 / 150) * 5 + 10 / 3) with 0 by lra.
    apply exp_0. }
  set (u := exp (- (100 / 150) * 5)) in *. set (v := exp (10/3)) in *.
  nra.
Qed.

(** C8.  Under the default configuration, [numericMatch 100 101] has type
    numeric_tolerance, score [1 - 1/100.5] and is matched;
    [numericMatch 100 110] has type numeric, score [e^(-(10/105) * 5)] and
    is matched; [numericMatch 100 200] has score [e^(-(100/150) * 5)] and
    is not matched. *)
Theorem numericMatch_examples :
  (type (numericMatch config 100 101) = NumericTolerance
   /\ score (numericMatch config 100 101) = 1 - 1 / 100.5
   /\ matched (numericMatch config 100 101) = true)
  /\ (type (numericMatch config 100 110) = Numeric
      /\ score (numericMatch config 100 110) = exp (- (10 / 105) * 5)
      /\ matched (numericMatch config 100 110) = true)
  /\ (score (numericMatch config 100 200) = exp (- (100 / 150) * 5)
      /\ matched (numericMatch config 100 200) = false).
Proof.
  split; [|split].
  - rewrite numericMatch_tolerance by reflexivity. cbn [score type matched].
    split; [reflexivity|split; [|reflexivity]].
    rewrite (@Q2R_value _ 199 201) by reflexivity. lra.
  - rewrite numericMatch_decay by reflexivity. cbn [score type matched].
    rewrite (@Q2R_value (percentDiff 100 110) 2 21) by reflexivity.
    replace (- (IZR 2 / IZR 21) * 5) with (- (10 / 105) * 5) by lra.
    split; [reflexivity|split; [reflexivity|]].
    apply atLeast_yes. cbn [config weakMatchThreshold].
    rewrite (@Q2R_value (6 # 10) 6 10) by reflexivity.
    apply exp_10_21_lower.
  - rewrite numericMatch_decay by reflexivity. cbn [score type matched].
    rewrite (@Q2R_value (percentDiff 100 200) 2 3) by reflexivity.
    replace (- (IZR 2 / IZR 3) * 5) with (- (100 / 150) * 5) by lra.
    split; [reflexivity|].
    apply atLeast_no. cbn [config weakMatchThreshold].
    rewrite (@Q2R_value (6 # 10) 6 10) by reflexivity.
    apply exp_10_3_upper.
Qed.

End MatcherFacts.

(* ================================================================== *)
(** * Facts on the key detector *)
(* ================================================================== *)

Module KeyDetectorFacts.
Import JS KeyDetector KeyDetectorNotions JSFacts.




(** ** Texts made of digits *)







Section Digits.
Variable s : jsstring.
Hypothesis Hs : forallb isDigit s = true.







End Digits.






End KeyDetectorFacts.

(* ================================================================== *)
(** * Facts on the file parser *)
(* ================================================================== *)

Module FileParserFacts.
Import JS FileParser FileParserNotions JSFacts.

Lemma extractSheet_fold wb acc :
  List.map (fun s => (sheetName s, rowCount s)) (fold_left extractSheet wb acc)
  = List.map (fun s => (sheetName s, rowCount s)) acc
    ++ List.map (fun e => (fst e, List.length (snd e) - 1))
                (List.filter hasHeaderRow wb).
Proof.
  revert acc. induction wb as [|[nm data] wb IH]; intros acc; simpl.
  - now rewrite app_nil_r.
  - rewrite IH. destruct data as [|first rest]; simpl; [reflexivity|].
    rewrite map_app, <- app_assoc. simpl.
    unfold mapi. now rewrite length_mapi_from, Nat.sub_0_r.
Qed.

(** C4, amended.  The sheets of the extracted file are exactly the sheets
    for which the library returned at least one row, in workbook order,
    each with one row less than the library returned: a sheet with no row
    at all is left out, a sheet with only a header row is kept with
    [rowCount] 0. *)
Theorem extractWorkbookData_sheets (wb : Workbook) (fileName : jsstring) :
  outline (extractWorkbookData wb fileName)
  = List.map (fun e => (fst e, List.length (snd e) - 1))
             (List.filter hasHeaderRow wb).
Proof.
  unfold outline, extractWorkbookData. cbn [sheets].
  now rewrite extractSheet_fold.
Qed.

(** C4, as stated, fails: the sheet "Sheet1" holding only the header row
    "ID", "Name" is among the sheets of the extracted file. *)
Lemma header_only_sheet_is_kept :
  ~ (forall (wb : Workbook) (fileName nm : jsstring) (headerRow : list value),
       In (nm, [headerRow]) wb ->
       ~ In nm (List.map sheetName (sheets (extractWorkbookData wb fileName)))).
Proof.
  intros H.
  apply (H header_only_book (lit "staff.xlsx") (lit "Sheet1")
           [VString (lit "ID"); VString (lit "Name")]).
  - left. reflexivity.
  - left. reflexivity.
Qed.

(** C5, amended.  Every sheet [prepareForComparison] returns comes from a
    sheet of one of the parsed files; when that file has exactly one sheet
    the label is the file name alone, and when it has several the label is
    "<fileName> - <sheetName>". *)
Theorem prepareForComparison_labels (parsedFiles : list ParsedFile)
    (cs : ComparisonSheet) :
  In cs (psheets (prepareForComparison parsedFiles)) ->
  exists file sheet,
    In file parsedFiles /\ In sheet (sheets file)
    /\ cfileName cs = fileName file /\ csheetName cs = sheetName sheet
    /\ (List.length (sheets file) = 1 -> label cs = fileName file)
    /\ (1 < List.length (sheets file) ->
        label cs = fileName file ++ lit " - " ++ sheetName sheet).
Proof.
  unfold prepareForComparison. cbn [psheets]. intros H.
  apply in_concat in H as [l [Hl Hcs]].
  apply in_mapi_from in Hl as [file [fi [Hfile ->]]].
  apply in_mapi_from in Hcs as [sheet [si [Hsheet ->]]].
  exists file, sheet. unfold prepareSheet. cbn [cfileName csheetName label].
  repeat split; auto.
  - intros ->. reflexivity.
  - intros Hlt. apply Nat.ltb_lt in Hlt. now rewrite Hlt.
Qed.

Lemma prepareForComparison_labels_witness :
  In staff_entry (psheets (prepareForComparison [single_sheet_file]))
  /\ exists file sheet,
       In file [single_sheet_file] /\ In sheet (sheets file)
       /\ cfileName staff_entry = fileName file
       /\ csheetName staff_entry = sheetName sheet
       /\ (List.length (sheets file) = 1 -> label staff_entry = fileName file)
       /\ (1 < List.length (sheets file) ->
           label staff_entry = fileName file ++ lit " - " ++ sheetName sheet).
Proof.
  split.
  - left. reflexivity.
  - apply (prepareForComparison_labels [single_sheet_file] staff_entry).
    left. reflexivity.
Defined.

(** C5, as stated, fails: the one sheet "Sheet1" of the file "staff.xlsx"
    is labelled "staff.xlsx", not "Sheet1". *)
Lemma single_sheet_label_is_not_sheet_name :
  ~ (forall (parsedFiles : list ParsedFile) (file : ParsedFile)
            (cs : ComparisonSheet),
       In file parsedFiles -> List.length (sheets file) = 1 ->
       In cs (psheets (prepareForComparison parsedFiles)) ->
       cfileName cs = fileName file ->
       label cs = csheetName cs).
Proof.
  intros H.
  specialize (H [single_sheet_file] single_sheet_file staff_entry).
  assert (E : lit "staff.xlsx" = lit "Sheet1").
  { apply H; try reflexivity; left; reflexivity. }
  vm_compute in E. discriminate E.
Qed.

End FileParserFacts.

(* ================================================================== *)
(** * Facts on the reporter *)
(* ================================================================== *)

Module ReporterFacts.
Import JS Reporter ReporterNotions JSFacts.

(** The analysis over the real numbers, written out. *)
Lemma tallyColumn_eq cfg record t column :
  tallyColumn cfg record t column
  = let comparison := compareColumnValues cfg (columnValues record column) in
    mkTally (assign (comparisons t) column comparison)
            (totalScore t + score comparison)%R
            (if isConflict comparison then true else hasConflict t)
            (if isFuzzy comparison then true else hasFuzzyMatch t).
Proof. reflexivity. Qed.

Lemma analyzeRecord_eq cfg record sheetCount columnsToCompare :
  analyzeRecord cfg record sheetCount columnsToCompare
  = let presentInSheets :=
      List.length (List.filter isPresent (sheetPresence record)) in
    if Nat.ltb presentInSheets sheetCount
    then
      let missingIn :=
        foldi (fun acc presence idx =>
                 if isPresent presence then acc else acc ++ [idx])
              (sheetPresence record) [] in
      mkAnalysis missing presentInSheets sheetCount (Some missingIn)
                 (INR presentInSheets / INR sheetCount)%R None
    else
      let t := fold_left (tallyColumn cfg record) columnsToCompare
                         (mkTally [] 0%R false false) in
      let avgScore :=
        if Nat.ltb 0 (List.length columnsToCompare)
        then (totalScore t / INR (List.length columnsToCompare))%R
        else 1%R in
      let st :=
        if hasConflict t && below avgScore (1 # 2) then conflict
        else if Matcher.atLeast avgScore (95 # 100) then matched
        else if Matcher.atLeast avgScore (Matcher.similarThreshold cfg)
        then similar
        else conflict in
      mkAnalysis st presentInSheets sheetCount None avgScore
                 (Some (comparisons t)).
Proof. reflexivity. Qed.

(** ** Rows without key never enter a record *)

Lemma present_repeat_None n : present (repeat None n) = [].
Proof. induction n; simpl; auto. Qed.

Lemma present_setAt (P : object -> Prop) i r l :
  P r -> Forall P (present l) -> Forall P (present (setAt i (Some r) l)).
Proof.
  intros Hr. revert i.
  induction l as [|p l IH]; intros i H; [destruct i; exact H|].
  assert (Hl : Forall P (present l)).
  { destruct p; simpl in H; [now inversion H | assumption]. }
  destruct i as [|i]; simpl.
  - now constructor.
  - destruct p; simpl in *.
    + inversion H; subst. constructor; auto.
    + auto.
Qed.

Lemma addRow_keyed n si lbl keyCol m r ri :
  Forall (fun e => keyed keyCol (snd e)) m ->
  Forall (fun e => keyed keyCol (snd e)) (addRow n si lbl keyCol m r ri).
Proof.
  intros Hm. unfold addRow.
  destruct (isNullish (getProp r keyCol)
            || str_eqb (trim (toString (getProp r keyCol))) []) eqn:Hb;
    [assumption|].
  set (k := trim (toString (getProp r keyCol))).
  set (m1 := if hasKey m k then m else _).
  assert (Hm1 : Forall (fun e => keyed keyCol (snd e)) m1).
  { unfold m1. destruct (hasKey m k); [assumption|].
    apply setProp_Forall; [assumption|].
    unfold keyed, rowsOf. simpl. rewrite present_repeat_None. constructor. }
  destruct (getKey m1 k) as [rec|] eqn:Hg; [|assumption].
  apply setProp_Forall; [assumption|].
  pose proof (getKey_Forall (keyed keyCol) m1 k rec Hm1 Hg) as Hrec.
  unfold keyed, rowsOf in *. simpl.
  apply Forall_app in Hrec as [Ho Hp].
  rewrite map_app. simpl.
  apply Forall_app. split.
  - apply Forall_app. split; [assumption|]. now repeat constructor.
  - now apply present_setAt.
Qed.

Lemma buildRecordMap_keyed sheets keyCol :
  Forall (fun e => keyed keyCol (snd e)) (buildRecordMap sheets keyCol).
Proof.
  unfold buildRecordMap, foldi.
  apply foldi_from_invariant; [|constructor].
  intros m sheet i _ Hm. unfold foldi.
  apply foldi_from_invariant; [|assumption].
  intros m' r ri _ Hm'. now apply addRow_keyed.
Qed.

(** ** The category lists are the records of each status *)

Lemma classify_fold cfg n cols m res :
  let recs := List.map (analysed cfg n cols) m in
  fold_left (classify cfg n cols) m res
  = mkResults (exactMatches res ++ List.filter (hasStatus matched) recs)
              (fuzzyMatches res ++ List.filter (hasStatus similar) recs)
              (differences res ++ List.filter (hasStatus missing) recs)
              (conflicts res ++ List.filter (hasStatus conflict) recs)
              (all res ++ recs).
Proof.
  revert res. induction m as [|e m IH]; intros res; simpl.
  - rewrite !app_nil_r. now destruct res.
  - rewrite IH. unfold classify at 1 2 3 4 5. fold (analysed cfg n cols e).
    unfold hasStatus at 1 3 5 7. cbn [status analysed].
    destruct (astatus (analyzeRecord cfg (snd e) n cols));
      cbn [exactMatches fuzzyMatches differences conflicts all];
      rewrite <- ?app_assoc; reflexivity.
Qed.

Lemma buildReport_results cfg sheets keyCol options :
  let recs := List.map (analysed cfg (List.length sheets)
                          (columnsToCompare sheets keyCol options))
                       (buildRecordMap sheets keyCol) in
  results (buildReport cfg sheets keyCol options)
  = mkResults (List.filter (hasStatus matched) recs)
              (List.filter (hasStatus similar) recs)
              (List.filter (hasStatus missing) recs)
              (List.filter (hasStatus conflict) recs)
              recs.
Proof.
  unfold buildReport. cbn [results].
  fold (columnsToCompare sheets keyCol options).
  now rewrite classify_fold.
Qed.

Lemma compareSheets_report cfg sheets keyCol options rep :
  snd (compareSheets cfg sheets keyCol options) = Some rep ->
  exists cfg', rep = buildReport cfg' sheets keyCol options.
Proof.
  unfold compareSheets. destruct (Nat.ltb _ 2); simpl; [discriminate|].
  intros [= <-]. eauto.
Qed.

(** No record holds a row on which the key test of [compareSheets] fires:
    a row that reads [undefined], [null] or a blank text under the key
    column.  This holds of the record map and of every list of a report. *)
Lemma compareSheets_key_test cfg sheets keyCol options :
  (forall e, In e (buildRecordMap sheets keyCol) ->
     forall r, In r (rowsOf (snd e)) -> blankKey keyCol r = false)
  /\ (forall rep,
        snd (compareSheets cfg sheets keyCol options) = Some rep ->
        forall rec, In rec (buckets (results rep)) ->
        forall r, In r (rowsOf rec) -> blankKey keyCol r = false).
Proof.
  pose proof (buildRecordMap_keyed sheets keyCol) as Hk.
  rewrite Forall_forall in Hk.
  assert (Hmap : forall e, In e (buildRecordMap sheets keyCol) ->
            forall r, In r (rowsOf (snd e)) -> blankKey keyCol r = false).
  { intros e He r Hr. specialize (Hk e He).
    unfold keyed in Hk. rewrite Forall_forall in Hk. now apply Hk. }
  split; [exact Hmap|].
  intros rep H rec Hin r Hr.
  destruct (compareSheets_report _ _ _ _ _ H) as [cfg2 ->].
  rewrite buildReport_results in Hin. unfold buckets in Hin.
  cbn [exactMatches fuzzyMatches differences conflicts all] in Hin.
  assert (Hrec : In rec (List.map (analysed cfg2 (List.length sheets)
                            (columnsToCompare sheets keyCol options))
                          (buildRecordMap sheets keyCol))).
  { repeat (apply in_app_or in Hin as [Hin|Hin];
            [apply filter_In in Hin; tauto|]).
    exact Hin. }
  apply in_map_iff in Hrec as [e [<- He]].
  exact (Hmap e He r Hr).
Qed.

Lemma getProp_own (r : object) (k : jsstring) :
  getProp r k = match getKey r k with
                | Some v => v
                | None => inherited k
                end.
Proof.
  unfold getKey. induction r as [|[k' v] r IH]; cbn [getProp List.find fst];
    [reflexivity|].
  destruct (str_eqb k' k); [reflexivity | exact IH].
Qed.

(** Under a key column that names no member of [Object.prototype], every
    row a report holds has a key cell of its own, and that cell is neither
    [null], [undefined] nor blank. *)
Lemma compareSheets_own_keys cfg sheets keyCol options rep :
  inherited keyCol = VUndefined ->
  snd (compareSheets cfg sheets keyCol options) = Some rep ->
  forall rec, In rec (buckets (results rep)) ->
  forall r, In r (rowsOf rec) ->
  exists v, getKey r keyCol = Some v
            /\ isNullish v = false /\ trim (toString v) <> [].
Proof.
  intros Hk H rec Hrec r Hr.
  pose proof (proj2 (compareSheets_key_test cfg sheets keyCol options)
                rep H rec Hrec r Hr) as Hb.
  unfold blankKey in Hb. rewrite getProp_own in Hb.
  destruct (getKey r keyCol) as [v|]; [|rewrite Hk in Hb; discriminate].
  apply orb_false_iff in Hb as [H1 H2].
  exists v. repeat split; auto. intros E. rewrite E in H2. discriminate.
Qed.

(** C7.  The claim fails for a key column named like a member of
    [Object.prototype].  Compared on the column "constructor", a sheet that
    has no such column gives rows without a key cell; each of them reads
    the function [Object] under that name, passes the key test, and is
    added to the record whose key is the text of that function: the report
    lists, in [results.all] and in [results.differences], a record that
    holds a row without a key cell. *)
Theorem compareSheets_keeps_row_without_key :
  snd (compareSheets Matcher.config keyless_sheets (lit "constructor") defaults)
  = Some keyless_report
  /\ exists rec r,
       In rec (all (results keyless_report))
       /\ In rec (differences (results keyless_report))
       /\ In r (rowsOf rec)
       /\ hasKey r (lit "constructor") = false
       /\ key rec = lit "function Object() { [native code] }".
Proof.
  split; [reflexivity|].
  exists (analysed (Matcher.setSimilarThreshold Matcher.config (75 # 100)) 2
            [lit "City"; lit "ID"]
            (lit "function Object() { [native code] }",
             mkRecord (lit "function Object() { [native code] }")
                      [mkOccurrence 1 (lit "d.xlsx") keyless_row 0]
                      [None; Some keyless_row] unknown None)).
  exists keyless_row.
  split; [right; left; reflexivity|].
  split; [right; left; reflexivity|].
  split; [left; reflexivity|].
  split; reflexivity.
Qed.

Lemma analyzeRecord_status cfg rec n cols :
  astatus (analyzeRecord cfg rec n cols) <> unknown.
Proof.
  rewrite analyzeRecord_eq. cbv zeta.
  repeat match goal with
         | |- context [if ?c then _ else _] => destruct c
         end; cbn [astatus]; discriminate.
Qed.

Lemma hasStatus_iff s r : hasStatus s r = true <-> status r = s.
Proof. unfold hasStatus. destruct s, (status r); split; congruence. Qed.

Lemma filter_lengths (l : list RecordEntry) :
  Forall (fun r => status r <> unknown) l ->
  List.length l
  = List.length (List.filter (hasStatus matched) l)
    + List.length (List.filter (hasStatus similar) l)
    + List.length (List.filter (hasStatus missing) l)
    + List.length (List.filter (hasStatus conflict) l).
Proof.
  assert (step : forall f (r : RecordEntry) t,
             List.length (List.filter f (r :: t))
             = (if f r then 1 else 0) + List.length (List.filter f t)).
  { intros f r t. simpl. now destruct (f r). }
  induction 1 as [|r l Hr Hl IH]; [reflexivity|].
  rewrite !step. cbn [List.length]. rewrite IH. unfold hasStatus.
  destruct (status r); try congruence; lia.
Qed.

(** C10.  In every report [compareSheets] returns, each record of
    [results.all] has a status other than 'unknown' and is in exactly one
    of the four category lists; [summary.totalRecords] is the length of
    [results.all] and the sum of the lengths of the four lists, and the
    four counts of the summary are those lengths. *)
Theorem compareSheets_partition cfg sheets keyCol options rep :
  snd (compareSheets cfg sheets keyCol options) = Some rep ->
  (forall r, In r (all (results rep)) ->
     status r <> unknown /\ inExactlyOne r (results rep))
  /\ totalRecords (summary rep) = List.length (all (results rep))
  /\ totalRecords (summary rep)
     = List.length (exactMatches (results rep))
       + List.length (fuzzyMatches (results rep))
       + List.length (differences (results rep))
       + List.length (conflicts (results rep))
  /\ nExactMatches (summary rep) = List.length (exactMatches (results rep))
  /\ nFuzzyMatches (summary rep) = List.length (fuzzyMatches (results rep))
  /\ nDifferences (summary rep) = List.length (differences (results rep))
  /\ nConflicts (summary rep) = List.length (conflicts (results rep)).
Proof.
  intros H. destruct (compareSheets_report _ _ _ _ _ H) as [cfg2 ->].
  pose proof (buildReport_results cfg2 sheets keyCol options) as E.
  cbv zeta in E.
  set (recs := List.map _ (buildRecordMap sheets keyCol)) in E.
  assert (Hknown : Forall (fun r => status r <> unknown) recs).
  { apply Forall_forall. intros r Hr. apply in_map_iff in Hr as [e [<- _]].
    apply analyzeRecord_status. }
  assert (Htotal : totalRecords (summary (buildReport cfg2 sheets keyCol options))
                   = List.length recs).
  { unfold recs. rewrite length_map. reflexivity. }
  split; [|split; [|split; [|repeat split]]].
  - intros r Hr. rewrite E in *.
    cbn [all exactMatches fuzzyMatches differences conflicts] in *.
    rewrite Forall_forall in Hknown. specialize (Hknown r Hr).
    split; [assumption|].
    unfold inExactlyOne. cbn [exactMatches fuzzyMatches differences conflicts].
    rewrite !filter_In, !hasStatus_iff.
    destruct (status r) eqn:S; try congruence.
    + left. repeat split; auto; intros [_ ?]; discriminate.
    + right; left. repeat split; auto; intros [_ ?]; discriminate.
    + right; right; left. repeat split; auto; intros [_ ?]; discriminate.
    + right; right; right. repeat split; auto; intros [_ ?]; discriminate.
  - rewrite Htotal, E. reflexivity.
  - rewrite Htotal, E. cbn [exactMatches fuzzyMatches differences conflicts].
    now apply filter_lengths.
Qed.

Lemma compareSheets_partition_witness :
  snd (compareSheets Matcher.config two_sheets (lit "ID") defaults)
  = Some two_sheets_report
  /\ (forall r, In r (all (results two_sheets_report)) ->
        status r <> unknown /\ inExactlyOne r (results two_sheets_report))
  /\ totalRecords (summary two_sheets_report)
     = List.length (all (results two_sheets_report)).
Proof.
  split; [reflexivity|].
  destruct (compareSheets_partition
              Matcher.config two_sheets (lit "ID") defaults
              two_sheets_report eq_refl) as [H1 [H2 _]].
  split; [exact H1 | exact H2].
Defined.

(** ** The status ladder *)

Lemma tally_fold cfg rec cols t :
  let t' := fold_left (tallyColumn cfg rec) cols t in
  totalScore t' = (totalScore t + sumScores (comparisonsOf cfg rec cols))%R
  /\ hasConflict t'
     = hasConflict t || existsb isConflict (comparisonsOf cfg rec cols).
Proof.
  revert t. induction cols as [|c cols IH]; intros t; simpl.
  - split; [lra | now rewrite orb_false_r].
  - destruct (IH (tallyColumn cfg rec t c)) as [H1 H2].
    rewrite H1, H2.
    set (x := compareColumnValues cfg (columnValues rec c)).
    change (totalScore (tallyColumn cfg rec t c))
      with (totalScore t + score x)%R.
    change (hasConflict (tallyColumn cfg rec t c))
      with (if isConflict x then true else hasConflict t).
    split; [lra|].
    destruct (isConflict x); simpl; auto. now rewrite orb_true_r.
Qed.

Lemma reaches_true x t : reaches x t = true -> (x >= t)%R.
Proof. unfold reaches. destruct (Rle_dec t x); [lra | discriminate]. Qed.

Lemma reaches_false x t : reaches x t = false -> (x < t)%R.
Proof. unfold reaches. destruct (Rle_dec t x); [discriminate | lra]. Qed.

Lemma tally_fold_on ar compare rec : forall cols t,
  let t' := fold_left (tallyColumnOn ar compare rec) cols t in
  totalScore t'
  = fold_left (fun acc c => fadd ar acc (score c))
              (comparisonsWith compare rec cols) (totalScore t)
  /\ hasConflict t'
     = hasConflict t || existsb isConflict (comparisonsWith compare rec cols).
Proof.
  induction cols as [|c cols IH]; intros t.
  - cbn [fold_left comparisonsWith List.map existsb].
    split; [reflexivity | now rewrite orb_false_r].
  - cbn [fold_left comparisonsWith List.map existsb].
    destruct (IH (tallyColumnOn ar compare rec t c)) as [H1 H2].
    cbv zeta in H1, H2. fold (comparisonsWith compare rec cols).
    rewrite H1, H2.
    change (totalScore (tallyColumnOn ar compare rec t c))
      with (fadd ar (totalScore t) (score (compare (columnValues rec c)))).
    change (hasConflict (tallyColumnOn ar compare rec t c))
      with (if isConflict (compare (columnValues rec c)) then true
            else hasConflict t).
    split; [reflexivity|].
    destruct (isConflict (compare (columnValues rec c))); cbn [orb];
      [now rewrite orb_true_r | reflexivity].
Qed.

(** C6.  For a record present in every compared sheet, whatever the column
    comparisons are and however sums and quotients are rounded:
    [analyzeRecord] reports as [matchScore] the average column score it
    computes, the scores added up in the order of the columns and divided
    by their number, and decides the status by the ladder: conflict if
    some column comparison is flagged [isConflict] and that average is
    below 0.5; otherwise matched if it is at least 0.95; otherwise similar
    if it is at least the active [similarThreshold]; otherwise conflict,
    flagged column or not. *)
Theorem analyzeRecord_ladder (ar : Arith)
    (compare : list value -> ColumnComparison) cfg rec n cols :
  Forall (fun p => isPresent p = true) (sheetPresence rec) ->
  List.length (sheetPresence rec) = n ->
  let comps := comparisonsWith compare rec cols in
  let a := analyzeRecordOn ar compare cfg rec n cols in
  matchScore a = averageOn ar comps
  /\ ladder (exists c, In c comps /\ isConflict c = true)
            (averageOn ar comps)
            (fconst ar (1 # 2)) (fconst ar (95 # 100))
            (fconst ar (Matcher.similarThreshold cfg))
            (astatus a).
Proof.
  intros Hall Hn comps a. unfold a, analyzeRecordOn.
  assert (Hf : List.filter isPresent (sheetPresence rec) = sheetPresence rec)
    by now apply filter_all.
  rewrite Hf, Hn, Nat.ltb_irrefl.
  destruct (tally_fold_on ar compare rec cols (mkTally [] 0%R false false))
    as [Ht Hc].
  cbv zeta in Ht, Hc. cbn [totalScore hasConflict orb] in Ht, Hc.
  fold comps in Ht, Hc.
  set (t := fold_left _ cols _) in *.
  assert (Havg : (if Nat.ltb 0 (List.length cols)
                  then fdiv ar (totalScore t) (INR (List.length cols))
                  else 1%R)
                 = averageOn ar comps).
  { unfold averageOn, sumOn. rewrite Ht.
    assert (Hlen : List.length comps = List.length cols)
      by (unfold comps, comparisonsWith; apply length_map).
    destruct cols as [|c cols]; [reflexivity|].
    destruct comps as [|x comps'] eqn:E; [discriminate|].
    rewrite Hlen. reflexivity. }
  rewrite Havg. cbn [matchScore astatus]. split; [reflexivity|].
  set (avg := averageOn ar comps).
  assert (Hflag : hasConflict t = true
                  <-> exists c, In c comps /\ isConflict c = true).
  { rewrite Hc. apply existsb_exists. }
  destruct (hasConflict t) eqn:Hh; cbn [andb].
  - destruct (reaches avg (fconst ar (1 # 2))) eqn:H5; cbn [negb].
    + apply reaches_true in H5.
      destruct (reaches avg (fconst ar (95 # 100))) eqn:H9.
      * apply reaches_true in H9. apply ladder_matched; [lra | assumption].
      * apply reaches_false in H9.
        destruct (reaches avg (fconst ar (Matcher.similarThreshold cfg)))
          eqn:Hs.
        -- apply reaches_true in Hs. apply ladder_similar; auto; lra.
        -- apply reaches_false in Hs. apply ladder_fallback; lra.
    + apply reaches_false in H5.
      apply ladder_conflict; [now apply Hflag | lra].
  - assert (Hno : ~ (exists c, In c comps /\ isConflict c = true))
      by (intros Hx; apply Hflag in Hx; discriminate).
    destruct (reaches avg (fconst ar (95 # 100))) eqn:H9.
    + apply reaches_true in H9. apply ladder_matched; [tauto | assumption].
    + apply reaches_false in H9.
      destruct (reaches avg (fconst ar (Matcher.similarThreshold cfg))) eqn:Hs.
      * apply reaches_true in Hs. apply ladder_similar; [tauto | lra | lra].
      * apply reaches_false in Hs. apply ladder_fallback; [tauto | lra | lra].
Qed.

Lemma analyzeRecord_ladder_witness :
  matchScore (analyzeRecord Matcher.config north_south 2 [lit "City"])
  = averageOn exact
      (comparisonsWith (compareColumnValues Matcher.config) north_south
                       [lit "City"])
  /\ ladder (exists c,
               In c (comparisonsWith (compareColumnValues Matcher.config)
                                     north_south [lit "City"])
               /\ isConflict c = true)
            (averageOn exact
               (comparisonsWith (compareColumnValues Matcher.config)
                                north_south [lit "City"]))
            (Q2R (1 # 2)) (Q2R (95 # 100))
            (Q2R (Matcher.similarThreshold Matcher.config))
            (astatus (analyzeRecord Matcher.config north_south 2 [lit "City"])).
Proof.
  apply (analyzeRecord_ladder exact (compareColumnValues Matcher.config)
           Matcher.config north_south 2 [lit "City"]).
  - repeat constructor.
  - reflexivity.
Defined.

(** ** The fallback at work *)

Lemma north_south_score :
  Matcher.score (Matcher.smartMatch Matcher.config
                   (VString (lit "north")) (VString (lit "south")))
  = Q2R (11 # 15).
Proof.
  rewrite MatcherFacts.smartMatch_fuzzy by (vm_compute; reflexivity).
  unfold Matcher.fuzzyMatch. cbn [Matcher.score].
  apply Qeq_eqR. vm_compute. reflexivity.
Qed.

Lemma north_south_comparison :
  compareColumnValues Matcher.config (columnValues north_south (lit "City"))
  = mkComparison (Q2R (11 # 15)) false false true
      (Some [VString (lit "north"); VString (lit "south")]) (Some 0%R).
Proof.
  unfold compareColumnValues.
  change (columnValues north_south (lit "City"))
    with [VString (lit "north"); VString (lit "south")].
  cbn [List.filter isNullish negb pairs List.map app fold_left fst snd].
  rewrite north_south_score.
  assert (H : (Q2R (11 # 15) = 11 / 15)%R) by (unfold Q2R; cbn; lra).
  rewrite Rmin_right by lra. rewrite Rmax_right by lra.
  unfold below.
  rewrite (MatcherFacts.atLeast_no (Q2R (11 # 15)) (99 # 100)) by lra.
  rewrite (MatcherFacts.atLeast_yes (Q2R (11 # 15)) (6 # 10)) by lra.
  cbn [negb andb]. f_equal; [lra | f_equal; lra].
Qed.

(** "north" against "south" scores 11/15: no column is flagged as a
    conflict, yet under the default threshold the record is one. *)
Lemma fallback_without_flagged_column :
  astatus (analyzeRecord Matcher.config north_south 2 [lit "City"]) = conflict
  /\ Forall (fun c => isConflict c = false)
            (comparisonsOf Matcher.config north_south [lit "City"]).
Proof.
  split.
  - rewrite analyzeRecord_eq. cbv zeta.
    change (List.length (List.filter isPresent (sheetPresence north_south)))
      with 2.
    cbn [Nat.ltb Nat.leb fold_left List.length].
    rewrite tallyColumn_eq. cbv zeta. rewrite north_south_comparison.
    cbn [totalScore hasConflict isConflict score andb astatus].
    assert (H : (Q2R (11 # 15) = 11 / 15)%R) by (unfold Q2R; cbn; lra).
    rewrite (MatcherFacts.atLeast_no _ (95 # 100)) by (cbn; lra).
    rewrite (MatcherFacts.atLeast_no _ (Matcher.similarThreshold Matcher.config))
      by (cbn; lra).
    reflexivity.
  - unfold comparisonsOf. cbn [List.map]. rewrite north_south_comparison.
    repeat constructor.
Qed.

End ReporterFacts.

(* ================================================================== *)
(** * Further properties of the normalizer *)
(* ================================================================== *)

Module NormalizerProperties.
Import JS ArabicNormalizer NormalizerNotions JSFacts NormalizerFacts.

(** The code units the letter passes rewrite. *)
Lemma source_not_stable c :
  In c (List.map fst (mappings_alef ++ mappings_yaa ++ mappings_taa
                      ++ mappings_waw)) ->
  N.eqb (canon c) c = false.
Proof.
  intros Hin.
  cbv [mappings_alef mappings_yaa mappings_taa mappings_waw app List.map fst]
    in Hin.
  cbn [In] in Hin.
  repeat (destruct Hin as [<-|Hin]; [vm_compute; reflexivity|]).
  contradiction.
Qed.

Lemma kept_not_removed c : kept c = true -> ~ In c mappings_remove.
Proof.
  unfold kept. intros H Hin. rewrite forallb_forall in H.
  specialize (H c Hin). now rewrite N.eqb_refl in H.
Qed.

Lemma normalize_shape x :
  forallb stable (normalize x) = true /\ headed tight (normalize x).
Proof.
  destruct x as [|c x]; [split; [reflexivity | exact I]|].
  change (normalize (c :: x))
    with (trim (collapseSpaces (normalizeLetters (c :: x)))).
  split; [|apply trim_collapse_headed].
  unfold trim, collapseSpaces.
  apply trimEnd_forallb, trimStart_forallb, collapseFrom_forallb;
    [reflexivity | apply normalizeLetters_stable].
Qed.

(** X1.  What [normalize] returns is in canonical form: it holds none of
    the letters the mapping tables rewrite and none of the characters of
    the remove list, it neither starts nor ends with white space, and its
    only white space is a single space between two other characters. *)
Theorem normalize_canonical (x : jsstring) :
  (forall c, In c (normalize x) ->
     ~ In c (List.map fst (mappings_alef ++ mappings_yaa ++ mappings_taa
                           ++ mappings_waw))
     /\ ~ In c mappings_remove)
  /\ headed tight (normalize x).
Proof.
  destruct (normalize_shape x) as [Hs Ht]. split; [|exact Ht].
  intros c Hc. rewrite forallb_forall in Hs. specialize (Hs c Hc).
  unfold stable in Hs. apply andb_prop in Hs as [Hfix Hkept]. split.
  - intros Hin. rewrite (source_not_stable c Hin) in Hfix. discriminate.
  - now apply kept_not_removed.
Qed.

Lemma normalize_fixed s :
  forallb stable s = true -> headed tight s -> normalize s = s.
Proof.
  intros Hs Ht. destruct s as [|c s]; [reflexivity|].
  unfold normalize. rewrite normalizeLetters_fixed by assumption.
  now apply headed_tight_fixed.
Qed.

(** ** Variants normalise alike *)

Lemma canon_entry f t :
  In (f, t) (mappings_alef ++ mappings_yaa ++ mappings_taa ++ mappings_waw) ->
  canon t = canon f.
Proof.
  intros Hin.
  cbv [mappings_alef mappings_yaa mappings_taa mappings_waw app] in Hin.
  cbn [In] in Hin.
  repeat (destruct Hin as [[= <- <-]|Hin]; [vm_compute; reflexivity|]).
  contradiction.
Qed.

Lemma removed_dropped r : In r mappings_remove -> kept (canon r) = false.
Proof.
  intros Hin. cbv [mappings_remove] in Hin. cbn [In] in Hin.
  repeat (destruct Hin as [<-|Hin]; [vm_compute; reflexivity|]).
  contradiction.
Qed.

Lemma normalize_of_letters x :
  normalize x = trim (collapseSpaces (normalizeLetters x)).
Proof. destruct x; reflexivity. Qed.

(** X2.  Spelling variants normalise alike: writing, throughout a text, the
    plain letter for one of the variants of a mapping table, or dropping one
    of the characters of the remove list, does not change what [normalize]
    returns. *)
Theorem normalize_ignores_variants (x : jsstring) :
  (forall f t,
     In (f, t) (mappings_alef ++ mappings_yaa ++ mappings_taa ++ mappings_waw) ->
     normalize (replaceChar f t x) = normalize x)
  /\ (forall r, In r mappings_remove ->
        normalize (removeChar r x) = normalize x).
Proof.
  split.
  - intros f t Hin. rewrite !normalize_of_letters, !normalizeLetters_eq.
    unfold replaceChar. rewrite map_map. do 3 f_equal.
    apply map_ext. intros c.
    destruct (N.eqb_spec c f) as [->|_]; [now apply canon_entry | reflexivity].
  - intros r Hin. rewrite !normalize_of_letters, !normalizeLetters_eq.
    do 2 f_equal. unfold removeChar.
    induction x as [|c x IH]; [reflexivity|].
    cbn [List.filter List.map].
    destruct (N.eqb_spec c r) as [->|_]; cbn [negb List.map List.filter].
    + rewrite (removed_dropped r Hin). exact IH.
    + now rewrite IH.
Qed.

Lemma normalize_ignores_variants_witness :
  normalize (replaceChar 1571%N ALEF ahmad) = normalize ahmad
  /\ normalize (removeChar 1614%N ahmad) = normalize ahmad.
Proof.
  split.
  - apply (proj1 (normalize_ignores_variants ahmad)).
    left. reflexivity.
  - apply (proj2 (normalize_ignores_variants ahmad)).
    vm_compute. tauto.
Defined.

(** ** removeCommonPrefixes *)

Lemma startsWith_app p text :
  startsWith p text = true -> text = p ++ skipn (List.length p) text.
Proof.
  revert text. induction p as [|x p IH]; intros text H; [reflexivity|].
  destruct text as [|y text]; [discriminate|].
  cbn [startsWith] in H. apply andb_prop in H as [Hxy H].
  apply N.eqb_eq in Hxy. subst y.
  cbn [List.length skipn app]. f_equal. now apply IH.
Qed.

Lemma stripFirst_spec ps text :
  stripFirst ps text = text
  \/ exists p, In p ps /\ text = p ++ stripFirst ps text
                /\ 2 < List.length (stripFirst ps text).
Proof.
  induction ps as [|p ps IH]; [now left|].
  cbn [stripFirst].
  destruct (startsWith p text) eqn:Hs; cbn [andb].
  - destruct (Nat.ltb_spec (List.length p + 2) (List.length text)) as [Hl|_].
    + right. exists p. split; [now left|]. split; [now apply startsWith_app|].
      rewrite length_skipn. lia.
    + destruct IH as [IH|[q [Hq IH]]]; [now left|].
      right. exists q. split; [now right | exact IH].
  - destruct IH as [IH|[q [Hq IH]]]; [now left|].
    right. exists q. split; [now right | exact IH].
Qed.

(** X3.  [removeCommonPrefixes] returns the text itself, or the text
    without one of the listed prefixes at its start; in the second case
    more than two characters are left. *)
Theorem removeCommonPrefixes_spec (text : jsstring) :
  removeCommonPrefixes text = text
  \/ exists p, In p prefixes /\ text = p ++ removeCommonPrefixes text
                /\ 2 < List.length (removeCommonPrefixes text).
Proof. apply stripFirst_spec. Qed.

(** ** extractWords *)

Lemma splitOn_pieces sep cur s :
  ~ In sep cur -> Forall (fun w => ~ In sep w) (splitOn sep cur s).
Proof.
  revert cur. induction s as [|c s IH]; intros cur Hcur; cbn [splitOn].
  - constructor; [|constructor]. intros H. apply in_rev in H. now apply Hcur.
  - destruct (N.eqb_spec c sep) as [->|Hne].
    + constructor.
      * intros H. apply in_rev in H. now apply Hcur.
      * apply IH. intros [].
    + apply IH. intros [H|H]; [now apply Hne | now apply Hcur].
Qed.

(** X4.  No word [extractWords] returns is empty, and none holds a space. *)
Theorem extractWords_words (text : jsstring) :
  Forall (fun w => w <> [] /\ ~ In SP w) (extractWords text).
Proof.
  unfold extractWords. destruct text as [|c text]; [constructor|].
  apply Forall_forall. intros w Hw. apply filter_In in Hw as [Hin Hne].
  split.
  - intros ->. discriminate Hne.
  - pose proof (splitOn_pieces SP [] (clean (c :: text)) (fun H => H)) as Hp.
    rewrite Forall_forall in Hp. exact (Hp w Hin).
Qed.

(** ** getPhonetic *)

Lemma tight_map (g : char -> char) t :
  (forall c, isSpace (g c) = isSpace c) -> g SP = SP ->
  tight t -> tight (List.map g t).
Proof.
  intros Hg Hsp. induction 1 as [|c t Hc Ht IH|d u Hd Hu IH]; cbn [List.map].
  - apply tight_nil.
  - apply tight_char; [now rewrite Hg | exact IH].
  - rewrite Hsp. apply tight_space; [now rewrite Hg | exact IH].
Qed.

(** What [getPhonetic] does to one code unit after normalisation. *)
Lemma phonetic_cases c :
  let g := fun c => fold_left
             (fun x ft => if N.eqb x (fst ft) then snd ft else x)
             phoneticGroups c in
  g (g c) = g c /\ isSpace (g c) = isSpace c
  /\ (stable c = true -> stable (g c) = true).
Proof.
  intros g.
  destruct (in_dec N.eq_dec c (List.map fst phoneticGroups)) as [Hin|Hout].
  - cbv [phoneticGroups List.map fst] in Hin. cbn [In] in Hin.
    repeat (destruct Hin as [<-|Hin];
            [split; [vm_compute; reflexivity
                    |split; [vm_compute; reflexivity
                            |intros _; vm_compute; reflexivity]]|]).
    contradiction.
  - unfold g. rewrite !(rewrite_fixed _ c Hout). auto.
Qed.

(** X5.  [getPhonetic] is idempotent. *)
Theorem getPhonetic_idempotent (text : jsstring) :
  getPhonetic (getPhonetic text) = getPhonetic text.
Proof.
  unfold getPhonetic. rewrite !applyMapping_map.
  set (g := fun c => fold_left
                (fun x ft => if N.eqb x (fst ft) then snd ft else x)
                phoneticGroups c).
  destruct (normalize_shape text) as [Hs Ht].
  set (y := normalize text) in *. clearbody y.
  assert (Hfix : normalize (List.map g y) = List.map g y).
  { apply normalize_fixed.
    - rewrite forallb_forall in *. intros c Hc.
      apply in_map_iff in Hc as [d [<- Hd]].
      now apply (phonetic_cases d), Hs.
    - destruct y as [|c y]; [exact I|]. destruct Ht as [Hc Hy].
      cbn [List.map headed]. split.
      + destruct (phonetic_cases c) as [_ [E _]].
        change (isSpace (g c) = isSpace c) in E. now rewrite E.
      + apply tight_map; [intros d; apply (phonetic_cases d) | reflexivity
                         | exact Hy]. }
  rewrite Hfix, map_map. apply map_ext. intros c. apply (phonetic_cases c).
Qed.

End NormalizerProperties.

(* ================================================================== *)
(** * Further properties of the matcher: ranges of the scores *)
(* ================================================================== *)

Module MatcherRanges.
Import JS Matcher MatcherNotions JSFacts.
Import Lqa.
Local Open Scope Q_scope.

Lemma ofNat_nonneg n : 0 <= ofNat n.
Proof.
  unfold ofNat. change 0 with (inject_Z 0). rewrite <- Zle_Qle. lia.
Qed.

Lemma ofNat_le m n : (m <= n)%nat -> ofNat m <= ofNat n.
Proof. intros H. unfold ofNat. rewrite <- Zle_Qle. lia. Qed.

Lemma ofNat_pos n : (0 < n)%nat -> 0 < ofNat n.
Proof.
  intros H. unfold ofNat. change 0 with (inject_Z 0). rewrite <- Zlt_Qlt. lia.
Qed.

(** A part of a whole, as a fraction. *)
Lemma fraction_unit m n : (m <= n)%nat -> 0 <= ofNat m / ofNat n <= 1.
Proof.
  intros H. destruct n as [|n].
  - replace m with 0%nat by lia. split; [apply Qle_refl | discriminate].
  - pose proof (ofNat_pos (S n) ltac:(lia)) as Hp.
    pose proof (ofNat_nonneg m) as Hm. pose proof (ofNat_le m (S n) H) as Hl.
    split.
    + apply Qle_shift_div_l; [exact Hp | lra].
    + apply Qle_shift_div_r; [exact Hp | lra].
Qed.

(** ** Levenshtein *)

Lemma fillRow_bounded bc a : forall prev left i j,
  bounded i j prev -> (left <= Nat.max (S i) j)%nat ->
  bounded (S i) (S j) (fillRow bc a prev left).
Proof.
  induction a as [|ac a IH]; intros prev left i j Hp Hl; [exact I|].
  destruct prev as [|diag [|up prev]]; [exact I | exact I |].
  cbn [fillRow]. destruct Hp as [Hd Hp]. cbn [bounded]. split.
  - destruct (N.eqb bc ac); lia.
  - apply IH; [exact Hp|]. destruct (N.eqb bc ac); lia.
Qed.

Lemma fillRow_length bc a : forall prev left,
  (List.length (fillRow bc a prev left) <= List.length a)%nat.
Proof.
  induction a as [|ac a IH]; intros prev left; [apply Nat.le_refl|].
  destruct prev as [|diag [|up prev]]; cbn [fillRow List.length]; try lia.
  specialize (IH (up :: prev)
                 (if N.eqb bc ac then diag
                  else Nat.min (diag + 1) (Nat.min (left + 1) (up + 1)))).
  lia.
Qed.

Lemma fillMatrix_bounded a : forall b prev i,
  bounded i 0 prev -> (List.length prev <= S (List.length a))%nat ->
  bounded (i + List.length b) 0 (fillMatrix b a prev (S i))
  /\ (List.length (fillMatrix b a prev (S i)) <= S (List.length a))%nat.
Proof.
  induction b as [|bc b IH]; intros prev i Hp Hl; cbn [fillMatrix List.length].
  - rewrite Nat.add_0_r. now split.
  - replace (i + S (List.length b))%nat with (S i + List.length b)%nat by lia.
    apply IH.
    + cbn [bounded]. split; [lia|].
      apply fillRow_bounded; [exact Hp | lia].
    + cbn [List.length]. pose proof (fillRow_length bc a prev (S i)). lia.
Qed.

Lemma seq_bounded n : forall j, bounded 0 j (seq j n).
Proof.
  induction n as [|n IH]; intros j; [exact I|].
  cbn [seq bounded]. split; [lia | apply IH].
Qed.

Lemma bounded_last i : forall cells j,
  bounded i j cells ->
  (last cells 0 <= Nat.max i (j + (List.length cells - 1)))%nat.
Proof.
  induction cells as [|v t IH]; intros j H; [cbn; lia|].
  destruct H as [Hv Ht]. destruct t as [|w t].
  - cbn [last List.length]. lia.
  - change (last (v :: w :: t) 0%nat) with (last (w :: t) 0%nat).
    specialize (IH (S j) Ht). cbn [List.length] in *. lia.
Qed.

Lemma levenshteinDistance_le a b :
  (levenshteinDistance a b <= Nat.max (List.length a) (List.length b))%nat.
Proof.
  unfold levenshteinDistance.
  destruct (fillMatrix_bounded a b (seq 0 (S (List.length a))) 0) as [Hb Hl].
  - apply seq_bounded.
  - rewrite length_seq. lia.
  - apply bounded_last in Hb. cbn [Nat.add] in Hb. lia.
Qed.

Lemma levenshteinSimilarity_bounds (a b : jsstring) :
  0 <= levenshteinSimilarity a b <= 1.
Proof.
  unfold levenshteinSimilarity.
  destruct (str_eqb a b); [split; discriminate|].
  destruct (str_eqb a [] || str_eqb b []); [split; discriminate|].
  destruct (Nat.eqb _ 0); [split; discriminate|].
  pose proof (fraction_unit _ _ (levenshteinDistance_le a b)) as H.
  lra.
Qed.

(** X6.  [levenshteinSimilarity] is a number between 0 and 1, as its
    documentation says: the edit distance never exceeds the length of the
    longer text. *)
Theorem levenshteinSimilarity_range (a b : jsstring) :
  0 <= levenshteinSimilarity a b <= 1.
Proof. exact (levenshteinSimilarity_bounds a b). Qed.

(** ** Jaro and Jaro-Winkler *)

Lemma marked_le flags : (marked flags <= List.length flags)%nat.
Proof. apply count_occ_bound. Qed.

Lemma marked_repeat n : marked (repeat false n) = 0%nat.
Proof. induction n as [|n IH]; [reflexivity | exact IH]. Qed.

Lemma marked_cons f flags :
  marked (f :: flags) = ((if f then 1 else 0) + marked flags)%nat.
Proof. unfold marked. now destruct f. Qed.

(** A match taken marks one more position of [b]. *)
Lemma takeMatch_marks c : forall b flags j start end_ flags',
  takeMatch c b flags j start end_ = Some flags' ->
  List.length flags' = List.length flags
  /\ marked flags' = S (marked flags).
Proof.
  induction b as [|bc b IH]; intros flags j start end_ flags' H;
    [discriminate|].
  destruct flags as [|m flags]; [discriminate|].
  cbn [takeMatch] in H.
  destruct (((start <=? j)%Z && (j <? end_)%Z) && negb m && N.eqb c bc) eqn:E.
  - injection H as <-.
    apply andb_prop in E as [E _]. apply andb_prop in E as [_ E].
    destruct m; [discriminate|]. rewrite !marked_cons. split; reflexivity.
  - destruct (takeMatch c b flags (j + 1) start end_) as [r|] eqn:R;
      [|discriminate].
    injection H as <-. destruct (IH _ _ _ _ _ R) as [Hl Hm].
    rewrite !marked_cons. cbn [List.length]. split; lia.
Qed.

Lemma findMatches_marks b w lenB : forall a i flags am bm,
  findMatches a i b flags w lenB = (am, bm) ->
  List.length am = List.length a
  /\ List.length bm = List.length flags
  /\ (marked am + marked flags = marked bm)%nat.
Proof.
  induction a as [|c a IH]; intros i flags am bm H.
  - injection H as <- <-. repeat split.
  - cbn [findMatches] in H.
    destruct (takeMatch c b flags 0 (Z.max 0 (i - w)) (Z.min (i + w + 1) lenB))
      as [flags'|] eqn:T.
    + destruct (findMatches a (i + 1) b flags' w lenB) as [am' bm'] eqn:F.
      injection H as <- <-.
      destruct (IH _ _ _ _ F) as [H1 [H2 H3]].
      destruct (takeMatch_marks _ _ _ _ _ _ _ T) as [H4 H5].
      rewrite marked_cons. cbn [List.length]. repeat split; lia.
    + destruct (findMatches a (i + 1) b flags w lenB) as [am' bm'] eqn:F.
      injection H as <- <-.
      destruct (IH _ _ _ _ F) as [H1 [H2 H3]].
      rewrite marked_cons. cbn [List.length]. repeat split; lia.
Qed.

Lemma countTranspositions_le : forall az bz,
  (countTranspositions az bz <= marked (List.map snd az))%nat.
Proof.
  induction az as [|[ac f] az IH]; intros bz; [apply Nat.le_refl|].
  cbn [countTranspositions List.map snd]. rewrite marked_cons.
  destruct f.
  - destruct (skipFree bz) as [|[bc g] bz']; [lia|].
    specialize (IH bz'). destruct (N.eqb ac bc); lia.
  - apply IH.
Qed.

Lemma map_snd_combine {A B} : forall (l : list A) (l' : list B),
  List.length l' = List.length l -> List.map snd (combine l l') = l'.
Proof.
  induction l as [|x l IH]; intros [|y l'] H; try discriminate; [reflexivity|].
  cbn [combine List.map snd]. f_equal. apply IH. now injection H.
Qed.

Lemma jaro_range a b : 0 <= jaro a b <= 1.
Proof.
  unfold jaro. destruct (str_eqb a b); [split; discriminate|].
  destruct (findMatches a 0 b (repeat false (List.length b))
              (Z.of_nat (Nat.max (List.length a) (List.length b)) / 2 - 1)
              (Z.of_nat (List.length b))) as [am bm] eqn:F.
  destruct (findMatches_marks _ _ _ _ _ _ _ _ F) as [H1 [H2 H3]].
  rewrite marked_repeat, repeat_length in *.
  fold (marked am).
  destruct (Nat.eqb_spec (marked am) 0) as [_|Hpos]; [split; discriminate|].
  pose proof (marked_le am) as Ha. pose proof (marked_le bm) as Hb.
  pose proof (countTranspositions_le (combine a am) (combine b bm)) as Ht.
  rewrite map_snd_combine in Ht by assumption.
  set (m := marked am) in *.
  set (t := countTranspositions (combine a am) (combine b bm)) in *.
  pose proof (fraction_unit m (List.length a) ltac:(lia)) as Hx.
  pose proof (fraction_unit m (List.length b) ltac:(lia)) as Hy.
  change (ofNat t / 2) with (ofNat t * (1 # 2)).
  assert (Hz : 0 <= (ofNat m - ofNat t * (1 # 2)) / ofNat m <= 1).
  { pose proof (ofNat_pos m ltac:(lia)) as Hm.
    pose proof (ofNat_nonneg t) as Ht0. pose proof (ofNat_le t m Ht) as Htm.
    split.
    - apply Qle_shift_div_l; [exact Hm | lra].
    - apply Qle_shift_div_r; [exact Hm | lra]. }
  set (x := ofNat m / ofNat (List.length a)) in *.
  set (y := ofNat m / ofNat (List.length b)) in *.
  set (z := (ofNat m - ofNat t * (1 # 2)) / ofNat m) in *.
  change ((x + y + z) / 3) with ((x + y + z) * (1 # 3)).
  lra.
Qed.

Lemma commonPrefix_le : forall n a b, (commonPrefix n a b <= n)%nat.
Proof.
  induction n as [|n IH]; intros a b; [apply Nat.le_refl|].
  destruct a as [|x a], b as [|y b]; cbn [commonPrefix]; try lia.
  destruct (N.eqb x y); [|lia]. specialize (IH a b). lia.
Qed.

Lemma jaroWinkler_bounds (a b : jsstring) : 0 <= jaroWinkler a b <= 1.
Proof.
  unfold jaroWinkler. destruct (str_eqb a b); [split; discriminate|].
  destruct (str_eqb a [] || str_eqb b []); [split; discriminate|].
  pose proof (jaro_range a b) as Hj.
  pose proof (ofNat_nonneg (commonPrefix 4 a b)) as Hp0.
  pose proof (ofNat_le _ _ (commonPrefix_le 4 a b)) as Hp4.
  change (ofNat 4) with 4 in Hp4.
  set (j := jaro a b) in *. set (p := ofNat (commonPrefix 4 a b)) in *.
  split; nra.
Qed.

(** X7.  [jaroWinkler] is a number between 0 and 1, as its documentation
    says: the matches are at most as many as the characters of either text,
    the transpositions at most as many as the matches, and the prefix bonus
    covers at most four tenths of what is missing to 1. *)
Theorem jaroWinkler_range (a b : jsstring) : 0 <= jaroWinkler a b <= 1.
Proof. exact (jaroWinkler_bounds a b). Qed.

(** ** Token set ratio *)

Lemma setAdd_fold l : forall acc,
  NoDup acc ->
  NoDup (fold_left setAdd l acc)
  /\ (forall x, In x (fold_left setAdd l acc) <-> In x acc \/ In x l).
Proof.
  induction l as [|y l IH]; intros acc Hacc; cbn [fold_left].
  - split; [exact Hacc | intros x; cbn [In]; tauto].
  - unfold setAdd at 2 4. destruct (includes y acc) eqn:E.
    + destruct (IH acc Hacc) as [H1 H2]. split; [exact H1|].
      intros x. rewrite H2. apply includes_In in E. cbn [In].
      split; [tauto|]. intros [H|[<-|H]]; auto.
    + assert (Hn : ~ In y acc).
      { intros H. apply includes_In in H. congruence. }
      assert (Hnd : NoDup (acc ++ [y])).
      { apply NoDup_app; [exact Hacc | repeat constructor; intros []|].
        intros x Hx [<-|[]]. now apply Hn. }
      destruct (IH (acc ++ [y]) Hnd) as [H1 H2]. split; [exact H1|].
      intros x. rewrite H2, in_app_iff. cbn [In]. tauto.
Qed.

Lemma newSet_set l :
  NoDup (newSet l) /\ (forall x, In x (newSet l) <-> In x l).
Proof.
  destruct (setAdd_fold l [] (NoDup_nil _)) as [H1 H2]. split; [exact H1|].
  intros x. unfold newSet. rewrite H2. cbn [In]. tauto.
Qed.

Lemma tokens_NoDup s : NoDup (tokens s).
Proof. apply newSet_set. Qed.

Lemma bestMatch_range tokenA : forall unmatchedB,
  0 <= bestMatch tokenA unmatchedB <= 1.
Proof.
  unfold bestMatch.
  assert (G : forall l best, 0 <= best <= 1 ->
            0 <= fold_left (fun best tokenB =>
                              Qmax best (levenshteinSimilarity tokenA tokenB))
                           l best <= 1).
  { induction l as [|t l IH]; intros best Hb; [exact Hb|].
    cbn [fold_left]. apply IH.
    pose proof (levenshteinSimilarity_bounds tokenA t) as Hl.
    split.
    - apply Qle_trans with best; [apply Hb | apply Q.le_max_l].
    - apply Q.max_lub; [apply Hb | apply Hl]. }
  intros l. apply G. split; [apply Qle_refl | discriminate].
Qed.

Lemma ofNat_S n : ofNat (S n) == ofNat n + 1.
Proof.
  unfold ofNat. rewrite Nat2Z.inj_succ, <- Z.add_1_r, inject_Z_plus.
  reflexivity.
Qed.

Lemma total_range unmatchedB : forall unmatchedA acc,
  0 <= acc ->
  0 <= fold_left (fun acc tokenA => acc + bestMatch tokenA unmatchedB)
                 unmatchedA acc
    <= acc + ofNat (List.length unmatchedA).
Proof.
  induction unmatchedA as [|t l IH]; intros acc Hacc; cbn [fold_left List.length].
  - change (ofNat 0) with 0. lra.
  - pose proof (bestMatch_range t unmatchedB) as Hb.
    destruct (IH (acc + bestMatch t unmatchedB) ltac:(lra)) as [H1 H2].
    rewrite ofNat_S. lra.
Qed.

Lemma tokenSetRatio_bounds (a b : jsstring) :
  0 <= tokenSetRatio a b <= 23 # 20.
Proof.
  unfold tokenSetRatio. destruct (str_eqb a b); [split; discriminate|].
  destruct (str_eqb a [] || str_eqb b []); [split; discriminate|].
  set (tokensA := tokens a). set (tokensB := tokens b).
  destruct (Nat.eqb (List.length tokensA) 0 && Nat.eqb (List.length tokensB) 0);
    [split; discriminate|].
  destruct (Nat.eqb (List.length tokensA) 0 || Nat.eqb (List.length tokensB) 0);
    [split; discriminate|].
  set (inter := List.filter (fun t => includes t tokensB) tokensA).
  set (unmatchedA := List.filter (fun t => negb (includes t tokensB)) tokensA).
  set (unmatchedB := List.filter (fun t => negb (includes t tokensA)) tokensB).
  assert (HndI : NoDup inter) by (apply NoDup_filter, tokens_NoDup).
  assert (HIA : (List.length inter <= List.length tokensA)%nat)
    by apply filter_length_le.
  assert (HIB : (List.length inter <= List.length tokensB)%nat).
  { apply NoDup_incl_length; [exact HndI|].
    intros x Hx. apply filter_In in Hx as [_ Hx]. now apply includes_In. }
  assert (HIU : (List.length inter
                 <= List.length (newSet (tokensA ++ tokensB)))%nat).
  { apply NoDup_incl_length; [exact HndI|].
    intros x Hx. apply filter_In in Hx as [Hx _].
    apply newSet_set, in_or_app. now left. }
  pose proof (fraction_unit _ _ HIU) as Hj.
  pose proof (fraction_unit _ _ (Nat.min_glb _ _ _ HIA HIB)) as Hsub.
  pose proof (fraction_unit _ _ HIA) as Hx.
  pose proof (fraction_unit _ _ HIB) as Hy.
  set (total := fold_left (fun acc tokenA => acc + bestMatch tokenA unmatchedB)
                          unmatchedA 0).
  assert (Hpart : 0 <= (if Nat.ltb 0 (List.length unmatchedA)
                        then total / ofNat (List.length unmatchedA) * (1 # 2)
                        else 0) <= 1 # 2).
  { destruct (Nat.ltb_spec 0 (List.length unmatchedA)) as [Hpos|_];
      [|split; discriminate].
    destruct (total_range unmatchedB unmatchedA 0 (Qle_refl 0)) as [H1 H2].
    fold total in H1, H2.
    pose proof (ofNat_pos _ Hpos) as Hp.
    assert (H3 : 0 <= total / ofNat (List.length unmatchedA) <= 1).
    { split.
      - apply Qle_shift_div_l; [exact Hp | lra].
      - apply Qle_shift_div_r; [exact Hp | lra]. }
    set (q := total / ofNat (List.length unmatchedA)) in *. lra. }
  set (jac := ofNat (List.length inter)
              / ofNat (List.length (newSet (tokensA ++ tokensB)))) in *.
  set (sub := ofNat (List.length inter)
              / ofNat (Nat.min (List.length tokensA) (List.length tokensB)))
    in *.
  set (x := ofNat (List.length inter) / ofNat (List.length tokensA)) in *.
  set (y := ofNat (List.length inter) / ofNat (List.length tokensB)) in *.
  set (part := if Nat.ltb 0 (List.length unmatchedA) then _ else 0) in *.
  change ((x + y) / 2) with ((x + y) * (1 # 2)).
  split.
  - apply Qle_trans with (Qmax jac (sub * (95 # 100)));
      [|apply Q.le_max_l].
    apply Qle_trans with jac; [lra | apply Q.le_max_l].
  - repeat apply Q.max_lub; lra.
Qed.

(** X8.  [tokenSetRatio] is never negative and never above 1.15: the
    Jaccard and subset candidates are at most 1 and 0.95, and the third is
    a mean coverage of at most 1 plus a bonus of at most 0.3 * 0.5. *)
Theorem tokenSetRatio_range (a b : jsstring) :
  0 <= tokenSetRatio a b <= 23 # 20.
Proof. exact (tokenSetRatio_bounds a b). Qed.

(** ** The relative difference of numericMatch *)

Lemma percentDiff_nonneg a b :
  Qeq_bool ((Qabs a + Qabs b) / 2) 0 = false -> 0 <= percentDiff a b.
Proof.
  intros H. apply Qeq_bool_neq in H. unfold percentDiff.
  pose proof (Qabs_nonneg a) as Ha. pose proof (Qabs_nonneg b) as Hb.
  pose proof (Qabs_nonneg (a - b)) as Hd.
  set (x := Qabs a) in *. set (y := Qabs b) in *.
  change ((x + y) / 2) with ((x + y) * (1 # 2)) in *.
  apply Qle_shift_div_l; [|lra].
  destruct (Qlt_le_dec 0 ((x + y) * (1 # 2))) as [Hpos|Hneg]; [exact Hpos|].
  exfalso. apply H. lra.
Qed.

Lemma one_minus_range p t : 0 <= p -> p <= t -> t <= 1 -> 0 <= 1 - p <= 1.
Proof. intros; lra. Qed.

Lemma fuzzyScores_range cleanA cleanB :
  Forall (fun e => 0 <= snd e <= 23 # 20) (fuzzyScores cleanA cleanB).
Proof.
  unfold fuzzyScores.
  pose proof (levenshteinSimilarity_bounds cleanA cleanB).
  pose proof (jaroWinkler_bounds cleanA cleanB).
  pose proof (tokenSetRatio_bounds cleanA cleanB).
  repeat constructor; cbn [snd]; lra.
Qed.

End MatcherRanges.

(* ================================================================== *)
(** * Further properties of the matcher: smartMatch and its callers *)
(* ================================================================== *)

Module MatcherScores.
Import JS Matcher MatcherNotions JSFacts MatcherFacts.
Local Open Scope R_scope.

Lemma bestOf_In first rest : In (bestOf (first :: rest)) (first :: rest).
Proof.
  cbn [bestOf].
  assert (G : forall (l : list (Algorithm * Q)) (best : Algorithm * Q),
            In (fold_left (fun best current : Algorithm * Q =>
                             if Qle_bool (snd current) (snd best)
                             then best else current) l best)
               (best :: l)).
  { induction l as [|x l IH]; intros best; [now left|].
    cbn [fold_left].
    destruct (Qle_bool (snd x) (snd best)).
    - destruct (IH best) as [H|H]; [left; exact H | right; right; exact H].
    - right. apply IH. }
  apply G.
Qed.

Lemma fuzzyMatch_range cfg cleanA cleanB :
  0 <= score (fuzzyMatch cfg cleanA cleanB) <= 23 / 20.
Proof.
  unfold fuzzyMatch. cbn [score]. unfold fuzzyBest.
  pose proof (MatcherRanges.fuzzyScores_range cleanA cleanB) as H.
  rewrite Forall_forall in H.
  specialize (H _ (bestOf_In _ _)). destruct H as [H0 H1].
  apply Qle_Rle in H0, H1.
  replace 0 with (Q2R 0) by (unfold Q2R; cbn; lra).
  replace (23 / 20) with (Q2R (23 # 20)) by (unfold Q2R; cbn; lra).
  split; assumption.
Qed.

Lemma textMatch_range cfg strA strB :
  0 <= score (textMatch cfg strA strB) <= 23 / 20.
Proof.
  unfold textMatch.
  destruct (useArabicNormalization cfg && _); [|apply fuzzyMatch_range].
  destruct (str_eqb _ _); [|apply fuzzyMatch_range].
  unfold result; cbn [score]. unfold Q2R. cbn. lra.
Qed.

Lemma exp_nonpos x : x <= 0 -> 0 < exp x <= 1.
Proof.
  intros H. split; [apply exp_pos|].
  destruct H as [H | ->]; [|rewrite exp_0; lra].
  left. rewrite <- exp_0. now apply exp_increasing.
Qed.

Lemma numericMatch_range cfg a b :
  (numericTolerance cfg <= 1)%Q ->
  0 <= score (numericMatch cfg a b) <= 1.
Proof.
  intros Htol. unfold numericMatch.
  destruct (Qeq_bool a b); [unfold result; cbn [score]; lra|].
  destruct (Qeq_bool ((Qabs a + Qabs b) / 2) 0) eqn:Havg.
  - unfold result; cbn [score]. destruct (Qeq_bool (Qabs (a - b)) 0); lra.
  - pose proof (MatcherRanges.percentDiff_nonneg a b Havg) as Hp.
    unfold percentDiff in Hp.
    set (p := (Qabs (a - b) / ((Qabs a + Qabs b) / 2))%Q) in *.
    destruct (Qle_bool p (numericTolerance cfg)) eqn:Hle; cbn [score].
    + apply Qle_bool_iff in Hle.
      destruct (MatcherRanges.one_minus_range p _ Hp Hle Htol) as [H0 H1].
      apply Qle_Rle in H0, H1.
      replace 0 with (Q2R 0) by (unfold Q2R; cbn; lra).
      replace 1 with (Q2R 1) by (unfold Q2R; cbn; lra).
      split; assumption.
    + apply Qle_Rle in Hp. replace (Q2R 0) with 0 in Hp by (unfold Q2R; cbn; lra).
      destruct (exp_nonpos (- Q2R p * 5)) as [H0 H1]; lra.
Qed.

Lemma smartMatch_score_bounds cfg (a b : value) :
  (numericTolerance cfg <= 1)%Q ->
  0 <= score (smartMatch cfg a b) <= 23 / 20.
Proof.
  intros Htol. unfold smartMatch.
  destruct (isNullish a && isNullish b); [unfold result; cbn [score]; lra|].
  destruct (isNullish a || isNullish b); [unfold result; cbn [score]; lra|].
  destruct (str_eqb _ [] && str_eqb _ []); [unfold result; cbn [score]; lra|].
  destruct (str_eqb _ [] || str_eqb _ []); [unfold result; cbn [score]; lra|].
  destruct (str_eqb _ _); [unfold result; cbn [score]; lra|].
  destruct (str_eqb _ _); [unfold result; cbn [score]; unfold Q2R; cbn; lra|].
  destruct (parseFloat _) as [numA|]; [|apply textMatch_range].
  destruct (parseFloat _) as [numB|]; [|apply textMatch_range].
  destruct (atLeast _ _); [|apply textMatch_range].
  pose proof (numericMatch_range cfg numA numB Htol). lra.
Qed.

(** X9.  Under a configuration whose numeric tolerance is at most 1, the
    score of [smartMatch] lies between 0 and 1.15 for every pair of
    values. *)
Theorem smartMatch_score_range cfg (a b : value) :
  (numericTolerance cfg <= 1)%Q ->
  0 <= score (smartMatch cfg a b) <= 23 / 20.
Proof. exact (smartMatch_score_bounds cfg a b). Qed.

Lemma smartMatch_score_range_witness :
  (numericTolerance config <= 1)%Q
  /\ 0 <= score (smartMatch config (VString wide_a) (VString wide_b)) <= 23 / 20.
Proof.
  split.
  - discriminate.
  - apply (smartMatch_score_range config (VString wide_a) (VString wide_b)).
    discriminate.
Defined.

Lemma smartMatch_self cfg (v : value) :
  score (smartMatch cfg v v) = 1
  /\ type (smartMatch cfg v v) = Exact
  /\ matched (smartMatch cfg v v) = true.
Proof.
  unfold smartMatch.
  destruct (isNullish v); cbn [andb orb]; [repeat split|].
  destruct (str_eqb (trim (toString v)) []); cbn [andb orb]; [repeat split|].
  rewrite str_eqb_refl. repeat split.
Qed.

(** X10.  A value matches itself exactly: [smartMatch v v] has score 1,
    type exact and is matched, whatever the value and the configuration. *)
Theorem smartMatch_same cfg (v : value) :
  score (smartMatch cfg v v) = 1
  /\ type (smartMatch cfg v v) = Exact
  /\ matched (smartMatch cfg v v) = true.
Proof. exact (smartMatch_self cfg v). Qed.

(** X11.  [numericMatch] does not depend on the order of its arguments:
    score, type and matched flag are the same either way. *)
Theorem numericMatch_symmetric cfg (a b : Q) :
  score (numericMatch cfg a b) = score (numericMatch cfg b a)
  /\ type (numericMatch cfg a b) = type (numericMatch cfg b a)
  /\ matched (numericMatch cfg a b) = matched (numericMatch cfg b a).
Proof.
  unfold numericMatch.
  rewrite (Qeq_bool_comm b a).
  destruct (Qeq_bool a b); [repeat split|].
  rewrite (Qabs_Qminus b a).
  assert (Havg : ((Qabs a + Qabs b) / 2 == (Qabs b + Qabs a) / 2)%Q)
    by now rewrite Qplus_comm.
  rewrite (@Qeq_bool_proper _ _ 0%Q 0%Q Havg (Qeq_refl _)).
  destruct (Qeq_bool ((Qabs b + Qabs a) / 2) 0); [repeat split|].
  assert (Hpd : (Qabs (a - b) / ((Qabs a + Qabs b) / 2)
                 == Qabs (a - b) / ((Qabs b + Qabs a) / 2))%Q)
    by now rewrite Havg.
  rewrite (@Qle_bool_proper _ _ (numericTolerance cfg) Hpd).
  destruct (Qle_bool _ (numericTolerance cfg)); cbn [score type matched].
  - split; [|split; reflexivity]. apply Qeq_eqR. now rewrite Hpd.
  - rewrite (Qeq_eqR _ _ Hpd). repeat split.
Qed.

(** ** multiColumnMatch *)

Lemma weigh_same cfg r weights : forall columns w t,
  Forall (weighed weights) columns ->
  totalWeight w = Some t ->
  weightedScore w = Q2R t ->
  let w' := fold_left (weighColumn cfg r r weights) columns w in
  exists t',
    totalWeight w' = Some t'
    /\ weightedScore w' = Q2R t'
    /\ Q2R t <= Q2R t'
    /\ (columns <> [] -> Q2R t < Q2R t').
Proof.
  induction columns as [|c columns IH]; intros w t Hpos Ht Hw; cbn [fold_left].
  - exists t. repeat split; [exact Ht | exact Hw | lra | congruence].
  - inversion Hpos as [|? ? Hc Hrest]; subst.
    destruct Hc as [x [Hx Hc]].
    apply Qlt_Rlt in Hc. replace (Q2R 0) with 0 in Hc by (unfold Q2R; cbn; lra).
    assert (Hstep : totalWeight (weighColumn cfg r r weights w c) = Some (t + x)%Q
                    /\ weightedScore (weighColumn cfg r r weights w c)
                       = Q2R (t + x)).
    { unfold weighColumn. cbn [weightedScore totalWeight].
      rewrite Ht, Hx, Q2R_plus, Hw.
      destruct (smartMatch_self cfg (getProp r c)) as [-> _].
      split; [reflexivity | lra]. }
    destruct Hstep as [Hs1 Hs2].
    destruct (IH _ _ Hrest Hs1 Hs2) as [t' [H0 [H1 [H2 _]]]].
    rewrite Q2R_plus in H2.
    exists t'. repeat split; [exact H0 | exact H1 | lra | intros _; lra].
Qed.

(** X12.  Comparing a row with itself over at least one column, each with
    a weight that is a positive number (a weight left out or equal to 0
    counts as 1, except for a column named like a member of
    [Object.prototype], whose missing weight is no number),
    [multiColumnMatch] scores 1. *)
Theorem multiColumnMatch_same cfg (r : object) (columns : list jsstring)
    (weights : list (jsstring * Q)) :
  columns <> [] ->
  Forall (weighed weights) columns ->
  mscore (multiColumnMatch cfg r r columns weights) = 1.
Proof.
  intros Hne Hpos. unfold multiColumnMatch. cbn [mscore].
  destruct (weigh_same cfg r weights columns (mkWeighted (Some 0%Q) 0 []) 0%Q
              Hpos eq_refl)
    as [t' [H0 [H1 [_ H3]]]].
  { cbn [weightedScore]. unfold Q2R. cbn. lra. }
  specialize (H3 Hne).
  replace (Q2R 0) with 0 in H3 by (unfold Q2R; cbn; lra).
  set (w := fold_left _ columns _) in *. rewrite H0.
  destruct (Qle_bool t' 0) eqn:E.
  - apply Qle_bool_iff, Qle_Rle in E.
    replace (Q2R 0) with 0 in E by (unfold Q2R; cbn; lra). lra.
  - rewrite H1. field. lra.
Qed.

Lemma multiColumnMatch_same_witness :
  [lit "ID"; lit "City"] <> []
  /\ Forall (weighed [(lit "City", 2%Q)]) [lit "ID"; lit "City"]
  /\ mscore (multiColumnMatch config
               [(lit "ID", VInt 1); (lit "City", VString (lit "north"))]
               [(lit "ID", VInt 1); (lit "City", VString (lit "north"))]
               [lit "ID"; lit "City"] [(lit "City", 2%Q)]) = 1.
Proof.
  assert (Hw : Forall (weighed [(lit "City", 2%Q)]) [lit "ID"; lit "City"]).
  { constructor; [exists 1%Q | constructor; [exists 2%Q | constructor]];
      split; reflexivity. }
  split; [discriminate|]. split; [exact Hw|].
  apply (multiColumnMatch_same config
           [(lit "ID", VInt 1); (lit "City", VString (lit "north"))]
           [lit "ID"; lit "City"] [(lit "City", 2%Q)]).
  - discriminate.
  - exact Hw.
Defined.

(** A column named like a member of [Object.prototype], with no weight
    given for it, brings the score to 0, also for a row against itself. *)
Lemma multiColumnMatch_inherited_weight :
  mscore (multiColumnMatch config
            [(lit "constructor", VInt 1)] [(lit "constructor", VInt 1)]
            [lit "constructor"] []) = 0.
Proof. reflexivity. Qed.

End MatcherScores.

(* ================================================================== *)
(** * Further properties of the key detector *)
(* ================================================================== *)

Module KeyDetectorProperties.
Import JS KeyDetector KeyDetectorNotions JSFacts.

Lemma insertByScore_perm x l : Permutation (insertByScore x l) (x :: l).
Proof.
  induction l as [|y l IH]; [apply Permutation_refl|].
  cbn [insertByScore]. destruct (Nat.ltb (score x) (score y)).
  - apply perm_trans with (y :: x :: l); [now apply perm_skip | apply perm_swap].
  - apply Permutation_refl.
Qed.

Lemma sortByScore_perm l : Permutation (sortByScore l) l.
Proof.
  induction l as [|x l IH]; [apply perm_nil|].
  change (sortByScore (x :: l)) with (insertByScore x (sortByScore l)).
  apply perm_trans with (x :: sortByScore l);
    [apply insertByScore_perm | now apply perm_skip].
Qed.

Lemma insertByScore_descending x l :
  descending l -> descending (insertByScore x l).
Proof.
  unfold descending. induction l as [|y l IH]; intros H.
  - repeat constructor.
  - cbn [insertByScore]. apply StronglySorted_inv in H as [Hl Hy].
    destruct (Nat.ltb_spec (score x) (score y)) as [Hlt|Hge].
    + constructor; [now apply IH|].
      apply (Permutation_Forall (Permutation_sym (insertByScore_perm x l))).
      constructor; [lia | exact Hy].
    + constructor; [now constructor|].
      constructor; [exact Hge|].
      eapply Forall_impl; [|exact Hy]. cbn. intros z Hz. lia.
Qed.

Lemma sortByScore_descending l : descending (sortByScore l).
Proof.
  induction l as [|x l IH]; [constructor|].
  change (sortByScore (x :: l)) with (insertByScore x (sortByScore l)).
  now apply insertByScore_descending.
Qed.

(** [allScores] is the sorted list with the confidence of its head set. *)
Lemma allScores_shape headers rows :
  let sorted := sortByScore (List.map (analyzeHeader rows) headers) in
  List.map header (allScores (detectKeyColumn headers rows))
  = List.map header sorted
  /\ List.map score (allScores (detectKeyColumn headers rows))
     = List.map score sorted.
Proof.
  intros sorted. unfold detectKeyColumn. fold sorted. cbn [allScores].
  destruct sorted as [|top rest]; [split; reflexivity|].
  destruct (Nat.ltb 0 (score top)); split; reflexivity.
Qed.

Lemma descending_scores l l' :
  List.map score l = List.map score l' -> descending l -> descending l'.
Proof.
  unfold descending. revert l'.
  induction l as [|x l IH]; intros [|y l'] E H; try discriminate;
    [constructor|].
  injection E as Exy E. apply StronglySorted_inv in H as [Hl Hx].
  constructor; [now apply IH|].
  rewrite <- Exy.
  assert (G : Forall (fun s => s <= score x) (List.map score l')).
  { rewrite <- E. apply Forall_map. exact Hx. }
  apply Forall_map in G. exact G.
Qed.

Lemma analyzeHeader_header rows h : header (analyzeHeader rows h) = h.
Proof.
  unfold analyzeHeader.
  assert (G : forall l item,
            header (fold_left (checkPattern (toLowerCase (name h))) l item)
            = header item).
  { induction l as [|[ty pat] l IH]; intros item; [reflexivity|].
    cbn [fold_left]. rewrite IH. unfold checkPattern.
    now destruct (firstKeyword _ _). }
  destruct (Nat.ltb 0 (List.length rows)); cbn [header]; now rewrite G.
Qed.

Lemma detectKeyColumn_ranking_aux headers rows :
  Permutation (List.map header (allScores (detectKeyColumn headers rows)))
              headers
  /\ descending (allScores (detectKeyColumn headers rows)).
Proof.
  destruct (allScores_shape headers rows) as [Hh Hs]. split.
  - rewrite Hh.
    apply perm_trans
      with (List.map header (List.map (analyzeHeader rows) headers)).
    + apply Permutation_map, sortByScore_perm.
    + rewrite map_map. rewrite (map_ext _ (fun h => h)), map_id;
        [apply Permutation_refl | apply analyzeHeader_header].
  - apply (descending_scores _ _ (eq_sym Hs)), sortByScore_descending.
Qed.

(** X13.  [detectKeyColumn] ranks every header once: [allScores] lists
    the headers it was given, each exactly as often as it was given, from
    the highest score down. *)
Theorem detectKeyColumn_ranking (headers : list Header) (rows : list object) :
  Permutation (List.map header (allScores (detectKeyColumn headers rows)))
              headers
  /\ descending (allScores (detectKeyColumn headers rows)).
Proof. exact (detectKeyColumn_ranking_aux headers rows). Qed.

Lemma descending_head top rest :
  descending (top :: rest) ->
  forall o, In o (top :: rest) -> score o <= score top.
Proof.
  intros H o [<-|Ho]; [apply Nat.le_refl|].
  apply StronglySorted_inv in H as [_ H]. rewrite Forall_forall in H.
  now apply H.
Qed.

Lemma confidence_range s :
  0 < s -> (0 < Qmin (ratio s 20) 1 <= 1)%Q.
Proof.
  intros Hs. split; [|apply Q.le_min_r].
  apply Q.min_glb_lt; [|reflexivity].
  unfold ratio. apply Qlt_shift_div_l; [reflexivity|].
  rewrite Qmult_0_l. change 0%Q with (inject_Z 0). rewrite <- Zlt_Qlt. lia.
Qed.

(** X14.  The suggestion of [detectKeyColumn] is the head of the ranking
    when its score is positive: it is absent exactly when every header
    scores 0; when present it is listed in [allScores], no header scores
    higher, and its confidence is above 0 and at most 1.  A confident match
    is reported exactly when some header scores 10 or more. *)
Theorem detectKeyColumn_suggestion (headers : list Header)
    (rows : list object) :
  let d := detectKeyColumn headers rows in
  (suggested d = None <-> Forall (fun o => score o = 0) (allScores d))
  /\ (forall it, suggested d = Some it ->
        In it (allScores d) /\ 0 < score it
        /\ (forall o, In o (allScores d) -> score o <= score it)
        /\ (0 < confidence it <= 1)%Q)
  /\ (hasConfidentMatch d = true
      <-> exists o, In o (allScores d) /\ 10 <= score o).
Proof.
  intros d.
  pose proof (proj2 (detectKeyColumn_ranking_aux headers rows)) as Hdesc.
  fold d in Hdesc. unfold d in *. unfold detectKeyColumn in *.
  set (sorted := sortByScore (List.map (analyzeHeader rows) headers)) in *.
  cbn [suggested allScores hasConfidentMatch] in *.
  destruct sorted as [|top rest].
  - split; [split; [constructor | reflexivity]|].
    split; [discriminate|]. split; [discriminate | intros [o [[] _]]].
  - destruct (Nat.ltb_spec 0 (score top)) as [Hpos|Hzero];
      cbn [score header confidence] in *.
    + rewrite (proj2 (Nat.ltb_lt 0 (score top)) Hpos). split; [|split].
      * split; [discriminate|]. intros H. inversion H as [|? ? H0 _]; subst.
        cbn [score] in H0. lia.
      * intros it [= <-]. cbn [score confidence].
        split; [now left|]. split; [exact Hpos|].
        split; [|now apply confidence_range].
        intros o Ho. apply (descending_head _ _ Hdesc o Ho).
      * cbn [score]. rewrite Nat.leb_le. split.
        -- intros H. eexists. split; [left; reflexivity | exact H].
        -- intros [o [Ho H]]. pose proof (descending_head _ _ Hdesc o Ho) as G.
           cbn [score] in G. lia.
    + rewrite (proj2 (Nat.ltb_ge 0 (score top)) Hzero). split; [|split].
      * split; [|reflexivity]. intros _. apply Forall_forall. intros o Ho.
        pose proof (descending_head _ _ Hdesc o Ho). lia.
      * discriminate.
      * rewrite Nat.leb_le. split; [lia|].
        intros [o [Ho H]]. pose proof (descending_head _ _ Hdesc o Ho). lia.
Qed.

(** X15.  A column whose sampled values are all absent or blank earns no
    data bonus, no reason and no detected type. *)
Theorem analyzeColumnData_blank (values : list value) :
  Forall blankValue values ->
  analyzeColumnData values = mkData 0 [] None.
Proof.
  intros H. unfold analyzeColumnData.
  destruct (Nat.eqb (List.length values) 0); [reflexivity|].
  cbv zeta.
  assert (E : List.filter
                (fun v => negb (isNullish v)
                          && negb (str_eqb (trim (toString v)) []))
                values = []).
  { induction H as [|v l Hv Hl IH]; [reflexivity|].
    cbn [List.filter]. rewrite IH.
    destruct Hv as [Hv|Hv]; [now rewrite Hv | rewrite Hv].
    now rewrite andb_false_r. }
  rewrite E. reflexivity.
Qed.

Lemma analyzeColumnData_blank_witness :
  Forall blankValue [VNull; VString (lit "  "); VUndefined; VString []]
  /\ analyzeColumnData [VNull; VString (lit "  "); VUndefined; VString []]
     = mkData 0 [] None.
Proof.
  assert (H : Forall blankValue
                [VNull; VString (lit "  "); VUndefined; VString []]).
  { repeat constructor; unfold blankValue;
      first [left; reflexivity | right; reflexivity]. }
  split; [exact H|].
  apply (analyzeColumnData_blank
           [VNull; VString (lit "  "); VUndefined; VString []]).
  exact H.
Defined.

Lemma descending_filter (f : ScoreItem -> bool) l :
  descending l -> descending (List.filter f l).
Proof.
  unfold descending. induction 1 as [|x l Hl IH Hx]; [constructor|].
  cbn [List.filter]. destruct (f x); [|exact IH].
  constructor; [exact IH|].
  rewrite Forall_forall in *. intros y Hy. apply filter_In in Hy as [Hy _].
  now apply Hx.
Qed.

(** X16.  [getAllPotentialKeys] returns the entries of the ranking with a
    positive score, highest first; it returns none exactly when
    [detectKeyColumn] has no suggestion. *)
Theorem getAllPotentialKeys_spec (headers : list Header) (rows : list object) :
  (forall o, In o (getAllPotentialKeys headers rows)
     <-> In o (allScores (detectKeyColumn headers rows)) /\ 0 < score o)
  /\ descending (getAllPotentialKeys headers rows)
  /\ (getAllPotentialKeys headers rows = []
      <-> suggested (detectKeyColumn headers rows) = None).
Proof.
  unfold getAllPotentialKeys. split; [|split].
  - intros o. rewrite filter_In, Nat.ltb_lt. reflexivity.
  - apply descending_filter, detectKeyColumn_ranking_aux.
  - pose proof (proj2 (detectKeyColumn_ranking_aux headers rows)) as Hdesc.
    unfold detectKeyColumn in *.
    set (sorted := sortByScore (List.map (analyzeHeader rows) headers)) in *.
    cbn [suggested allScores] in *.
    destruct sorted as [|top rest]; [split; reflexivity|].
    destruct (Nat.ltb_spec 0 (score top)) as [Hpos|Hzero];
      cbn [score header] in *.
    + rewrite (proj2 (Nat.ltb_lt 0 (score top)) Hpos).
      cbn [List.filter score]. rewrite (proj2 (Nat.ltb_lt 0 (score top)) Hpos).
      split; discriminate.
    + rewrite (proj2 (Nat.ltb_ge 0 (score top)) Hzero).
      split; [reflexivity|]. intros _.
      assert (G : forall o, In o (top :: rest) -> Nat.ltb 0 (score o) = false).
      { intros o Ho. apply Nat.ltb_ge.
        pose proof (descending_head _ _ Hdesc o Ho). lia. }
      clear Hdesc. induction (top :: rest) as [|x l IH]; [reflexivity|].
      cbn [List.filter]. rewrite (G x (or_introl eq_refl)).
      apply IH. intros o Ho. apply G. now right.
Qed.

End KeyDetectorProperties.

(* ================================================================== *)
(** * The key detector: a header named "Employee ID" among others *)
(* ================================================================== *)

Module KeyDetectorRanking.
Import JS KeyDetector KeyDetectorNotions JSFacts KeyDetectorFacts
       KeyDetectorProperties.





End KeyDetectorRanking.

(* ================================================================== *)
(** * Further properties of the file parser *)
(* ================================================================== *)

Module FileParserProperties.
Import JS FileParser FileParserNotions JSFacts.

(** ** Extensions *)

Lemma lastIndexFrom_found c : forall s i found,
  ~ In c s -> lastIndexFrom c s i found = found.
Proof.
  induction s as [|x s IH]; intros i found H; [reflexivity|].
  cbn [lastIndexFrom].
  destruct (N.eqb_spec x c) as [->|_]; [exfalso; apply H; now left|].
  apply IH. intros G. apply H. now right.
Qed.

Lemma lastIndexFrom_last c ext : ~ In c ext ->
  forall base i found,
    lastIndexFrom c (base ++ c :: ext) i found
    = (i + Z.of_nat (List.length base))%Z.
Proof.
  intros Hext. induction base as [|x base IH]; intros i found.
  - cbn [app lastIndexFrom List.length]. rewrite N.eqb_refl.
    rewrite lastIndexFrom_found by assumption. cbn. lia.
  - cbn [app lastIndexFrom List.length]. rewrite IH. lia.
Qed.

Lemma skipn_app_exact {A} (l l' : list A) : skipn (List.length l) (l ++ l') = l'.
Proof. induction l as [|x l IH]; [reflexivity | exact IH]. Qed.

Lemma lower_dot c : lowerChar c = 46%N -> c = 46%N.
Proof.
  unfold lowerChar.
  destruct (N.leb_spec 65 c), (N.leb_spec c 90); cbn [andb]; lia.
Qed.

(** X17.  [isSupported] looks at the text after the last dot, ignoring
    case: a name [base.ext] whose [ext] has no dot is supported exactly when
    [.ext], lower-cased, is one of .xlsx, .xls and .csv; a name without any
    dot is not supported. *)
Theorem isSupported_by_extension :
  (forall base ext : jsstring,
     ~ In 46%N ext ->
     getExtension (base ++ 46%N :: ext) = 46%N :: toLowerCase ext
     /\ isSupported (base ++ 46%N :: ext)
        = includes (46%N :: toLowerCase ext) supportedExtensions)
  /\ (forall fileName : jsstring,
        ~ In 46%N fileName -> isSupported fileName = false).
Proof.
  split.
  - intros base ext Hext.
    assert (E : getExtension (base ++ 46%N :: ext) = 46%N :: toLowerCase ext).
    { unfold getExtension, lastIndexOf, substring.
      rewrite lastIndexFrom_last by assumption.
      replace (Z.to_nat (Z.max 0 (0 + Z.of_nat (List.length base))))
        with (List.length base) by lia.
      rewrite skipn_app_exact. reflexivity. }
    split; [exact E|]. unfold isSupported. now rewrite E.
  - intros fileName Hno. unfold isSupported, getExtension, lastIndexOf.
    rewrite lastIndexFrom_found by assumption. unfold substring.
    change (Z.to_nat (Z.max 0 (-1))) with 0. cbn [skipn].
    destruct (includes (toLowerCase fileName) supportedExtensions) eqn:E;
      [|reflexivity].
    exfalso. apply includes_In in E.
    assert (Hdot : In 46%N (toLowerCase fileName)).
    { cbv [supportedExtensions] in E. cbn [In] in E.
      destruct E as [<-|[<-|[<-|[]]]]; left; reflexivity. }
    unfold toLowerCase in Hdot. apply in_map_iff in Hdot as [c [Hc Hin]].
    apply lower_dot in Hc. subst c. now apply Hno.
Qed.

Lemma isSupported_by_extension_witness :
  ~ In 46%N (lit "XLSX")
  /\ isSupported (lit "staff" ++ 46%N :: lit "XLSX") = true
  /\ ~ In 46%N (lit "readme")
  /\ isSupported (lit "readme") = false.
Proof.
  assert (H1 : ~ In 46%N (lit "XLSX")) by (vm_compute; intuition discriminate).
  assert (H2 : ~ In 46%N (lit "readme")) by (vm_compute; intuition discriminate).
  split; [exact H1|]. split.
  - rewrite (proj2 (proj1 isSupported_by_extension (lit "staff") (lit "XLSX") H1)).
    reflexivity.
  - split; [exact H2|].
    exact (proj2 isSupported_by_extension (lit "readme") H2).
Defined.

(** ** validateFiles *)

Lemma firstn_incl {A} n (l : list A) x : In x (firstn n l) -> In x l.
Proof.
  intros H. rewrite <- (firstn_skipn n l). apply in_or_app. now left.
Qed.

Lemma validateFile_fold files : forall errs ok,
  fold_left validateFile files (errs, ok)
  = (errs ++ flat_map (fun f =>
                         if negb (isSupported (fname f))
                         then [UnsupportedFile (fname f)]
                         else if N.ltb maxFileSize (size f)
                              then [FileTooLarge (fname f)] else [])
                      files,
     ok ++ List.filter acceptable files).
Proof.
  induction files as [|f files IH]; intros errs ok.
  - cbn [fold_left flat_map List.filter]. now rewrite !app_nil_r.
  - cbn [fold_left flat_map List.filter]. unfold validateFile at 2, acceptable.
    cbn [fst snd].
    destruct (isSupported (fname f)); cbn [negb andb].
    + destruct (N.ltb maxFileSize (size f)); cbn [negb];
        rewrite IH, <- ?app_assoc; reflexivity.
    + rewrite IH, <- app_assoc. reflexivity.
Qed.

(** X18.  [validateFiles] keeps at most ten files, every one of them a
    file it was given that is supported and not above 50 MB, in the order
    given; the batch is valid exactly when it has at most ten files and all
    of them are acceptable, and then all of them are kept. *)
Theorem validateFiles_spec (files : list File) :
  let v := validateFiles files in
  validFiles v = firstn 10 (List.filter acceptable files)
  /\ List.length (validFiles v) <= 10
  /\ (forall f, In f (validFiles v) ->
        In f files /\ isSupported (fname f) = true
        /\ (size f <= 50 * 1024 * 1024)%N)
  /\ (valid v = true
      <-> List.length files <= 10 /\ forallb acceptable files = true)
  /\ (valid v = true -> validFiles v = files).
Proof.
  intros v. unfold v, validateFiles. rewrite validateFile_fold.
  cbn [valid validFiles app]. unfold maxFiles.
  set (errs := flat_map _ files).
  assert (Herrs : errs = [] <-> forallb acceptable files = true).
  { unfold errs. induction files as [|f files IH]; [split; reflexivity|].
    cbn [flat_map forallb]. unfold acceptable at 1.
    destruct (isSupported (fname f)); cbn [negb andb];
      [|split; discriminate].
    destruct (N.ltb maxFileSize (size f)); cbn [negb andb app];
      [split; discriminate | exact IH]. }
  assert (Hvalid : Nat.eqb (List.length
                     ((if Nat.ltb 10 (List.length files)
                       then [TooManyFiles] else []) ++ errs)) 0 = true
                   <-> List.length files <= 10
                       /\ forallb acceptable files = true).
  { rewrite Nat.eqb_eq, length_zero_iff_nil, <- Herrs.
    destruct (Nat.ltb_spec 10 (List.length files)) as [Hgt|Hle].
    - split; [discriminate | lia].
    - cbn [app]. tauto. }
  split; [reflexivity|]. split; [apply firstn_le_length|].
  split; [|split; [exact Hvalid|]].
  - intros f Hf. apply firstn_incl in Hf. apply filter_In in Hf as [Hin Hacc].
    unfold acceptable in Hacc. apply andb_prop in Hacc as [Hs Hsz].
    split; [exact Hin|]. split; [exact Hs|].
    apply negb_true_iff, N.ltb_ge in Hsz. exact Hsz.
  - intros H. apply Hvalid in H as [Hlen Hall].
    rewrite filter_all
      by (apply Forall_forall; exact (proj1 (forallb_forall _ _) Hall)).
    now apply firstn_all2.
Qed.

(** ** The rows of an extracted sheet *)

Lemma getProp_setProp_same (o : object) k v : getProp (setProp o k v) k = v.
Proof.
  induction o as [|[k' v'] o IH]; cbn [setProp getProp].
  - now rewrite str_eqb_refl.
  - destruct (str_eqb k' k) eqn:E; cbn [getProp]; rewrite E;
      [reflexivity | exact IH].
Qed.

Lemma getProp_setProp_other (o : object) k v k' :
  k <> k' -> getProp (setProp o k v) k' = getProp o k'.
Proof.
  intros Hne. induction o as [|[k0 v0] o IH]; cbn [setProp getProp].
  - now rewrite (str_eqb_neq _ _ Hne).
  - destruct (str_eqb k0 k) eqn:E; cbn [getProp].
    + apply str_eqb_eq in E. subst k0. now rewrite (str_eqb_neq _ _ Hne).
    + destruct (str_eqb k0 k'); [reflexivity | exact IH].
Qed.

Lemma assign_proto {V} (o : list (jsstring * V)) v : assign o PROTO v = o.
Proof. unfold assign. now rewrite str_eqb_refl. Qed.

Lemma assign_other {V} (o : list (jsstring * V)) k v :
  k <> PROTO -> assign o k v = setProp o k v.
Proof. intros H. unfold assign. now rewrite (str_eqb_neq _ _ H). Qed.

Lemma getProp_assign_same (o : object) k v :
  k <> PROTO -> getProp (assign o k v) k = v.
Proof.
  intros H. rewrite assign_other by exact H. apply getProp_setProp_same.
Qed.

Lemma getProp_assign_other (o : object) k v k' :
  k <> k' -> getProp (assign o k v) k' = getProp o k'.
Proof.
  intros H. unfold assign. destruct (str_eqb k PROTO); [reflexivity|].
  now apply getProp_setProp_other.
Qed.

Lemma rowIndex_not_proto : ROW_INDEX <> PROTO.
Proof. intros E. vm_compute in E. discriminate. Qed.

Lemma cells_lookup row nm : forall hs (o : object),
  getProp (fold_left (fun rowData h => assign rowData (name h) (cellFor row h))
                     hs o) nm
  = if str_eqb nm PROTO then getProp o nm
    else match lastNamed nm hs with
         | Some h => cellFor row h
         | None => getProp o nm
         end.
Proof.
  induction hs as [|h hs IH] using rev_ind; intros o;
    [cbn [fold_left]; unfold lastNamed; cbn [rev List.find];
     now destruct (str_eqb nm PROTO)|].
  rewrite fold_left_app. cbn [fold_left].
  unfold lastNamed. rewrite rev_app_distr. cbn [rev app List.find].
  destruct (str_eqb (name h) nm) eqn:E.
  - apply str_eqb_eq in E. subst nm.
    destruct (str_eqb (name h) PROTO) eqn:P.
    + apply str_eqb_eq in P. rewrite P in IH |- *.
      rewrite assign_proto. apply IH.
    + apply getProp_assign_same. intros G.
      rewrite G, str_eqb_refl in P. discriminate.
  - rewrite getProp_assign_other.
    + apply IH.
    + intros G. rewrite G, str_eqb_refl in E. discriminate.
Qed.

Lemma makeRow_lookup hs row i nm :
  nm <> ROW_INDEX ->
  getProp (makeRow hs row i) nm
  = if str_eqb nm PROTO then inherited nm
    else match lastNamed nm hs with
         | Some h => cellFor row h
         | None => inherited nm
         end.
Proof.
  intros Hne. unfold makeRow.
  rewrite getProp_assign_other by congruence.
  exact (cells_lookup row nm hs []).
Qed.

Lemma lastNamed_named nm hs h : lastNamed nm hs = Some h -> In h hs /\ name h = nm.
Proof.
  unfold lastNamed. intros F. apply find_some in F as [Hin E].
  apply str_eqb_eq in E. split; [now apply in_rev | exact E].
Qed.

(** X19.  A row built for a sheet always holds its index under
    "_rowIndex".  When no header of the sheet is named "__proto__": under
    any other name the row holds the cell of the last header that carries
    the name, so that of two headers with one name the later column wins
    (an absent cell reads as the empty string); and a name no header
    carries reads as a plain object reads it, the member [Object.prototype]
    has under that name, if any, and [undefined] otherwise. *)
Theorem makeRow_last_header_wins (hs : list Header) (row : list value)
    (i : nat) :
  getProp (makeRow hs row i) ROW_INDEX = VInt (Z.of_nat i)
  /\ ((forall h, In h hs -> name h <> PROTO) ->
      forall nm, nm <> ROW_INDEX ->
        getProp (makeRow hs row i) nm
        = match lastNamed nm hs with
          | Some h => cellFor row h
          | None => inherited nm
          end).
Proof.
  split.
  - unfold makeRow. apply getProp_assign_same, rowIndex_not_proto.
  - intros Hp nm Hne. rewrite makeRow_lookup by exact Hne.
    destruct (str_eqb nm PROTO) eqn:P; [|reflexivity].
    apply str_eqb_eq in P.
    destruct (lastNamed nm hs) as [h|] eqn:L; [|reflexivity].
    apply lastNamed_named in L as [Hin Hn]. exfalso.
    apply (Hp h Hin). congruence.
Qed.

Lemma makeRow_last_header_wins_witness :
  (forall h, In h twin_headers -> name h <> PROTO)
  /\ getProp (makeRow twin_headers twin_row 0) (lit "ID") = VInt 2
  /\ getProp (makeRow twin_headers twin_row 0) (lit "toString")
     = VOther true (lit "function toString() { [native code] }").
Proof.
  assert (Hp : forall h, In h twin_headers -> name h <> PROTO).
  { intros h [<-|[<-|[<-|[]]]] E; vm_compute in E; discriminate. }
  split; [exact Hp|].
  destruct (makeRow_last_header_wins twin_headers twin_row 0) as [_ H].
  split.
  - rewrite (H Hp (lit "ID")) by (intros E; vm_compute in E; discriminate).
    reflexivity.
  - rewrite (H Hp (lit "toString")) by (intros E; vm_compute in E; discriminate).
    reflexivity.
Defined.




Lemma nth_error_mapi_from {A B} (f : A -> nat -> B) : forall l k i y,
  nth_error (mapi_from k f l) i = Some y ->
  exists x, nth_error l i = Some x /\ y = f x (k + i).
Proof.
  induction l as [|x l IH]; intros k i y H; [destruct i; discriminate|].
  destruct i as [|i]; cbn [mapi_from nth_error] in *.
  - injection H as <-. exists x. now rewrite Nat.add_0_r.
  - destruct (IH _ _ _ H) as [x' [Hx ->]]. exists x'. split; [exact Hx|].
    f_equal. lia.
Qed.



(** ** findCommonColumns *)

(** X21.  For at least one sheet, [findCommonColumns] returns exactly the
    lower-cased header names that occur in every sheet; for no sheet it
    returns nothing. *)
Theorem findCommonColumns_spec (l : list ComparisonSheet) :
  findCommonColumns [] = []
  /\ (l <> [] ->
      forall c, In c (findCommonColumns l)
                <-> forall sheet, In sheet l -> In c (lowerNames sheet)).
Proof.
  split; [reflexivity|]. intros Hne c.
  destruct l as [|s0 l]; [congruence|]. clear Hne.
  unfold findCommonColumns.
  set (sets := List.map (fun sheet =>
                  newSet (List.map (fun h => toLowerCase (name h))
                                   (cheaders sheet))) (s0 :: l)).
  rewrite filter_In, forallb_forall.
  assert (Hsets : (forall set, In set sets -> includes c set = true)
                  <-> forall sheet, In sheet (s0 :: l) -> In c (lowerNames sheet)).
  { unfold sets. split.
    - intros H sheet Hs.
      apply (MatcherRanges.newSet_set (lowerNames sheet)), includes_In, H.
      apply in_map_iff. exists sheet. split; [reflexivity | exact Hs].
    - intros H set Hset. apply in_map_iff in Hset as [sheet [<- Hs]].
      apply includes_In, MatcherRanges.newSet_set. now apply H. }
  rewrite Hsets. split; [tauto|]. intros H. split; [|exact H].
  cbn [List.map hd]. apply MatcherRanges.newSet_set. apply H. now left.
Qed.

End FileParserProperties.

(* ================================================================== *)
(** * The reporter: further properties *)
(* ================================================================== *)

Module ReporterProperties.
Import JS Reporter ReporterNotions JSFacts MatcherFacts ReporterFacts.

(** ** compareColumnValues *)

(** X22.  A column comparison carries exactly one of the flags [isExact],
    [isFuzzy] and [isConflict], whatever the values; with fewer than two
    values that are neither [null] nor [undefined] it is exact with
    score 1. *)
Theorem compareColumnValues_flags cfg (vals : list value) :
  let c := compareColumnValues cfg vals in
  ((isExact c = true /\ isFuzzy c = false /\ isConflict c = false)
   \/ (isExact c = false /\ isFuzzy c = true /\ isConflict c = false)
   \/ (isExact c = false /\ isFuzzy c = false /\ isConflict c = true))
  /\ (List.length (List.filter (fun v => negb (isNullish v)) vals) < 2 ->
      isExact c = true /\ score c = 1%R).
Proof.
  cbv zeta. unfold compareColumnValues.
  destruct (List.filter _ vals) as [|v [|w rest]];
    [split; [left|]; repeat split.. |].
  split; [|cbn [List.length]; lia].
  destruct (fold_left _ _ _) as [lo hi]. cbn [isExact isFuzzy isConflict].
  unfold below.
  pose proof (Qle_Rle (6 # 10) (99 # 100) ltac:(discriminate)) as Hq.
  destruct (Matcher.atLeast lo (99 # 100)) eqn:E99.
  - left. apply atLeast_spec in E99.
    rewrite atLeast_yes by lra. repeat split.
  - destruct (Matcher.atLeast lo (6 # 10)); cbn [negb andb];
      [right; left | right; right]; repeat split.
Qed.

Lemma minmax_fold (f : value * value -> R) (B : R) :
  (1 <= B)%R ->
  forall ps lo hi,
    (forall p, In p ps -> 0 <= f p <= B)%R ->
    (0 <= lo <= 1)%R -> (0 <= hi <= B)%R ->
    (lo <= hi)%R \/ ps <> [] ->
    let r := fold_left (fun mm p => (Rmin (fst mm) (f p), Rmax (snd mm) (f p)))
                       ps (lo, hi) in
    (0 <= fst r <= 1)%R /\ (0 <= snd r <= B)%R /\ (fst r <= snd r)%R.
Proof.
  intros HB. induction ps as [|p ps IH]; intros lo hi Hf Hlo Hhi Hne.
  - cbn [fold_left fst snd]. destruct Hne as [H|H]; [lra | congruence].
  - cbn [fold_left fst snd].
    assert (Hp : (0 <= f p <= B)%R) by (apply Hf; now left).
    apply IH.
    + intros q Hq. apply Hf. now right.
    + unfold Rmin. destruct (Rle_dec lo (f p)); lra.
    + unfold Rmax. destruct (Rle_dec hi (f p)); lra.
    + left. unfold Rmin, Rmax.
      destruct (Rle_dec lo (f p)), (Rle_dec hi (f p)); lra.
Qed.

Lemma compareColumnValues_range cfg (vals : list value) :
  (Matcher.numericTolerance cfg <= 1)%Q ->
  (0 <= score (compareColumnValues cfg vals) <= 43 / 40)%R.
Proof.
  intros Htol. unfold compareColumnValues.
  destruct (List.filter _ vals) as [|v [|w rest]]; [cbn [score]; lra.. |].
  pose proof (minmax_fold
                (fun p => Matcher.score (Matcher.smartMatch cfg (fst p) (snd p)))
                (23 / 20)%R ltac:(lra) (pairs (v :: w :: rest)) 1%R 0%R) as H.
  cbv zeta in H.
  destruct (fold_left _ _ _) as [lo hi]. cbn [fst snd] in H. cbn [score].
  destruct H as [H1 [H2 H3]]; [| lra | lra | | lra].
  - intros p _. apply MatcherScores.smartMatch_score_bounds, Htol.
  - right. cbn [pairs List.map app]. discriminate.
Qed.

Lemma sumScores_range (B : R) (comps : list ColumnComparison) :
  (forall c, In c comps -> 0 <= score c <= B)%R ->
  (0 <= sumScores comps <= INR (List.length comps) * B)%R.
Proof.
  induction comps as [|c comps IH]; intros H.
  - cbn [sumScores fold_right List.length INR]. lra.
  - change (sumScores (c :: comps)) with (score c + sumScores comps)%R.
    change (List.length (c :: comps)) with (S (List.length comps)).
    rewrite S_INR.
    assert (Hc : (0 <= score c <= B)%R) by (apply H; now left).
    assert (Hs : (0 <= sumScores comps <= INR (List.length comps) * B)%R).
    { apply IH. intros d Hd. apply H. now right. }
    lra.
Qed.

(** X23.  Under a configuration whose numeric tolerance is at most 1, the
    score of a column comparison and the [matchScore] of an analysis lie
    between 0 and 1.075, whatever the record, the number of sheets and the
    columns. *)
Theorem analyzeRecord_score_range cfg :
  (Matcher.numericTolerance cfg <= 1)%Q ->
  (forall vals, 0 <= score (compareColumnValues cfg vals) <= 43 / 40)%R
  /\ (forall rec n cols,
        0 <= matchScore (analyzeRecord cfg rec n cols) <= 43 / 40)%R.
Proof.
  intros Htol. split; [intros vals; now apply compareColumnValues_range|].
  intros rec n cols. rewrite analyzeRecord_eq. cbv zeta.
  destruct (Nat.ltb _ n) eqn:Hlt; cbn [matchScore].
  - apply Nat.ltb_lt in Hlt.
    set (p := List.length _) in *.
    assert (Hn : (0 < INR n)%R) by (apply lt_0_INR; lia).
    assert (Hp : (0 <= INR p)%R) by apply pos_INR.
    assert (Hpn : (INR p < INR n)%R) by now apply lt_INR.
    pose proof (Rinv_0_lt_compat _ Hn) as Hi.
    assert (Hr : (INR n * / INR n = 1)%R) by (apply Rinv_r; lra).
    unfold Rdiv. nra.
  - destruct (Nat.ltb 0 (List.length cols)) eqn:Hc; [|lra].
    apply Nat.ltb_lt in Hc.
    destruct (tally_fold cfg rec cols (mkTally [] 0%R false false)) as [-> _].
    cbn [totalScore].
    pose proof (sumScores_range (43 / 40)%R (comparisonsOf cfg rec cols)) as Hs.
    assert (Hlen : List.length (comparisonsOf cfg rec cols) = List.length cols)
      by (unfold comparisonsOf; apply length_map).
    rewrite Hlen in Hs.
    assert (Hn : (0 < INR (List.length cols))%R) by (apply lt_0_INR; lia).
    pose proof (Rinv_0_lt_compat _ Hn) as Hi.
    assert (Hr : (INR (List.length cols) * / INR (List.length cols) = 1)%R)
      by (apply Rinv_r; lra).
    destruct Hs as [Hs1 Hs2].
    { intros c Hin. apply in_map_iff in Hin as [col [<- _]].
      now apply compareColumnValues_range. }
    unfold Rdiv. nra.
Qed.

Lemma analyzeRecord_score_range_witness :
  (Matcher.numericTolerance Matcher.config <= 1)%Q
  /\ (0 <= matchScore (analyzeRecord Matcher.config north_south 2 [lit "City"])
      <= 43 / 40)%R.
Proof.
  split.
  - discriminate.
  - apply (proj2 (analyzeRecord_score_range Matcher.config ltac:(discriminate))).
Defined.

(** ** Records missing from a sheet *)

Lemma absent_fold (l : list (option object)) : forall k acc,
  foldi_from k (fun acc presence idx =>
                  if isPresent presence then acc else acc ++ [idx]) l acc
  = acc ++ absentFrom k l.
Proof.
  induction l as [|[r|] l IH]; intros k acc; cbn [foldi_from absentFrom isPresent].
  - now rewrite app_nil_r.
  - apply IH.
  - rewrite IH, <- app_assoc. reflexivity.
Qed.

Lemma absentFrom_In (l : list (option object)) : forall k i,
  In i (absentFrom k l) <-> exists j, i = k + j /\ nth_error l j = Some None.
Proof.
  induction l as [|p l IH]; intros k i.
  - cbn [absentFrom In]. split; [tauto|]. intros [[|j] [_ H]]; discriminate.
  - assert (Hshift : (exists j, i = S k + j /\ nth_error l j = Some None)
                     <-> (exists j, i = k + S j /\ nth_error l j = Some None)).
    { split; intros [j [-> H]]; exists j; split; auto; lia. }
    destruct p as [r|]; cbn [absentFrom In]; rewrite ?IH, Hshift.
    + split.
      * intros [j [-> H]]. exists (S j). auto.
      * intros [[|j] [-> H]]; [discriminate|]. exists j. auto.
    + split.
      * intros [<-|[j [-> H]]]; [exists 0 | exists (S j)]; split; auto; lia.
      * intros [[|j] [-> H]]; [left; lia | right; exists j; auto].
Qed.

Lemma absentFrom_sorted (l : list (option object)) : forall k,
  StronglySorted lt (absentFrom k l).
Proof.
  induction l as [|[r|] l IH]; intros k; cbn [absentFrom].
  - constructor.
  - apply IH.
  - constructor; [apply IH|]. apply Forall_forall. intros i Hi.
    apply absentFrom_In in Hi as [j [-> _]]. lia.
Qed.

Lemma absentFrom_count (l : list (option object)) : forall k,
  List.length (List.filter isPresent l) + List.length (absentFrom k l)
  = List.length l.
Proof.
  induction l as [|[r|] l IH]; intros k;
    cbn [absentFrom List.filter isPresent List.length]; auto.
  - now rewrite <- (IH (S k)).
  - rewrite <- (IH (S k)). lia.
Qed.

Lemma absent_In_None (l : list (option object)) :
  List.length (List.filter isPresent l) < List.length l <-> In None l.
Proof.
  pose proof (absentFrom_count l 0) as Hc. split.
  - intros H. destruct (absentFrom 0 l) as [|i t] eqn:E;
      [cbn [List.length] in Hc; lia|].
    assert (Hi : In i (absentFrom 0 l)) by (rewrite E; now left).
    apply absentFrom_In in Hi as [j [_ Hj]]. now apply nth_error_In in Hj.
  - intros H. apply In_nth_error in H as [j Hj].
    assert (Hi : In (0 + j) (absentFrom 0 l))
      by (apply absentFrom_In; exists j; auto).
    destruct (absentFrom 0 l); [contradiction | cbn [List.length] in Hc; lia].
Qed.

(** X24.  For a record with one presence slot per sheet: the analysis is
    [missing] exactly when some slot is empty.  It then lists the indices
    of the empty slots in increasing order, counts the filled ones in
    [presentIn], scores the filled fraction, which is below 1, and holds no
    column comparison. *)
Theorem analyzeRecord_missing cfg (rec : RecordEntry) (cols : list jsstring) :
  let n := List.length (sheetPresence rec) in
  let a := analyzeRecord cfg rec n cols in
  (astatus a = missing <-> In None (sheetPresence rec))
  /\ (In None (sheetPresence rec) ->
      exists mi,
        missingInSheets a = Some mi
        /\ (forall i, In i mi <-> nth_error (sheetPresence rec) i = Some None)
        /\ StronglySorted lt mi
        /\ presentIn a + List.length mi = n
        /\ matchScore a = (INR (presentIn a) / INR n)%R
        /\ (0 <= matchScore a < 1)%R
        /\ columnComparisons a = None).
Proof.
  cbv zeta. rewrite analyzeRecord_eq. cbv zeta.
  destruct (Nat.ltb _ _) eqn:Hlt.
  - apply Nat.ltb_lt in Hlt. cbn [astatus missingInSheets presentIn matchScore
                                  columnComparisons].
    split; [split; [intros _; now apply absent_In_None | reflexivity]|].
    intros _. unfold foldi. rewrite absent_fold. cbn [app].
    exists (absentFrom 0 (sheetPresence rec)).
    split; [reflexivity|]. split; [|split; [apply absentFrom_sorted|]].
    { intros i. rewrite absentFrom_In. split.
      - intros [j [-> H]]. exact H.
      - intros H. exists i. auto. }
    split; [apply absentFrom_count|]. split; [reflexivity|].
    set (p := List.length (List.filter _ _)) in *.
    set (n := List.length (sheetPresence rec)) in *.
    assert (Hn : (0 < INR n)%R) by (apply lt_0_INR; lia).
    assert (Hp : (0 <= INR p)%R) by apply pos_INR.
    assert (Hpn : (INR p < INR n)%R) by now apply lt_INR.
    pose proof (Rinv_0_lt_compat _ Hn) as Hi.
    assert (Hr : (INR n * / INR n = 1)%R) by (apply Rinv_r; lra).
    split; [|reflexivity]. unfold Rdiv. nra.
  - apply Nat.ltb_ge in Hlt.
    assert (Hno : ~ In None (sheetPresence rec)).
    { intros H. apply absent_In_None in H. lia. }
    split; [|tauto]. split; [|tauto]. cbn [astatus].
    repeat match goal with
           | |- context [if ?c then _ else _] => destruct c
           end; discriminate.
Qed.

(** ** The record map *)

Section Entries.
Variable V : Type.
Implicit Types (m : list (jsstring * V)) (k : jsstring) (v : V).

Lemma getKey_setProp_same m k v : getKey (setProp m k v) k = Some v.
Proof.
  unfold getKey. induction m as [|[k' v'] m IH]; cbn [setProp List.find fst].
  - now rewrite str_eqb_refl.
  - destruct (str_eqb k' k) eqn:E; cbn [List.find fst]; rewrite E;
      [reflexivity | exact IH].
Qed.

Lemma getKey_setProp_other m k v k' :
  k <> k' -> getKey (setProp m k v) k' = getKey m k'.
Proof.
  intros Hne. unfold getKey.
  induction m as [|[k0 v0] m IH]; cbn [setProp List.find fst].
  - now rewrite (str_eqb_neq _ _ Hne).
  - destruct (str_eqb k0 k) eqn:E; cbn [List.find fst].
    + apply str_eqb_eq in E. subst k0. now rewrite (str_eqb_neq _ _ Hne).
    + destruct (str_eqb k0 k'); [reflexivity | exact IH].
Qed.

Lemma setProp_twice m k a b : setProp (setProp m k a) k b = setProp m k b.
Proof.
  induction m as [|[k' v'] m IH]; cbn [setProp].
  - now rewrite str_eqb_refl.
  - destruct (str_eqb k' k) eqn:E; cbn [setProp]; rewrite E;
      [reflexivity | now rewrite IH].
Qed.

Lemma hasKey_getKey m k : hasKey m k = true -> exists v, getKey m k = Some v.
Proof.
  unfold hasKey, getKey. induction m as [|[k' v'] m IH];
    cbn [existsb List.find fst]; [discriminate|].
  destruct (str_eqb k' k); cbn [orb option_map snd]; eauto.
Qed.

Lemma hasKey_false m k : hasKey m k = false -> getKey m k = None.
Proof.
  unfold hasKey, getKey. induction m as [|[k' v'] m IH];
    cbn [existsb List.find fst]; [reflexivity|].
  destruct (str_eqb k' k); cbn [orb]; [discriminate | exact IH].
Qed.

Lemma getKey_In m k v : getKey m k = Some v -> In (k, v) m.
Proof.
  unfold getKey. destruct (List.find _ m) as [[k' v']|] eqn:F; [|discriminate].
  cbn [option_map snd]. intros [= ->].
  apply find_some in F as [Hin E]. cbn [fst] in E.
  apply str_eqb_eq in E. now subst k'.
Qed.

Lemma getKey_keys m k v : getKey m k = Some v -> In k (List.map fst m).
Proof.
  intros H. apply getKey_In in H. apply in_map_iff. exists (k, v). auto.
Qed.

Lemma getKey_None m k : getKey m k = None -> ~ In k (List.map fst m).
Proof.
  unfold getKey. destruct (List.find _ m) eqn:F; [discriminate|]. intros _ Hin.
  apply in_map_iff in Hin as [[k' v'] [E Hin]]. cbn [fst] in E. subst k'.
  pose proof (find_none _ _ F _ Hin) as G. cbn [fst] in G.
  rewrite str_eqb_refl in G. discriminate.
Qed.

Lemma In_setProp m k v e : In e (setProp m k v) -> e = (k, v) \/ In e m.
Proof.
  induction m as [|[k' v'] m IH]; cbn [setProp].
  - intros [<-|[]]. now left.
  - destruct (str_eqb k' k) eqn:E.
    + apply str_eqb_eq in E. subst k'. intros [<-|H]; [now left|].
      right. now right.
    + intros [<-|H]; [right; now left|].
      destruct (IH H) as [->|G]; [now left | right; now right].
Qed.

Lemma In_setProp_new m k v : In (k, v) (setProp m k v).
Proof.
  induction m as [|[k' v'] m IH]; cbn [setProp]; [now left|].
  destruct (str_eqb k' k) eqn:E.
  - apply str_eqb_eq in E. subst k'. now left.
  - right. exact IH.
Qed.

Lemma keys_setProp m k v :
  List.map fst (setProp m k v)
  = if hasKey m k then List.map fst m else List.map fst m ++ [k].
Proof.
  unfold hasKey. induction m as [|[k' v'] m IH];
    cbn [setProp existsb List.map fst app]; [reflexivity|].
  destruct (str_eqb k' k) eqn:E; cbn [orb List.map fst]; [reflexivity|].
  rewrite IH. destruct (existsb _ m); reflexivity.
Qed.

Lemma NoDup_setProp m k v :
  NoDup (List.map fst m) -> NoDup (List.map fst (setProp m k v)).
Proof.
  intros H. rewrite keys_setProp. destruct (hasKey m k) eqn:E; [exact H|].
  apply hasKey_false, getKey_None in E.
  apply NoDup_app; [exact H | repeat constructor; intros [] | ].
  intros x Hx [<-|[]]. contradiction.
Qed.

End Entries.

Arguments getKey_setProp_same {V}.
Arguments getKey_setProp_other {V}.
Arguments setProp_twice {V}.
Arguments hasKey_getKey {V}.
Arguments hasKey_false {V}.
Arguments getKey_In {V}.
Arguments getKey_keys {V}.
Arguments getKey_None {V}.
Arguments In_setProp {V}.
Arguments In_setProp_new {V}.
Arguments keys_setProp {V}.
Arguments NoDup_setProp {V}.

Lemma length_setAt {A} (x : A) : forall l i,
  List.length (setAt i x l) = List.length l.
Proof.
  induction l as [|y l IH]; intros [|i]; cbn [setAt List.length]; auto.
Qed.

Lemma nth_error_setAt_same {A} (x : A) : forall l i,
  i < List.length l -> nth_error (setAt i x l) i = Some x.
Proof.
  induction l as [|y l IH]; intros [|i] H; cbn [List.length] in H;
    cbn [setAt nth_error]; try lia; [reflexivity|].
  apply IH. lia.
Qed.

Lemma nth_error_setAt_other {A} (x : A) : forall l i j,
  i <> j -> nth_error (setAt i x l) j = nth_error l j.
Proof.
  induction l as [|y l IH]; intros [|i] [|j] H; cbn [setAt nth_error];
    try reflexivity; try congruence.
  apply IH. congruence.
Qed.

Lemma foldi_from_indexed {A B} (P : B -> Prop) (f : B -> A -> nat -> B) :
  forall l k s,
    (forall s x j, nth_error l j = Some x -> P s -> P (f s x (k + j))) ->
    P s -> P (foldi_from k f l s).
Proof.
  induction l as [|a l IH]; intros k s H Hs; cbn [foldi_from]; [exact Hs|].
  apply IH.
  - intros s' x j Hj Hs'. replace (S k + j) with (k + S j) by lia.
    now apply H.
  - specialize (H s a 0 eq_refl Hs). now rewrite Nat.add_0_r in H.
Qed.

Lemma addRow_eq n si lbl keyCol m r ri :
  addRow n si lbl keyCol m r ri
  = if blankKey keyCol r then m
    else setProp m (keyOf keyCol r)
           (extended match getKey m (keyOf keyCol r) with
                     | Some rec => rec
                     | None => fresh n (keyOf keyCol r)
                     end
                     (mkOccurrence si lbl r ri)).
Proof.
  unfold addRow, blankKey, keyOf. cbv zeta.
  destruct (isNullish _ || str_eqb _ []); [reflexivity|].
  destruct (hasKey m _) eqn:E.
  - destruct (hasKey_getKey _ _ E) as [rec ->]. reflexivity.
  - rewrite (hasKey_false _ _ E), getKey_setProp_same, setProp_twice.
    reflexivity.
Qed.

Lemma blankKey_false keyCol r : blankKey keyCol r = false -> keyOf keyCol r <> [].
Proof.
  unfold blankKey, keyOf. intros H. apply orb_false_iff in H as [_ H].
  intros E. rewrite E in H. discriminate.
Qed.

Lemma fresh_grouped sheets keyCol k :
  k <> [] -> grouped sheets keyCol (fresh (List.length sheets) k).
Proof.
  intros Hk. unfold grouped, fresh. cbn [key sheetPresence occurrences].
  split; [exact Hk|]. split; [apply repeat_length|].
  split; [intros o []|]. intros si Hsi.
  now rewrite nth_error_repeat.
Qed.

Lemma extended_grouped sheets keyCol rec sheet si r ri :
  grouped sheets keyCol rec ->
  nth_error sheets si = Some sheet ->
  nth_error (FileParser.crows sheet) ri = Some r ->
  keyOf keyCol r = key rec ->
  grouped sheets keyCol
          (extended rec (mkOccurrence si (FileParser.label sheet) r ri)).
Proof.
  intros [Hk [Hlen [Hocc Hlast]]] Hsheet Hrow Hkey.
  assert (Hsi : si < List.length sheets)
    by (apply nth_error_Some; congruence).
  unfold grouped, extended.
  cbn [key sheetPresence occurrences sheetIndex row].
  split; [exact Hk|]. split; [now rewrite length_setAt|]. split.
  - intros o Ho. apply in_app_or in Ho as [Ho|[<-|[]]]; [now apply Hocc|].
    cbn [row]. split; [exact Hkey|]. exists sheet.
    cbn [sheetIndex sheetName rowIndex row]. auto.
  - intros sj Hsj. unfold lastFrom. rewrite rev_app_distr.
    cbn [rev app List.find sheetIndex].
    destruct (Nat.eqb si sj) eqn:E.
    + apply Nat.eqb_eq in E. subst sj. cbn [option_map row].
      apply nth_error_setAt_same. now rewrite Hlen.
    + apply Nat.eqb_neq in E. rewrite nth_error_setAt_other by exact E.
      now apply Hlast.
Qed.

Lemma addRow_grouped sheets keyCol sheet si r ri m :
  nth_error sheets si = Some sheet ->
  nth_error (FileParser.crows sheet) ri = Some r ->
  (NoDup (List.map fst m)
   /\ forall k rec, In (k, rec) m ->
        key rec = k /\ occurrences rec <> [] /\ grouped sheets keyCol rec) ->
  NoDup (List.map fst (addRow (List.length sheets) si (FileParser.label sheet)
                              keyCol m r ri))
  /\ forall k rec,
       In (k, rec) (addRow (List.length sheets) si (FileParser.label sheet)
                           keyCol m r ri) ->
       key rec = k /\ occurrences rec <> [] /\ grouped sheets keyCol rec.
Proof.
  intros Hsheet Hrow [Hnd Hm]. rewrite addRow_eq.
  destruct (blankKey keyCol r) eqn:Hb; [split; assumption|].
  split; [now apply NoDup_setProp|].
  intros k rec Hin. apply In_setProp in Hin as [E|Hin]; [|now apply Hm].
  injection E as -> ->.
  assert (Hbase : key match getKey m (keyOf keyCol r) with
                      | Some rec => rec
                      | None => fresh (List.length sheets) (keyOf keyCol r)
                      end = keyOf keyCol r
                  /\ grouped sheets keyCol
                       match getKey m (keyOf keyCol r) with
                       | Some rec => rec
                       | None => fresh (List.length sheets) (keyOf keyCol r)
                       end).
  { destruct (getKey m (keyOf keyCol r)) as [rec|] eqn:G.
    - apply getKey_In in G. destruct (Hm _ _ G) as [H1 [_ H2]]. auto.
    - split; [reflexivity|]. apply fresh_grouped. now apply blankKey_false. }
  destruct Hbase as [Hkey Hg].
  split; [exact Hkey|]. split.
  - unfold extended. cbn [occurrences]. intros E.
    apply app_eq_nil in E as [_ E]. discriminate.
  - now apply extended_grouped.
Qed.

Lemma buildRecordMap_grouped sheets keyCol :
  NoDup (List.map fst (buildRecordMap sheets keyCol))
  /\ forall k rec, In (k, rec) (buildRecordMap sheets keyCol) ->
       key rec = k /\ occurrences rec <> [] /\ grouped sheets keyCol rec.
Proof.
  unfold buildRecordMap, foldi.
  apply (foldi_from_indexed
           (fun m => NoDup (List.map fst m)
                     /\ forall k rec, In (k, rec) m ->
                          key rec = k /\ occurrences rec <> []
                          /\ grouped sheets keyCol rec)).
  - intros m sheet si Hsheet Hm. cbn [Nat.add].
    apply (foldi_from_indexed
             (fun m => NoDup (List.map fst m)
                       /\ forall k rec, In (k, rec) m ->
                            key rec = k /\ occurrences rec <> []
                            /\ grouped sheets keyCol rec)); [|exact Hm].
    intros m' r ri Hrow Hm'. cbn [Nat.add]. now apply addRow_grouped.
  - split; [constructor | intros k rec []].
Qed.

Lemma all_results cfg sheets keyCol options :
  all (results (buildReport cfg sheets keyCol options))
  = List.map (analysed cfg (List.length sheets)
                (columnsToCompare sheets keyCol options))
             (buildRecordMap sheets keyCol).
Proof. now rewrite buildReport_results. Qed.

(** X25.  In a report of [compareSheets] no two records of [results.all]
    have the same key.  Every record has a key that is not empty, one
    presence slot per sheet and at least one occurrence; each occurrence is
    a row of the sheet it names, at the row index it names, and the trimmed
    text of what that row reads under the key column, a member it inherits
    included, is the key of the record; the slot of a sheet
    holds the row of the last occurrence from that sheet, and [null] when
    there is none. *)
Theorem compareSheets_groups cfg sheets keyCol options rep :
  snd (compareSheets cfg sheets keyCol options) = Some rep ->
  NoDup (List.map key (all (results rep)))
  /\ forall rec, In rec (all (results rep)) ->
       key rec <> []
       /\ List.length (sheetPresence rec) = List.length sheets
       /\ occurrences rec <> []
       /\ (forall o, In o (occurrences rec) ->
             keyOf keyCol (row o) = key rec
             /\ exists sheet,
                  nth_error sheets (sheetIndex o) = Some sheet
                  /\ sheetName o = FileParser.label sheet
                  /\ nth_error (FileParser.crows sheet) (rowIndex o)
                     = Some (row o))
       /\ (forall si, si < List.length sheets ->
             nth_error (sheetPresence rec) si
             = Some (lastFrom si (occurrences rec))).
Proof.
  intros H. destruct (compareSheets_report _ _ _ _ _ H) as [cfg2 ->].
  rewrite all_results.
  destruct (buildRecordMap_grouped sheets keyCol) as [Hnd Hm].
  split.
  - rewrite map_map.
    replace (List.map _ (buildRecordMap sheets keyCol))
      with (List.map fst (buildRecordMap sheets keyCol)); [exact Hnd|].
    apply map_ext_in. intros [k rec] Hin. cbn [analysed key snd fst].
    symmetry. now apply Hm.
  - intros rec Hin. apply in_map_iff in Hin as [[k rec0] [<- Hin]].
    cbn [analysed key snd occurrences sheetPresence].
    destruct (Hm _ _ Hin) as [_ [Hocc [Hk [Hlen [Hsrc Hlast]]]]].
    repeat split; auto; apply Hsrc; assumption.
Qed.

Lemma compareSheets_groups_witness :
  snd (compareSheets Matcher.config two_sheets (lit "ID") defaults)
  = Some two_sheets_report
  /\ NoDup (List.map key (all (results two_sheets_report)))
  /\ forall rec, In rec (all (results two_sheets_report)) ->
       key rec <> [] /\ List.length (sheetPresence rec) = 2.
Proof.
  split; [reflexivity|].
  destruct (compareSheets_groups Matcher.config two_sheets (lit "ID") defaults
              two_sheets_report eq_refl) as [H1 H2].
  split; [exact H1|]. intros rec Hin.
  destruct (H2 rec Hin) as [Hk [Hlen _]]. split; [exact Hk | exact Hlen].
Defined.

Lemma foldi_from_covers {A B} (Q : A -> nat -> B -> Prop)
    (f : B -> A -> nat -> B) :
  (forall s x i y j, Q y j s -> Q y j (f s x i)) ->
  (forall s x i, Q x i (f s x i)) ->
  forall l k s j x, nth_error l j = Some x -> Q x (k + j) (foldi_from k f l s).
Proof.
  intros Hkeep Hnew. induction l as [|a l IH]; intros k s j x Hj;
    [destruct j; discriminate|].
  destruct j as [|j]; cbn [nth_error foldi_from] in *.
  - injection Hj as ->. rewrite Nat.add_0_r.
    apply (foldi_from_invariant (Q x k)); [|apply Hnew].
    intros s' y i _. apply Hkeep.
  - replace (k + S j) with (S k + j) by lia. now apply IH.
Qed.

Lemma addRow_keeps n si lbl keyCol m r ri k o :
  (exists rec, getKey m k = Some rec /\ In o (occurrences rec)) ->
  exists rec, getKey (addRow n si lbl keyCol m r ri) k = Some rec
              /\ In o (occurrences rec).
Proof.
  intros [rec [Hget Hin]]. rewrite addRow_eq.
  destruct (blankKey keyCol r); [eauto|].
  destruct (str_eqb (keyOf keyCol r) k) eqn:E.
  - apply str_eqb_eq in E. rewrite E, Hget, getKey_setProp_same.
    eexists. split; [reflexivity|]. unfold extended. cbn [occurrences].
    apply in_or_app. now left.
  - rewrite getKey_setProp_other; [eauto|].
    intros G. rewrite G, str_eqb_refl in E. discriminate.
Qed.

Lemma addRow_holds n si lbl keyCol m r ri :
  blankKey keyCol r = false ->
  exists rec, getKey (addRow n si lbl keyCol m r ri) (keyOf keyCol r) = Some rec
              /\ In (mkOccurrence si lbl r ri) (occurrences rec).
Proof.
  intros Hb. rewrite addRow_eq, Hb, getKey_setProp_same.
  eexists. split; [reflexivity|]. unfold extended. cbn [occurrences].
  apply in_or_app. right. now left.
Qed.

Lemma buildRecordMap_complete sheets keyCol si sheet ri r :
  nth_error sheets si = Some sheet ->
  nth_error (FileParser.crows sheet) ri = Some r ->
  blankKey keyCol r = false ->
  exists rec,
    getKey (buildRecordMap sheets keyCol) (keyOf keyCol r) = Some rec
    /\ In (mkOccurrence si (FileParser.label sheet) r ri) (occurrences rec).
Proof.
  intros Hsheet Hrow Hb. unfold buildRecordMap, foldi.
  set (held := fun (o : Occurrence) (m : list (jsstring * RecordEntry)) =>
                 exists rec, getKey m (keyOf keyCol (row o)) = Some rec
                             /\ In o (occurrences rec)).
  set (Q := fun (sheet : Sheet) (si : nat) (m : list (jsstring * RecordEntry)) =>
              forall ri r,
                nth_error (FileParser.crows sheet) ri = Some r ->
                blankKey keyCol r = false ->
                held (mkOccurrence si (FileParser.label sheet) r ri) m).
  set (f := fun (recordMap : list (jsstring * RecordEntry)) (sheet : Sheet)
                (sheetIndex : nat) =>
              foldi_from 0
                (addRow (List.length sheets) sheetIndex
                        (FileParser.label sheet) keyCol)
                (FileParser.crows sheet) recordMap).
  assert (Hkeep : forall s x i y j, Q y j s -> Q y j (f s x i)).
  { intros m x i y j Hy ri' r' Hrow' Hb'. unfold f.
    apply (foldi_from_invariant
             (held (mkOccurrence j (FileParser.label y) r' ri'))).
    - intros m' r0 i0 _ Hm'. unfold held in *. now apply addRow_keeps.
    - now apply Hy. }
  assert (Hnew : forall s x i, Q x i (f s x i)).
  { intros m x i ri' r' Hrow' Hb'. unfold f.
    refine (foldi_from_covers
              (fun r ri m =>
                 blankKey keyCol r = false ->
                 held (mkOccurrence i (FileParser.label x) r ri) m)
              (addRow (List.length sheets) i (FileParser.label x) keyCol)
              _ _ (FileParser.crows x) 0 m ri' r' Hrow' Hb').
    - intros m' r0 i0 y j Hy Hby. unfold held in *. cbn [row] in *.
      apply addRow_keeps. now apply Hy.
    - intros m' r0 i0 Hb0. unfold held. cbn [row]. now apply addRow_holds. }
  exact (foldi_from_covers Q f Hkeep Hnew sheets 0 [] si sheet Hsheet
                           ri r Hrow Hb).
Qed.

(** X26.  In a report of [compareSheets] no keyed row is lost: every row of
    every compared sheet whose key cell is neither absent nor blank is an
    occurrence, with its sheet index, sheet label and row index, of the
    record of [results.all] whose key is the trimmed key text of the
    row. *)
Theorem compareSheets_complete cfg sheets keyCol options rep :
  snd (compareSheets cfg sheets keyCol options) = Some rep ->
  forall si sheet ri r,
    nth_error sheets si = Some sheet ->
    nth_error (FileParser.crows sheet) ri = Some r ->
    blankKey keyCol r = false ->
    exists rec,
      In rec (all (results rep))
      /\ key rec = keyOf keyCol r
      /\ In (mkOccurrence si (FileParser.label sheet) r ri) (occurrences rec).
Proof.
  intros H si sheet ri r Hsheet Hrow Hb.
  destruct (compareSheets_report _ _ _ _ _ H) as [cfg2 ->].
  rewrite all_results.
  destruct (buildRecordMap_complete sheets keyCol si sheet ri r Hsheet Hrow Hb)
    as [rec [Hget Hin]].
  apply getKey_In in Hget.
  destruct (proj2 (buildRecordMap_grouped sheets keyCol) _ _ Hget) as [Hk _].
  exists (analysed cfg2 (List.length sheets)
            (columnsToCompare sheets keyCol options)
            (keyOf keyCol r, rec)).
  split; [apply in_map; exact Hget|].
  cbn [analysed key occurrences snd]. auto.
Qed.

Lemma compareSheets_complete_witness :
  snd (compareSheets Matcher.config two_sheets (lit "ID") defaults)
  = Some two_sheets_report
  /\ exists sheet,
       nth_error two_sheets 0 = Some sheet
       /\ nth_error (FileParser.crows sheet) 0 = Some first_row
       /\ blankKey (lit "ID") first_row = false
       /\ exists rec,
            In rec (all (results two_sheets_report))
            /\ key rec = keyOf (lit "ID") first_row
            /\ In (mkOccurrence 0 (FileParser.label sheet) first_row 0)
                  (occurrences rec).
Proof.
  split; [reflexivity|].
  eexists. split; [reflexivity|]. split; [reflexivity|].
  split; [reflexivity|].
  apply (compareSheets_complete Matcher.config two_sheets (lit "ID") defaults
           two_sheets_report eq_refl 0 _ 0 first_row eq_refl eq_refl eq_refl).
Defined.

(** ** findDuplicates *)

Lemma existsb_eqb_In i l : existsb (Nat.eqb i) l = true <-> In i l.
Proof.
  rewrite existsb_exists. split.
  - intros [x [Hx E]]. apply Nat.eqb_eq in E. now subst x.
  - intros H. exists i. split; [exact H | apply Nat.eqb_refl].
Qed.

Lemma existsb_eqb_not i l : existsb (Nat.eqb i) l = false <-> ~ In i l.
Proof.
  rewrite <- existsb_eqb_In. destruct (existsb _ l); split; congruence.
Qed.

Lemma NoDup_map_filter {A B} (f : A -> B) (p : A -> bool) (l : list A) :
  NoDup (List.map f l) -> NoDup (List.map f (List.filter p l)).
Proof.
  induction l as [|x l IH]; cbn [List.map List.filter]; [auto|].
  intros H. inversion H as [|y t Hx Hl]; subst.
  destruct (p x); cbn [List.map]; [|now apply IH].
  constructor; [|now apply IH]. intros Hin. apply Hx.
  apply in_map_iff in Hin as [z [<- Hz]]. apply filter_In in Hz as [Hz _].
  now apply in_map.
Qed.

Lemma sorted_NoDup (l : list nat) : StronglySorted lt l -> NoDup l.
Proof.
  induction 1 as [|x l Hs IH Hx]; constructor; [|exact IH].
  intros Hin. rewrite Forall_forall in Hx. specialize (Hx x Hin). lia.
Qed.

Lemma seq_sorted n : forall k, StronglySorted lt (seq k n).
Proof.
  induction n as [|n IH]; intros k; cbn [seq]; constructor; [apply IH|].
  apply Forall_forall. intros x Hx. apply in_seq in Hx. lia.
Qed.

Lemma indexed_rows (l : list object) : forall k,
  List.map fst (mapi_from k (fun r i => (i, r)) l) = seq k (List.length l).
Proof.
  induction l as [|x l IH]; intros k; cbn [mapi_from List.map seq List.length fst];
    [reflexivity|]. now rewrite IH.
Qed.

Lemma indices_group (keyA : value) (i : nat) (r : object)
    (sc : nat * object -> R) (hits : list (nat * object)) (n : nat) :
  indices (mkGroup keyA
             ((i, r, None)
              :: List.map (fun jr => (fst jr, snd jr, Some (sc jr))) hits) n)
  = i :: List.map fst hits.
Proof.
  unfold indices. cbn [records List.map fst]. rewrite map_map. reflexivity.
Qed.

Section Groups.
Variables (cfg : Matcher.Config) (keyCol : jsstring) (t : Q).

Lemma findGroups_within : forall rows checked g idx,
  In g (findGroups cfg keyCol t rows checked) -> In idx (indices g) ->
  In idx (List.map fst rows) /\ ~ In idx checked.
Proof.
  induction rows as [|[i r] rest IH]; intros checked g idx Hg Hidx;
    [destruct Hg|].
  cbn [findGroups] in Hg. cbv zeta in Hg. cbn [List.map fst].
  destruct (existsb (Nat.eqb i) checked) eqn:Hc.
  { destruct (IH _ _ _ Hg Hidx). split; [now right | assumption]. }
  apply existsb_eqb_not in Hc.
  remember (List.filter _ rest) as hits eqn:Hhits.
  assert (Hin : forall jr, In jr hits ->
                  In jr rest /\ ~ In (fst jr) checked).
  { intros jr Hjr. rewrite Hhits in Hjr. apply filter_In in Hjr as [H1 H2].
    apply andb_true_iff in H2 as [H2 _]. apply negb_true_iff in H2.
    apply existsb_eqb_not in H2. auto. }
  destruct hits as [|h hs].
  { destruct (IH _ _ _ Hg Hidx) as [H1 H2]. split; [now right|].
    intros H. apply H2. apply in_or_app. now left. }
  destruct Hg as [<-|Hg].
  - rewrite indices_group in Hidx.
    destruct Hidx as [<-|Hidx]; [split; [now left | exact Hc]|].
    apply in_map_iff in Hidx as [jr [<- Hjr]].
    destruct (Hin jr Hjr) as [H1 H2]. split; [|exact H2].
    right. now apply in_map.
  - destruct (IH _ _ _ Hg Hidx) as [H1 H2]. split; [now right|].
    intros H. apply H2. apply in_or_app. left. apply in_or_app. now left.
Qed.

Lemma findGroups_NoDup : forall rows checked,
  NoDup (List.map fst rows) ->
  NoDup (flat_map indices (findGroups cfg keyCol t rows checked)).
Proof.
  induction rows as [|[i r] rest IH]; intros checked Hnd; [constructor|].
  cbn [findGroups]. cbv zeta. cbn [List.map fst] in Hnd.
  inversion Hnd as [|x l Hi Hrest]; subst.
  destruct (existsb (Nat.eqb i) checked) eqn:Hc; [now apply IH|].
  remember (List.filter _ rest) as hits eqn:Hhits.
  assert (Hsub : forall j, In j (List.map fst hits) -> In j (List.map fst rest)).
  { intros j Hj. apply in_map_iff in Hj as [jr [<- Hjr]].
    rewrite Hhits in Hjr. apply filter_In in Hjr as [H1 _]. now apply in_map. }
  assert (Hnh : NoDup (List.map fst hits))
    by (rewrite Hhits; now apply NoDup_map_filter).
  destruct hits as [|h hs]; [now apply IH|].
  cbn [flat_map]. rewrite indices_group.
  apply NoDup_app.
  - constructor; [|exact Hnh]. intros H. apply Hi. now apply Hsub.
  - now apply IH.
  - intros x Hx HR. apply in_flat_map in HR as [g [Hg Hxg]].
    destruct (findGroups_within _ _ _ _ Hg Hxg) as [_ Hno]. apply Hno.
    destruct Hx as [<-|Hx].
    + apply in_or_app. right. now left.
    + apply in_or_app. left. apply in_or_app. now right.
Qed.

Lemma findGroups_shape : forall rows checked g,
  StronglySorted lt (List.map fst rows) ->
  In g (findGroups cfg keyCol t rows checked) ->
  count g = List.length (records g) /\ 2 <= count g
  /\ (forall i r s, In (i, r, s) (records g) -> In (i, r) rows)
  /\ exists i r rest,
       records g = (i, r, None) :: rest
       /\ gkey g = getProp r keyCol
       /\ forall j r' s, In (j, r', s) rest ->
            i < j
            /\ s = Some (Matcher.score
                           (Matcher.smartMatch cfg (gkey g) (getProp r' keyCol)))
            /\ Matcher.atLeast
                 (Matcher.score
                    (Matcher.smartMatch cfg (gkey g) (getProp r' keyCol))) t
               = true.
Proof.
  induction rows as [|[i r] rest IH]; intros checked g Hs Hg; [destruct Hg|].
  cbn [findGroups] in Hg. cbv zeta in Hg. cbn [List.map fst] in Hs.
  inversion Hs as [|x l Hrest Hi]; subst.
  assert (Hup : forall checked', In g (findGroups cfg keyCol t rest checked') ->
    count g = List.length (records g) /\ 2 <= count g
    /\ (forall i0 r0 s, In (i0, r0, s) (records g) -> In (i0, r0) ((i, r) :: rest))
    /\ exists i r rest,
         records g = (i, r, None) :: rest
         /\ gkey g = getProp r keyCol
         /\ forall j r' s, In (j, r', s) rest ->
              i < j
              /\ s = Some (Matcher.score
                             (Matcher.smartMatch cfg (gkey g) (getProp r' keyCol)))
              /\ Matcher.atLeast
                   (Matcher.score
                      (Matcher.smartMatch cfg (gkey g) (getProp r' keyCol))) t
                 = true).
  { intros checked' Hg'. destruct (IH _ _ Hrest Hg') as [H1 [H2 [H3 H4]]].
    split; [exact H1|]. split; [exact H2|]. split; [|exact H4].
    intros i0 r0 s H. right. now apply (H3 i0 r0 s). }
  destruct (existsb (Nat.eqb i) checked); [exact (Hup _ Hg)|].
  remember (List.filter _ rest) as hits eqn:Hhits.
  assert (Hin : forall jr, In jr hits ->
                  In jr rest
                  /\ Matcher.atLeast
                       (Matcher.score
                          (Matcher.smartMatch cfg (getProp r keyCol)
                                              (getProp (snd jr) keyCol))) t
                     = true).
  { intros jr Hjr. rewrite Hhits in Hjr. apply filter_In in Hjr as [H1 H2].
    apply andb_true_iff in H2 as [_ H2]. auto. }
  destruct hits as [|h hs]; [exact (Hup _ Hg)|].
  destruct Hg as [<-|Hg]; [|exact (Hup _ Hg)].
  cbn [count records gkey].
  split; [cbn [List.length]; now rewrite length_map|].
  split; [cbn [List.length]; lia|]. split.
  - intros i0 r0 s [E|H]; [injection E as <- <- _; now left|].
    apply in_map_iff in H as [jr [E Hjr]]. injection E as <- <- _.
    right. destruct jr as [j rj]. cbn [fst snd]. now apply Hin.
  - exists i, r. eexists. split; [reflexivity|]. split; [reflexivity|].
    intros j r' s H. apply in_map_iff in H as [jr [E Hjr]].
    injection E as <- <- <-. destruct (Hin jr Hjr) as [H1 H2].
    split; [|split; [reflexivity | exact H2]].
    rewrite Forall_forall in Hi. apply Hi. now apply in_map.
Qed.

End Groups.

(** X27.  The groups [findDuplicates] returns share no row: no row index
    occurs in two groups or twice in one.  Every group counts its records,
    which are at least two, and each record is the row of the sheet at its
    index.  The first record gives the key of the group and carries no
    score; every other record comes later in the sheet and carries the
    score of its key cell against the group key, which reaches the
    threshold (0.85 when none is given). *)
Theorem findDuplicates_groups cfg (sheet : Sheet) (keyCol : jsstring)
    (threshold : option Q) :
  let t := match threshold with Some t => t | None => (85 # 100)%Q end in
  let groups := findDuplicates cfg sheet keyCol threshold in
  NoDup (flat_map indices groups)
  /\ forall g, In g groups ->
       count g = List.length (records g) /\ 2 <= count g
       /\ (forall i r s, In (i, r, s) (records g) ->
             nth_error (FileParser.crows sheet) i = Some r)
       /\ exists i r rest,
            records g = (i, r, None) :: rest
            /\ gkey g = getProp r keyCol
            /\ forall j r' s, In (j, r', s) rest ->
                 i < j
                 /\ s = Some (Matcher.score
                                (Matcher.smartMatch cfg (gkey g)
                                                    (getProp r' keyCol)))
                 /\ Matcher.atLeast
                      (Matcher.score
                         (Matcher.smartMatch cfg (gkey g) (getProp r' keyCol)))
                      t
                    = true.
Proof.
  cbv zeta. unfold findDuplicates, mapi.
  set (t := match threshold with Some t => t | None => _ end).
  pose proof (indexed_rows (FileParser.crows sheet) 0) as Hidx.
  split.
  - apply findGroups_NoDup. rewrite Hidx. apply sorted_NoDup, seq_sorted.
  - intros g Hg.
    destruct (findGroups_shape cfg keyCol t _ _ g
                ltac:(rewrite Hidx; apply seq_sorted) Hg)
      as [H1 [H2 [H3 H4]]].
    split; [exact H1|]. split; [exact H2|]. split; [|exact H4].
    intros i r s H. specialize (H3 i r s H).
    apply In_nth_error in H3 as [n Hn].
    apply FileParserProperties.nth_error_mapi_from in Hn as [x [Hx E]].
    injection E as -> ->. exact Hx.
Qed.

End ReporterProperties.

(* ================================================================== *)
(** * The exporter: the fields of the CSV file *)
(* ================================================================== *)

Module ExporterProperties.
Import JS Exporter ExporterNotions JSFacts.

Lemma undouble_pair t : undouble (QUOTE :: QUOTE :: t) = QUOTE :: undouble t.
Proof. reflexivity. Qed.

Lemma undouble_other c t :
  N.eqb c QUOTE = false -> undouble (c :: t) = c :: undouble t.
Proof.
  intros E. destruct t as [|c' t']; [reflexivity|].
  change (undouble (c :: c' :: t'))
    with (if N.eqb c QUOTE && N.eqb c' QUOTE then QUOTE :: undouble t'
          else c :: undouble (c' :: t')).
  now rewrite E.
Qed.

Lemma undouble_doubleQuotes s : undouble (doubleQuotes s) = s.
Proof.
  induction s as [|c s IH]; [reflexivity|].
  change (doubleQuotes (c :: s))
    with ((if N.eqb c QUOTE then [QUOTE; QUOTE] else [c]) ++ doubleQuotes s).
  destruct (N.eqb c QUOTE) eqn:E; cbn [app].
  - apply N.eqb_eq in E. subst c. now rewrite undouble_pair, IH.
  - now rewrite (undouble_other _ _ E), IH.
Qed.

Lemma doubleQuotes_plain s :
  existsb (N.eqb QUOTE) (doubleQuotes s) = false -> doubleQuotes s = s.
Proof.
  induction s as [|c s IH]; [reflexivity|].
  change (doubleQuotes (c :: s))
    with ((if N.eqb c QUOTE then [QUOTE; QUOTE] else [c]) ++ doubleQuotes s).
  destruct (N.eqb c QUOTE) eqn:E; cbn [app existsb].
  - rewrite N.eqb_refl. discriminate.
  - rewrite N.eqb_sym, E. cbn [orb]. intros H. now rewrite IH.
Qed.

Lemma read_quoted s : readField (QUOTE :: doubleQuotes s ++ [QUOTE]) = s.
Proof.
  unfold readField. rewrite N.eqb_refl, removelast_last.
  apply undouble_doubleQuotes.
Qed.

Lemma read_plain s :
  existsb (N.eqb QUOTE) (doubleQuotes s) = false ->
  readField (doubleQuotes s) = s.
Proof.
  intros H. pose proof (doubleQuotes_plain _ H) as E. rewrite E in H |- *.
  destruct s as [|c t]; [reflexivity|]. cbn [existsb] in H.
  apply orb_false_iff in H as [H _]. unfold readField.
  now rewrite N.eqb_sym, H.
Qed.

(** X28.  The field [toCSV] writes for a cell can be read back: dropping
    the outer quotes of a quoted field and taking each pair of quotes for
    one gives the text of the cell, which is empty for [null] and
    [undefined].  So two cells are written as the same field only when
    their texts are the same. *)
Theorem csvField_reads_back :
  (forall v, readField (csvField v) = text v)
  /\ (forall v w, csvField v = csvField w -> text v = text w).
Proof.
  assert (Hread : forall v, readField (csvField v) = text v).
  { intros v. unfold csvField, text. cbv zeta.
    set (s := if isNullish v then [] else toString v).
    destruct (existsb (N.eqb COMMA) (doubleQuotes s)); cbn [orb];
      [apply read_quoted|].
    destruct (existsb (N.eqb QUOTE) (doubleQuotes s)) eqn:E; cbn [orb];
      [apply read_quoted|].
    destruct (existsb (N.eqb NEWLINE) (doubleQuotes s));
      [apply read_quoted | now apply read_plain]. }
  split; [exact Hread|].
  intros v w H. rewrite <- (Hread v), <- (Hread w). now rewrite H.
Qed.

(** ** The rows of the Excel sheets *)

Lemma digits_of_uint (d : Decimal.uint) :
  Forall (fun c => isDigit c = true) (lit (NilEmpty.string_of_uint d)).
Proof.
  induction d; cbn [NilEmpty.string_of_uint]; unfold lit in *;
    cbn [list_ascii_of_string List.map]; constructor; auto.
Qed.

Lemma decimal_digits (z : Z) :
  (0 <= z)%Z -> Forall (fun c => isDigit c = true) (decimal z).
Proof.
  intros Hz. unfold decimal. destruct z as [|p|p]; [repeat constructor| |lia].
  cbn [Z.to_int NilZero.string_of_int]. unfold NilZero.string_of_uint.
  destruct (Pos.to_uint p) eqn:E; try (rewrite <- E; apply digits_of_uint).
  repeat constructor.
Qed.

Lemma lit_inj (s s' : string) : lit s = lit s' -> s = s'.
Proof.
  unfold lit. intros H.
  rewrite <- (string_of_list_ascii_of_string s),
          <- (string_of_list_ascii_of_string s').
  f_equal. revert H. generalize (list_ascii_of_string s') as l'.
  induction (list_ascii_of_string s) as [|a l IH]; intros [|a' l'];
    cbn [List.map]; try discriminate; [reflexivity|].
  intros [= Ha Hl]. f_equal; [|now apply IH].
  rewrite <- (ascii_N_embedding a), <- (ascii_N_embedding a'). now rewrite Ha.
Qed.

Lemma decimal_inj (z z' : Z) : decimal z = decimal z' -> z = z'.
Proof.
  unfold decimal. intros H. apply lit_inj in H.
  assert (Hn : forall z, Z.to_int z <> Decimal.Pos Decimal.Nil
                         /\ Z.to_int z <> Decimal.Neg Decimal.Nil).
  { intros [|p|p]; cbn [Z.to_int]; split; try discriminate;
      intros [= E]; now apply (DecimalPos.Unsigned.to_uint_nonnil p). }
  pose proof (NilZero.isi _ (proj1 (Hn z)) (proj2 (Hn z))) as E.
  pose proof (NilZero.isi _ (proj1 (Hn z')) (proj2 (Hn z'))) as E'.
  rewrite H, E' in E. injection E as E. symmetry.
  now apply DecimalZ.to_int_inj.
Qed.

Lemma parse_unique : forall d d' k k' : jsstring,
  Forall (fun c => isDigit c = true) d ->
  Forall (fun c => isDigit c = true) d' ->
  d ++ UNDERSCORE :: k = d' ++ UNDERSCORE :: k' -> d = d' /\ k = k'.
Proof.
  induction d as [|c d IH]; intros [|c' d'] k k' Hd Hd'; cbn [app].
  - intros [= ->]. auto.
  - intros [= <- _]. inversion Hd' as [|x l Hx]. discriminate.
  - intros [= -> _]. inversion Hd as [|x l Hx]. discriminate.
  - intros [= -> H]. inversion Hd; inversion Hd'; subst.
    destruct (IH d' k k') as [-> ->]; auto.
Qed.

Lemma sheetPrefix_inj idx idx' (k k' : jsstring) :
  sheetPrefix idx ++ k = sheetPrefix idx' ++ k' -> idx = idx' /\ k = k'.
Proof.
  unfold sheetPrefix. rewrite <- !app_assoc. cbn [app].
  intros [= H].
  apply parse_unique in H as [H ->]; try (apply decimal_digits; lia).
  apply decimal_inj in H. split; [lia | reflexivity].
Qed.

Lemma sheetPrefix_not_STATUS idx (k : jsstring) : sheetPrefix idx ++ k <> STATUS.
Proof.
  unfold sheetPrefix, STATUS. rewrite <- !app_assoc. cbn [app]. discriminate.
Qed.

Lemma writes_keep (W : list (jsstring * value)) nm : forall row,
  (forall w, In w W -> fst w <> nm) ->
  getProp (fold_left (fun o w => setProp o (fst w) (snd w)) W row) nm
  = getProp row nm.
Proof.
  induction W as [|w W IH]; intros row H; [reflexivity|].
  cbn [fold_left]. rewrite IH by (intros w' Hw'; apply H; now right).
  apply FileParserProperties.getProp_setProp_other. apply H. now left.
Qed.

Lemma writes_set (W : list (jsstring * value)) nm v :
  (forall w, In w W -> fst w = nm -> snd w = v) ->
  forall row,
    (exists w, In w W /\ fst w = nm) \/ getProp row nm = v ->
    getProp (fold_left (fun o w => setProp o (fst w) (snd w)) W row) nm = v.
Proof.
  induction W as [|w W IH]; intros Hv row H.
  - destruct H as [[w [[] _]]|H]. exact H.
  - cbn [fold_left]. apply IH; [intros w' Hw'; apply Hv; now right|].
    destruct (str_eqb (fst w) nm) eqn:E.
    + apply str_eqb_eq in E. right. rewrite E.
      rewrite FileParserProperties.getProp_setProp_same.
      apply Hv; [now left | exact E].
    + assert (Hne : fst w <> nm)
        by (intros G; rewrite G, str_eqb_refl in E; discriminate).
      destruct H as [[w' [[<-|Hw'] Hn]]|H]; [contradiction | left; eauto |].
      right. now rewrite FileParserProperties.getProp_setProp_other.
Qed.

Lemma sheetPrefix_not_PROTO idx (k : jsstring) : sheetPrefix idx ++ k <> PROTO.
Proof.
  unfold sheetPrefix. rewrite <- !app_assoc. cbn [app]. intros E.
  vm_compute in E. discriminate.
Qed.

Lemma sheetPrefix_own idx (k : jsstring) :
  inherited (sheetPrefix idx ++ k) = VUndefined.
Proof.
  unfold sheetPrefix. rewrite <- !app_assoc. cbn [app]. reflexivity.
Qed.

Lemma slot_fold idx (p : object) : forall (keys : list jsstring) row,
  fold_left (fun row key =>
               if startsWith [UNDERSCORE] key then row
               else assign row (sheetPrefix idx ++ key) (getProp p key))
            keys row
  = fold_left (fun o w => setProp o (fst w) (snd w))
      (flat_map (fun key => if startsWith [UNDERSCORE] key then []
                            else [(sheetPrefix idx ++ key, getProp p key)])
                keys)
      row.
Proof.
  induction keys as [|key keys IH]; intros row; [reflexivity|].
  cbn [fold_left flat_map]. rewrite fold_left_app, IH.
  destruct (startsWith [UNDERSCORE] key); [reflexivity|].
  rewrite FileParserProperties.assign_other by apply sheetPrefix_not_PROTO.
  reflexivity.
Qed.

Lemma presence_fold : forall (presence : list (option object)) k row,
  foldi_from k
    (fun row presence idx =>
       match presence with
       | Some p =>
           fold_left
             (fun row key =>
                if startsWith [UNDERSCORE] key then row
                else assign row (sheetPrefix idx ++ key) (getProp p key))
             (List.map fst p) row
       | None => row
       end)
    presence row
  = fold_left (fun o w => setProp o (fst w) (snd w)) (writesFrom k presence) row.
Proof.
  induction presence as [|[p|] presence IH]; intros k row;
    cbn [foldi_from writesFrom]; [reflexivity| |apply IH].
  rewrite fold_left_app, IH, slot_fold. reflexivity.
Qed.

Lemma In_writesFrom (w : jsstring * value) : forall presence k,
  In w (writesFrom k presence)
  <-> exists j p key,
        nth_error presence j = Some (Some p)
        /\ In key (List.map fst p)
        /\ startsWith [UNDERSCORE] key = false
        /\ w = (sheetPrefix (k + j) ++ key, getProp p key).
Proof.
  induction presence as [|o presence IH]; intros k.
  - cbn [writesFrom In]. split; [tauto|].
    intros [[|j] [p [key [H _]]]]; discriminate.
  - assert (Hrest : In w (writesFrom (S k) presence)
              <-> exists j p key,
                    nth_error (o :: presence) (S j) = Some (Some p)
                    /\ In key (List.map fst p)
                    /\ startsWith [UNDERSCORE] key = false
                    /\ w = (sheetPrefix (k + S j) ++ key, getProp p key)).
    { rewrite IH. cbn [nth_error].
      split; intros [j [p [key [H1 [H2 [H3 H4]]]]]]; exists j, p, key;
        repeat split; auto; rewrite H4; do 3 f_equal; lia. }
    assert (Hslot : forall p, In w (slotWrites k p)
              <-> exists key,
                    In key (List.map fst p)
                    /\ startsWith [UNDERSCORE] key = false
                    /\ w = (sheetPrefix (k + 0) ++ key, getProp p key)).
    { intros p. unfold slotWrites. rewrite in_flat_map, Nat.add_0_r.
      split; intros [key [H1 H2]]; exists key.
      - destruct (startsWith [UNDERSCORE] key); [destruct H2|].
        destruct H2 as [<-|[]]. auto.
      - destruct H2 as [-> ->]. split; [exact H1 | now left]. }
    destruct o as [p|]; cbn [writesFrom]; rewrite ?in_app_iff, ?Hslot, Hrest.
    + split.
      * intros [[key H]|[j H]]; [exists 0, p, key; cbn [nth_error]; tauto|].
        exists (S j). exact H.
      * intros [[|j] [p' [key [H1 H]]]].
        -- cbn [nth_error] in H1. injection H1 as <-. left. exists key. exact H.
        -- right. exists j, p', key. auto.
    + split.
      * intros [j H]. exists (S j). exact H.
      * intros [[|j] [p' [key [H1 H]]]]; [discriminate|].
        exists j, p', key. auto.
Qed.

Lemma hasKey_names (p : object) k : hasKey p k = true <-> In k (List.map fst p).
Proof.
  unfold hasKey. rewrite existsb_exists, in_map_iff.
  split; intros [kv [H1 H2]]; exists kv.
  - apply str_eqb_eq in H2. auto.
  - split; [exact H2 | now apply str_eqb_eq].
Qed.

Lemma STATUS_not_PROTO : STATUS <> PROTO.
Proof. intros E. vm_compute in E. discriminate. Qed.

Lemma STATUS_own : inherited STATUS = VUndefined.
Proof. reflexivity. Qed.

(** X29.  In a row [prepareSheetData] builds for a record: the status
    column holds the label of the status of the record; for every sheet in
    which the record is present, every name of its row there that does not
    start with an underscore is exported, under the sheet prefix, with its
    cell; no name that starts with an underscore, such as "_rowIndex", is
    exported under a sheet prefix; and the key column holds the key of the
    record unless its name is the name of the status column, a prefixed
    name or "__proto__", the name under which an assignment writes
    nothing. *)
Theorem prepareRow_fields (keyColumn : jsstring) (record : Reporter.RecordEntry) :
  let row := prepareRow keyColumn record in
  getProp row STATUS = VString (getStatusLabel (Reporter.status record))
  /\ (forall idx p k,
        nth_error (Reporter.sheetPresence record) idx = Some (Some p) ->
        hasKey p k = true -> startsWith [UNDERSCORE] k = false ->
        getProp row (sheetPrefix idx ++ k) = getProp p k)
  /\ (forall idx k,
        startsWith [UNDERSCORE] k = true -> sheetPrefix idx ++ k <> keyColumn ->
        getProp row (sheetPrefix idx ++ k) = VUndefined)
  /\ (keyColumn <> STATUS -> keyColumn <> PROTO ->
      (forall idx k, keyColumn <> sheetPrefix idx ++ k) ->
      getProp row keyColumn = VString (Reporter.key record)).
Proof.
  cbv zeta. unfold prepareRow, foldi. rewrite presence_fold.
  rewrite (FileParserProperties.assign_other _ STATUS) by apply STATUS_not_PROTO.
  set (row0 := setProp (assign [] keyColumn _) STATUS _).
  set (W := writesFrom 0 (Reporter.sheetPresence record)).
  assert (HW : forall w, In w W ->
            exists j p key,
              nth_error (Reporter.sheetPresence record) j = Some (Some p)
              /\ In key (List.map fst p)
              /\ startsWith [UNDERSCORE] key = false
              /\ w = (sheetPrefix j ++ key, getProp p key)).
  { intros w Hw. apply In_writesFrom in Hw. exact Hw. }
  split; [|split; [|split]].
  - rewrite writes_keep; [apply FileParserProperties.getProp_setProp_same|].
    intros w Hw. destruct (HW w Hw) as [j [p [key [_ [_ [_ ->]]]]]].
    apply sheetPrefix_not_STATUS.
  - intros idx p k Hp Hk Hu. apply writes_set.
    + intros w Hw E. destruct (HW w Hw) as [j [p' [key [H1 [_ [_ ->]]]]]].
      cbn [fst snd] in *. apply sheetPrefix_inj in E as [-> ->].
      rewrite Hp in H1. now injection H1 as <-.
    + left. exists (sheetPrefix idx ++ k, getProp p k). split; [|reflexivity].
      apply In_writesFrom. exists idx, p, k.
      split; [exact Hp|]. split; [now apply hasKey_names|]. auto.
  - intros idx k Hu Hne. rewrite writes_keep.
    + unfold row0.
      rewrite FileParserProperties.getProp_setProp_other
        by (intros E; symmetry in E; now apply sheetPrefix_not_STATUS in E).
      rewrite FileParserProperties.getProp_assign_other by congruence.
      apply sheetPrefix_own.
    + intros w Hw E. destruct (HW w Hw) as [j [p [key [_ [_ [Hk ->]]]]]].
      cbn [fst] in E. apply sheetPrefix_inj in E as [_ ->]. congruence.
  - intros Hs Hp Hpre. rewrite writes_keep.
    + unfold row0.
      rewrite FileParserProperties.getProp_setProp_other by congruence.
      now apply FileParserProperties.getProp_assign_same.
    + intros w Hw E. destruct (HW w Hw) as [j [p [key [_ [_ [_ ->]]]]]].
      cbn [fst] in E. symmetry in E. now apply Hpre in E.
Qed.

(** ** The sheets of the Excel file *)

Lemma rowTotal_filter (l : list ExportSheet) :
  rowTotal (List.filter (fun s => Nat.ltb 0 (List.length (data s))) l)
  = rowTotal l.
Proof.
  induction l as [|s l IH]; [reflexivity|].
  cbn [List.filter rowTotal fold_right] in *.
  destruct (Nat.ltb 0 (List.length (data s))) eqn:E;
    cbn [rowTotal fold_right]; fold (rowTotal l) in *;
    fold (rowTotal (List.filter (fun s => Nat.ltb 0 (List.length (data s))) l))
      in *.
  - now rewrite IH.
  - apply Nat.ltb_ge in E. rewrite IH. lia.
Qed.

Lemma export_all (rep : Reporter.ComparisonReport) :
  rowTotal (getSheetsToExport rep (lit "all"))
  = List.length (Reporter.exactMatches (Reporter.results rep))
    + (List.length (Reporter.fuzzyMatches (Reporter.results rep))
       + (List.length (Reporter.differences (Reporter.results rep))
          + (List.length (Reporter.conflicts (Reporter.results rep)) + 0))).
Proof.
  change (getSheetsToExport rep (lit "all"))
    with [mkExportSheet [1605; 1578; 1591; 1575; 1576; 1602]%N
            (prepareSheetData (Reporter.exactMatches (Reporter.results rep)) rep);
          mkExportSheet [1605; 1578; 1588; 1575; 1576; 1607]%N
            (prepareSheetData (Reporter.fuzzyMatches (Reporter.results rep)) rep);
          mkExportSheet [1605; 1601; 1602; 1608; 1583]%N
            (prepareSheetData (Reporter.differences (Reporter.results rep)) rep);
          mkExportSheet [1578; 1606; 1575; 1602; 1590; 1575; 1578]%N
            (prepareSheetData (Reporter.conflicts (Reporter.results rep)) rep)].
  unfold rowTotal, prepareSheetData. cbn [fold_right data].
  now rewrite !length_map.
Qed.

(** X30.  For a report of [compareSheets], the four sheets
    [getSheetsToExport] gives for the type "all" hold one row per record of
    the report, and so do the result sheets [toExcel] appends, which leave
    out the sheets without rows.  A report type other than "all",
    "matched", "similar", "missing" and "conflicts" gives no sheet. *)
Theorem getSheetsToExport_rows cfg sheets keyCol options rep :
  snd (Reporter.compareSheets cfg sheets keyCol options) = Some rep ->
  List.length (getSheetsToExport rep (lit "all")) = 4
  /\ rowTotal (getSheetsToExport rep (lit "all"))
     = Reporter.totalRecords (Reporter.summary rep)
  /\ rowTotal (resultSheets rep (lit "all"))
     = Reporter.totalRecords (Reporter.summary rep)
  /\ (forall reportType, knownType reportType = false ->
        getSheetsToExport rep reportType = []).
Proof.
  intros H. split; [reflexivity|].
  assert (Htotal : rowTotal (getSheetsToExport rep (lit "all"))
                   = Reporter.totalRecords (Reporter.summary rep)).
  { rewrite export_all.
    destruct (ReporterFacts.compareSheets_report _ _ _ _ _ H) as [cfg2 ->].
    pose proof (ReporterFacts.buildReport_results cfg2 sheets keyCol options)
      as E. cbv zeta in E. rewrite E.
    cbn [Reporter.exactMatches Reporter.fuzzyMatches Reporter.differences
         Reporter.conflicts].
    set (recs := List.map _ (Reporter.buildRecordMap sheets keyCol)).
    assert (Hknown : Forall (fun r => Reporter.status r <> Reporter.unknown) recs).
    { apply Forall_forall. intros r Hr. apply in_map_iff in Hr as [e [<- _]].
      apply ReporterFacts.analyzeRecord_status. }
    change (Reporter.totalRecords
              (Reporter.summary (Reporter.buildReport cfg2 sheets keyCol options)))
      with (List.length (Reporter.buildRecordMap sheets keyCol)).
    assert (Hlen : List.length recs
                   = List.length (Reporter.buildRecordMap sheets keyCol))
      by (unfold recs; apply length_map).
    rewrite (ReporterFacts.filter_lengths recs Hknown) in Hlen. lia. }
  split; [exact Htotal|]. split.
  - unfold resultSheets. now rewrite rowTotal_filter.
  - intros reportType Hk. unfold knownType in Hk. cbn [existsb] in Hk.
    repeat (apply orb_false_iff in Hk as [? Hk]).
    unfold getSheetsToExport. cbv zeta.
    repeat match goal with
           | E : str_eqb reportType _ = false |- _ => rewrite E; clear E
           end.
    reflexivity.
Qed.

Lemma getSheetsToExport_rows_witness :
  snd (Reporter.compareSheets Matcher.config ReporterNotions.two_sheets
         (lit "ID") ReporterNotions.defaults)
  = Some ReporterNotions.two_sheets_report
  /\ rowTotal (getSheetsToExport ReporterNotions.two_sheets_report (lit "all"))
     = Reporter.totalRecords (Reporter.summary ReporterNotions.two_sheets_report).
Proof.
  split; [reflexivity|].
  apply (getSheetsToExport_rows Matcher.config ReporterNotions.two_sheets
           (lit "ID") ReporterNotions.defaults
           ReporterNotions.two_sheets_report eq_refl).
Defined.

End ExporterProperties.
